(* ===== verification/_CoqProject ===== *)
-Q . S2P
Prelude.v
JsValue.v
Store.v
StoreInv.v
Retention.v
Ingest.v
Sums.v
Payload.v
Projects.v
Server.v
Types.v
Queries.v
Spec.v
Live.v
Script.v
Lifecycle.v
Concurrent.v
