(* ===== verification/Prelude.v ===== *)
(** * A verification development of the e2e test-results dashboard

    The program (src/server.js, with the client script
    src/e2e/post-results.js) is an Express service over PostgreSQL.  CI
    scripts [POST /api/results] with one event made of test suites; the
    handler stores the event, one run row per suite and the suites' cases in
    one transaction, then sweeps the project's events down to the newest
    five.  [POST /api/projects] registers a project; dashboards read the
    tables back through the GET endpoints.  The client script posts three
    such events, one after the other, and stops at the first failure.

    ** Files, and what each models

    - [Prelude.v] (this file): the result type and the state/error monad the
      handlers are written in ([stM], [sbind], [smapM], notation
      [x <- c ;; k] in [e2e_scope]); [keeps I c], an invariant kept by a
      statement whatever its outcome, with its combinators; list, sorting
      and sum lemmas shared by the components; the hint databases [e2e] and
      [e2e_rw]; the tactic [run_stm].
    - [JsValue.v], Module [Js]: the JavaScript values the handlers read from
      [req.body] ([jsval]) and the language operations they use: truthiness
      ([truthy], for [!x] and [x || d]), [x == null] ([nullish]), property
      access that throws on null ([prop]), [Number(x)] ([to_number]) and
      [String(x)] ([js_to_string]), with the decimal printer and parser.
    - [Store.v], Module [Pg]: the four tables of [initDb] (server.js 14-71)
      as lists of records, the [SERIAL] sequences (32-bit: [nextval] fails
      past 2^31-1, and a rollback does not give ids back), the clock read by
      [NOW()], parameter binding as node-postgres does it, in the order
      $1, $2, ... ([to_int]: text read by [int4in]; [bind_text]: a text
      holding a NUL byte is refused with 22021; a statement with more than
      65535 parameters is refused with 08P01, [max_params]), and the statements the handlers send: the project
      upsert and insert, the event, run and batched case inserts (id drawn
      first, then NOT NULL and CHECK per row, foreign keys at the end, the
      statement undone on error: [atomic]), the cascading [DELETE] of events.
    - [StoreInv.v], Module [PgInv]: the store invariant [wf] (ids increasing
      and below their sequence, unique names, foreign keys), kept by every
      statement ([stmt_ok]), and an executable checker [wfb] proved sound.
    - [Retention.v], Module [Retention]: [pruneEvents] (server.js 73-82).
    - [Ingest.v], Module [Ingest]: [POST /api/results] (server.js 142-231):
      the two body shapes, the validation loop, the [Number] aggregation,
      the transaction [ingest_txn] and [post_results] with [BEGIN],
      [ROLLBACK] and the sweep after [COMMIT].
    - [Sums.v], Module [EventSums]: the aggregate invariant (an event's
      counts are the sums of its runs').
    - [Payload.v], Module [Payload]: the malformed and legacy payloads.
    - [Projects.v], Module [Projects]: [POST /api/projects] (92-109).
    - [Server.v], Module [Server]: the two writing handlers as one step
      [handle], the states [reachable] from the empty database, and the
      invariant [server_inv] of every reachable state.
    - [Types.v], Module [Typed]: the column types and CHECKs of the stored
      rows, as an invariant [typed] of every reachable state.
    - [Queries.v], Module [Queries]: the eight GET handlers (111-136,
      233-389), with [parseInt], the [LIMIT] parameter and the sorts.
    - [Spec.v], Module [Spec]: an abstract history of events
      ([spec_step]: append, retain the newest five, or stutter) and the
      refinement of [handle] into it.
    - [Live.v], Module [Live]: when [POST /api/results] is answered 201.
    - [Script.v], Module [Script]: src/e2e/post-results.js, run against
      [handle]: the three events, [postEvent] and [main].
    - [Lifecycle.v], Module [Lifecycle]: the process as a state machine
      [lc_step] over the disk (which tables and columns exist, and the
      rows): [initDb] (14-71) as its five statements ([create_projects] to
      [add_event_id]) run until one fails or the connection drops
      ([run_stmts]), listening once it succeeds, requests, and the signals
      (393-412).
    - [Concurrent.v], Module [Concurrent]: requests in flight at once.  A
      state [cstate] is the database, the pending [task]s and the ghost
      list of committed events; [arrive] validates a request and queues it
      for a connection, [connect] takes a client of the pool (161) and runs
      [BEGIN], [commit] the transaction at [COMMIT] (164-223) with [NOW()]
      of its [BEGIN], [select_step] the [SELECT] of [pruneEvents] (73-79)
      and a [TDelete] task its [DELETE]; a step that needs a connection
      waits while the ten of the pool are held ([cstep], [pool_free]); a
      schedule ([crun]) is any sequence of arrivals and steps.

    ** What is proved

    - Ingestion (Ingest, Payload, Sums): a 201 names an event whose counts
      are the [Number()] sums over the suites, with skipped clamped at 0; an
      answer other than 201 leaves the tables as they were; malformed
      payloads are refused before any statement, a [null] suite throwing
      outside the [try] block; the legacy shape is handled exactly as the
      same request with one suite.  A project name holding a NUL byte is
      answered 500 in every state; so is, for instance, a suite of 7282
      cases, whose one insert needs 65538 parameters, over 65535.  Every ingestion naming its project uses
      a project id, even for a registered project, so the projects sequence
      runs out with the number of ingestions (a finding).
    - Retention: after the sweep a project has exactly its newest five
      events, other projects are untouched, and a second sweep does nothing.
    - Reachable states (Server, Types, Sums): the store invariant, the
      aggregate invariant, the ceiling of five events per project, and the
      column types and CHECKs hold in every state the server can reach.
    - Restarts (Lifecycle): [initDb] run again after any number of
      interrupted runs leaves all tables and the [event_id] column in place
      and every row unchanged; across starts, failed starts and signals,
      the process serves only the full schema and a database reachable by
      requests alone.
    - Refinement (Spec): every handled request is a step of the abstract
      history, an ingestion exactly when the answer is 201, so every
      reachable state abstracts to a reachable abstract history.
    - Progress (Live, Script): from every reachable state, a well-formed
      request whose ids fit the sequences, whose texts hold no NUL byte and
      whose suites have at most 7281 cases is answered 201 with the next
      event and run ids; the client script then succeeds and prints the
      next three event ids, also when run a second time.
    - Queries: ordering, [LIMIT] bounds and the 404 of the read endpoints;
      in reachable states the event list of a project is complete; and what
      a 201 of POST /api/results reports, GET /api/events/:id gives back
      (the event, its sums, one run per suite in [run_ids] order).
    - Interleavings (Concurrent): the invariant [cinv] holds after every
      schedule; once no request is in flight each project has exactly its
      five newest committed events, whatever the interleaving, and so at
      most five; with fewer than ten requests in flight the pending work
      always runs out (at most four steps per request); ten requests
      holding the ten clients of the pool and all waiting for another
      connection for [pruneEvents] deadlock the server (a finding); and
      two requests committing before their sweeps leave seven events of a
      project visible (a finding against section 4.2 of the spec).
    - Values: an [INTEGER] parameter is stored as itself exactly when it
      fits in 32 bits.

    ** Bounds, fuel and choices of the model

    - Integers are [Z]; the 32-bit limits of [INTEGER] columns and of the
      sequences are written out ([int32_min], [int32_max], [in_int32]);
      the [LIMIT] parameter is a 64-bit [bigint].  JSON numbers are integers
      in the model; fractions and exponents are outside it.
    - The decimal printer [digits_of] recurses on fuel [digits_fuel n =
      1 + log2 n], enough since each step divides by ten ([digits_of_spec]).
    - [NOW()] is the clock [clock], advanced when a transaction begins:
      transactions start at distinct times, so events have distinct creation
      times ([events_strict]; under interleaving [ci_times]).  A committing
      transaction's statements take effect together: they only insert, and
      the project upsert waits for a concurrent insert of the same name to
      end, so PostgreSQL's result is that of some order of the commits.
      The ids of a transaction are drawn at its commit step; no theorem
      depends on the order of ids.
    - Text sent for arrays and objects follows node-postgres ([to_text]);
      [JSON.stringify] escapes the double quote, the backslash and the
      control characters.
    - The database collation is a parameter ([coll] in Queries.v).
    - The progress theorems need room in the sequences ([room],
      [script_room]): past 2^31-1 ids every insert fails, as in PostgreSQL.
    - [initDb]'s connection dropping is the number [n] of statements that
      complete ([Start n]); five is enough for all of them.
    - The pool's size is node-postgres' default, ten, since server.js
      passes no [max]; [pool.connect] waits without a timeout.

    ** Not modelled

    Interleavings of the GET handlers with other requests (each reads
    only, in one or a few statements, and takes a connection of the pool
    as POST /api/projects does), a signal arriving while requests are in
    flight, Express routing and the JSON
    text of requests and responses (bodies are values; [JSON.parse] of
    [JSON.stringify] is taken as the identity on the script's events),
    static files and the Swagger UI, console output of the server, and
    failures of the connection other than during [initDb]: these are I/O of
    the framework and the driver, not logic of the program.  Every loop of
    the program runs over a finite array, and every function of the model
    is structurally recursive; the termination arguments needed are the
    fuel of [digits_of] and the weight of the pending tasks
    ([drain_terminates]), which decreases at each step that runs. *)

From stdpp Require Export base list strings sorting sets.
From Stdlib Require Export ZArith Lia.

Declare Scope e2e_scope.
Delimit Scope e2e_scope with e2e.
Open Scope e2e_scope.

Create HintDb e2e.
Create Rewrite HintDb e2e_rw.

(** ** Results and the state/error monad

    Every handler of the server threads the database state through a
    sequence of statements that may fail; [stM S E A] is that shape. *)

Inductive result (E A : Type) : Type :=
| Ok (a : A)
| Err (e : E).
Arguments Ok {E A} a.
Arguments Err {E A} e.

Definition stM (S E A : Type) : Type := S -> result E A * S.

Section Monad.
Context {S E : Type}.

Definition sret {A} (a : A) : stM S E A := fun s => (Ok a, s).

Definition sthrow {A} (e : E) : stM S E A := fun s => (Err e, s).

Definition sbind {A B} (c : stM S E A) (k : A -> stM S E B) : stM S E B :=
  fun s => match c s with
           | (Ok a, s') => k a s'
           | (Err e, s') => (Err e, s')
           end.

Definition sget : stM S E S := fun s => (Ok s, s).

Definition sput (s : S) : stM S E unit := fun _ => (Ok tt, s).

Definition smodify (f : S -> S) : stM S E unit := fun s => (Ok tt, f s).

(** [for (const x of xs) { ys.push(await f(x)) }]: run [f] on each element
    in order, stopping at the first error. *)
Fixpoint smapM {A B} (f : A -> stM S E B) (xs : list A) : stM S E (list B) :=
  match xs with
  | [] => sret []
  | x :: xs' => sbind (f x) (fun y => sbind (smapM f xs') (fun ys => sret (y :: ys)))
  end.
End Monad.

Notation "x <- c ;; k" := (sbind c (fun x => k))
  (at level 100, c at next level, right associativity) : e2e_scope.
Notation "c ;;; k" := (sbind c (fun _ => k))
  (at level 100, right associativity) : e2e_scope.

(** ** Generic lemmas *)

Section MonadLemmas.
Context {S E : Type}.

Lemma sbind_ret {A B} (a : A) (k : A -> stM S E B) s :
  sbind (sret a) k s = k a s.
Proof. reflexivity. Qed.

Lemma sbind_ok {A B} (c : stM S E A) (k : A -> stM S E B) s a s' :
  c s = (Ok a, s') -> sbind c k s = k a s'.
Proof. unfold sbind. intros ->. reflexivity. Qed.

Lemma sbind_err {A B} (c : stM S E A) (k : A -> stM S E B) s e s' :
  c s = (Err e, s') -> sbind c k s = (Err e, s').
Proof. unfold sbind. intros ->. reflexivity. Qed.

(** A property of the state kept by every step of [smapM] is kept by the
    whole loop, whether it stops early or not. *)
Lemma smapM_preserves {A B} (P : S -> Prop) (f : A -> stM S E B) xs s :
  (forall x s, P s -> P (snd (f x s))) -> P s -> P (snd (smapM f xs s)).
Proof.
  intros Hf. revert s. induction xs as [|x xs IH]; intros s Hs; [done|].
  simpl. unfold sbind. specialize (Hf x s Hs).
  destruct (f x s) as [[y|e] s1]; simpl in *; [|done].
  specialize (IH s1 Hf). destruct (smapM f xs s1) as [[ys|e] s2]; done.
Qed.

Lemma smapM_length {A B} (f : A -> stM S E B) xs s ys s' :
  smapM f xs s = (Ok ys, s') -> length ys = length xs.
Proof.
  revert s ys. induction xs as [|x xs IH]; intros s ys Hrun; simpl in Hrun.
  - by inversion Hrun.
  - unfold sbind in Hrun. destruct (f x s) as [[y|e] s1]; [|done].
    destruct (smapM f xs s1) as [[ys'|e] s2] eqn:Hrest; [|done].
    inversion Hrun; subst. simpl. f_equal. eauto.
Qed.
End MonadLemmas.

(** ** Invariants of statements

    [keeps I c]: from a state satisfying [I], the statement [c] leaves a
    state satisfying [I], whether it fails or not.  The monad's combinators
    keep it, so a handler is checked one statement at a time. *)

Section Keeps.
Context {S E : Type} (I : S -> Prop).

Definition keeps {A} (c : stM S E A) : Prop := forall s, I s -> I (snd (c s)).

Lemma keeps_ret {A} (a : A) : keeps (sret a).
Proof. by intros s. Qed.

Lemma keeps_throw {A} (e : E) : keeps (A:=A) (sthrow e).
Proof. by intros s. Qed.

Lemma keeps_bind {A B} (c : stM S E A) (k : A -> stM S E B) :
  keeps c -> (forall a, keeps (k a)) -> keeps (sbind c k).
Proof.
  intros Hc Hk s Hs. unfold sbind. specialize (Hc s Hs).
  destruct (c s) as [[a|e] s']; [exact (Hk a s' Hc) | exact Hc].
Qed.

Lemma keeps_smapM {A B} (f : A -> stM S E B) xs : (forall x, keeps (f x)) -> keeps (smapM f xs).
Proof. intros Hf s Hs. apply smapM_preserves; [|done]. intros x s'. apply Hf. Qed.

End Keeps.

#[export] Hint Resolve keeps_ret keeps_throw keeps_bind keeps_smapM : e2e.

(** Sums of integer lists, the shape of [xs.reduce((s, r) => s + f(r), 0)]. *)
Definition sumZ {A} (f : A -> Z) (xs : list A) : Z :=
  fold_left (fun s x => (s + f x)%Z) xs 0%Z.

Lemma fold_left_addZ {A} (f : A -> Z) xs acc :
  fold_left (fun s x => (s + f x)%Z) xs acc = (acc + fold_left (fun s x => (s + f x)%Z) xs 0)%Z.
Proof.
  revert acc. induction xs as [|x xs IH]; intros acc; simpl; [lia|].
  rewrite (IH (acc + f x)%Z), (IH (0 + f x)%Z). lia.
Qed.

Lemma sumZ_nil {A} (f : A -> Z) : sumZ f [] = 0%Z.
Proof. reflexivity. Qed.

Lemma sumZ_cons {A} (f : A -> Z) x xs : sumZ f (x :: xs) = (f x + sumZ f xs)%Z.
Proof. unfold sumZ. simpl. rewrite fold_left_addZ. lia. Qed.

Lemma sumZ_app {A} (f : A -> Z) xs ys : sumZ f (xs ++ ys) = (sumZ f xs + sumZ f ys)%Z.
Proof.
  induction xs as [|x xs IH]; simpl; [rewrite sumZ_nil; lia|].
  rewrite !sumZ_cons, IH. lia.
Qed.

#[export] Hint Rewrite @sumZ_nil @sumZ_cons @sumZ_app : e2e_rw.

(** The last [n] elements of a list, what [rows.slice(rows.length - n)] keeps. *)
Definition lastn {A} (n : nat) (xs : list A) : list A := drop (length xs - n) xs.

Lemma length_lastn {A} n (xs : list A) : length (lastn n xs) = Nat.min n (length xs).
Proof. unfold lastn. rewrite length_drop. lia. Qed.

Lemma lastn_all {A} n (xs : list A) : length xs <= n -> lastn n xs = xs.
Proof. intros H. unfold lastn. replace (length xs - n) with 0 by lia. done. Qed.

Lemma take_drop_lastn {A} n (xs : list A) : take (length xs - n) xs ++ lastn n xs = xs.
Proof. apply take_drop. Qed.

(** ** Sorted tables

    The tables of the store are kept in insertion order, sorted by their
    serial id; rows are appended at the end and removed by filters. *)

Lemma Forall_filter_weak {A} (P : A -> Prop) (f : A -> bool) xs :
  Forall P xs -> Forall P (List.filter f xs).
Proof.
  rewrite !List.Forall_forall. intros H x Hx. apply filter_In in Hx as [Hx _]. auto.
Qed.

Section Sorted.
Context {A : Type} (R : relation A).

Lemma StronglySorted_filter (f : A -> bool) xs :
  StronglySorted R xs -> StronglySorted R (List.filter f xs).
Proof.
  induction 1 as [|x xs Hs IH Hx]; simpl; [constructor|].
  case_match; [|done]. constructor; [done|].
  by apply Forall_filter_weak.
Qed.

Lemma StronglySorted_snoc xs x :
  StronglySorted R xs -> Forall (fun y => R y x) xs -> StronglySorted R (xs ++ [x]).
Proof.
  intros Hs Hx. apply StronglySorted_app_2; [|done|repeat constructor].
  intros y1 y2 Hy1 ->%list_elem_of_singleton. rewrite Forall_forall in Hx. auto.
Qed.
End Sorted.

Lemma StronglySorted_rev {A} (R : relation A) xs :
  StronglySorted R xs -> StronglySorted (flip R) (rev xs).
Proof.
  induction 1 as [|x xs Hs IH Hx]; simpl; [constructor|].
  apply StronglySorted_snoc; [done|]. by apply List.Forall_rev.
Qed.

Lemma Forall_snoc {A} (P : A -> Prop) xs x : Forall P (xs ++ [x]) <-> Forall P xs /\ P x.
Proof. rewrite Forall_app, Forall_singleton. done. Qed.


#[export] Hint Resolve StronglySorted_filter StronglySorted_snoc Forall_filter_weak : e2e.

Lemma StronglySorted_weaken {A} (R R' : relation A) xs :
  (forall x y, R x y -> R' x y) -> StronglySorted R xs -> StronglySorted R' xs.
Proof.
  intros HR. induction 1 as [|x xs Hs IH Hx]; constructor; [done|].
  eapply Forall_impl; [exact Hx|]. eauto.
Qed.

Lemma In_take {A} n (xs : list A) x : In x (take n xs) -> In x xs.
Proof. intros H. rewrite <- (take_drop n xs). apply in_or_app. by left. Qed.

Lemma filter_comm {A} (f g : A -> bool) xs :
  List.filter f (List.filter g xs) = List.filter g (List.filter f xs).
Proof.
  induction xs as [|x xs IH]; simpl; [done|].
  destruct (g x) eqn:Hg, (f x) eqn:Hf; simpl; rewrite ?Hg, ?Hf, IH; done.
Qed.

Lemma NoDup_map_filter {A B} (f : A -> B) (p : A -> bool) xs :
  NoDup (map f xs) -> NoDup (map f (List.filter p xs)).
Proof.
  induction xs as [|x xs IH]; simpl; [done|]. intros [Hx Hnd]%NoDup_cons.
  case_match; simpl; [|auto]. constructor; [|auto].
  intros Hin. apply Hx, list_elem_of_In. apply list_elem_of_In, in_map_iff in Hin as (y & Hy & Hin).
  apply filter_In in Hin as [Hin _]. apply in_map_iff. eauto.
Qed.

Lemma NoDup_map_inj {A B} (f : A -> B) l x y :
  NoDup (map f l) -> In x l -> In y l -> f x = f y -> x = y.
Proof.
  induction l as [|a l IH]; [done|]. simpl. intros Hnd Hx Hy Hf.
  inversion Hnd as [|? ? Hnin Hnd']; subst.
  destruct Hx as [->|Hx], Hy as [->|Hy]; [done| | |by apply IH].
  - exfalso. apply Hnin. rewrite Hf. apply list_elem_of_In, in_map, Hy.
  - exfalso. apply Hnin. rewrite <- Hf. apply list_elem_of_In, in_map, Hx.
Qed.

Lemma Permutation_filter {A} (f : A -> bool) l l' :
  Permutation l l' -> Permutation (List.filter f l) (List.filter f l').
Proof.
  induction 1; simpl; try done.
  - case_match; [by constructor | done].
  - do 2 case_match; try constructor; done.
  - by etransitivity.
Qed.

Lemma length_filter_le {A} (f : A -> bool) xs : length (List.filter f xs) <= length xs.
Proof. induction xs as [|x xs IH]; simpl; [done|]. case_match; simpl; lia. Qed.

Lemma Forall2_r {A B} (P : A -> B -> Prop) (Q : B -> Prop) xs ys :
  (forall x y, P x y -> Q y) -> Forall2 P xs ys -> Forall Q ys.
Proof. intros HPQ H. induction H; constructor; eauto. Qed.

Lemma sumZ_map {A B} (f : B -> Z) (g : A -> B) xs : sumZ f (map g xs) = sumZ (fun x => f (g x)) xs.
Proof. induction xs as [|x xs IH]; simpl; rewrite ?sumZ_nil, ?sumZ_cons; lia. Qed.

Lemma sumZ_plus {A} (f g : A -> Z) xs : sumZ (fun x => f x + g x)%Z xs = (sumZ f xs + sumZ g xs)%Z.
Proof. induction xs as [|x xs IH]; simpl; rewrite ?sumZ_nil, ?sumZ_cons; lia. Qed.

Lemma sumZ_ext_in {A} (f g : A -> Z) xs : (forall x, In x xs -> f x = g x) -> sumZ f xs = sumZ g xs.
Proof.
  induction xs as [|x xs IH]; intros H; rewrite ?sumZ_nil, ?sumZ_cons; [done|].
  f_equal; [apply H; by left | apply IH; intros; apply H; by right].
Qed.

Lemma sumZ_zero {A} (f : A -> Z) xs : (forall x, In x xs -> f x = 0%Z) -> sumZ f xs = 0%Z.
Proof. intros H. rewrite (sumZ_ext_in f (fun _ => 0%Z)) by done. clear H. induction xs; rewrite ?sumZ_nil, ?sumZ_cons; lia. Qed.

Lemma sumZ_Permutation {A} (f : A -> Z) xs ys : xs ≡ₚ ys -> sumZ f xs = sumZ f ys.
Proof. induction 1; rewrite ?sumZ_cons; lia. Qed.

Lemma filter_all {A} (f : A -> bool) xs : (forall x, In x xs -> f x = true) -> List.filter f xs = xs.
Proof.
  induction xs as [|x xs IH]; simpl; intros H; [done|].
  rewrite H by auto. f_equal. auto.
Qed.

Lemma filter_none {A} (f : A -> bool) xs : (forall x, In x xs -> f x = false) -> List.filter f xs = [].
Proof.
  induction xs as [|x xs IH]; simpl; intros H; [done|].
  rewrite H by auto. auto.
Qed.

(** Removing the rows whose key is among the first [k] keys leaves the rows
    after the first [k], when keys are distinct. *)
Lemma filter_not_in_take {A} (key : A -> Z) xs k :
  NoDup (map key xs) ->
  List.filter (fun x => negb (bool_decide (key x ∈ take k (map key xs)))) xs = drop k xs.
Proof.
  revert k. induction xs as [|x xs IH]; intros k Hnd; [by destruct k|].
  destruct k as [|k]; simpl.
  - by rewrite filter_all.
  - simpl in Hnd. rewrite NoDup_cons in Hnd. destruct Hnd as [Hx Hnd].
    rewrite bool_decide_true by set_solver. simpl. rewrite <- (IH k Hnd).
    apply filter_ext_in. intros y Hy. f_equal. apply bool_decide_ext.
    rewrite elem_of_cons. split; [|by right]. intros [Heq|]; [|done].
    exfalso. apply Hx. rewrite <- Heq. apply list_elem_of_In, in_map. done.
Qed.

(** ** Tactics *)

(** Run the statements of a handler: unfold the monad, rewrite with the
    component lemmas and split on the outcome of each statement. *)
Ltac run_stm :=
  repeat (unfold sbind, sret, sthrow, sget, sput, smodify in *; simpl in *;
          try case_match; simplify_eq/=).
