(* ===== verification/JsValue.v ===== *)
(** * JavaScript values as the request handlers see them

    [req.body] is the value [express.json()] parsed; the handlers read it with
    property access, truthiness tests ([!x], [x || d]), loose null tests
    ([x != null]), [Array.isArray] and [Number(x)].  This file models those
    operations of the language on a JSON-shaped value type, together with
    the decimal conversions between integers and strings that [Number],
    [String] and the PostgreSQL integer input routine perform. *)

From S2P Require Import Prelude.
From Stdlib Require Import Ascii String.

Module Js.

Local Open Scope Z_scope.

(** A JS value: what JSON.parse can produce, plus [undefined] and [NaN],
    which the handlers produce themselves.  Numbers are integers; JSON
    numbers with a fraction or an exponent are outside the model. *)
#[warnings="-register-all"]
Inductive jsval : Type :=
| JUndef
| JNull
| JBool (b : bool)
| JNum (z : Z)
| JNaN
| JStr (s : string)
| JArr (xs : list jsval)
| JObj (fields : list (string * jsval)).

(** The result of [Number(x)]. *)
Inductive num : Type :=
| NFin (z : Z)
| NNaN.

Definition num_to_js (n : num) : jsval :=
  match n with NFin z => JNum z | NNaN => JNaN end.

(** [a + b] on numbers: NaN is absorbing. *)
Definition num_add (a b : num) : num :=
  match a, b with NFin x, NFin y => NFin (x + y) | _, _ => NNaN end.

(** [Math.max(0, n)]: NaN if either argument is NaN. *)
Definition num_max0 (n : num) : num :=
  match n with NFin x => NFin (Z.max 0 x) | NNaN => NNaN end.

Definition num_sub (a b : num) : num :=
  match a, b with NFin x, NFin y => NFin (x - y) | _, _ => NNaN end.

(** ToBoolean: what [if (x)], [!x] and [x || d] test. *)
Definition truthy (v : jsval) : bool :=
  match v with
  | JUndef | JNull | JNaN => false
  | JBool b => b
  | JNum z => negb (Z.eqb z 0)
  | JStr s => negb (String.eqb s EmptyString)
  | JArr _ | JObj _ => true
  end.

(** [x == null], so [x != null] is its negation. *)
Definition nullish (v : jsval) : bool :=
  match v with JUndef | JNull => true | _ => false end.

(** [x || d] *)
Definition or_else (v d : jsval) : jsval := if truthy v then v else d.

Definition is_array (v : jsval) : bool :=
  match v with JArr _ => true | _ => false end.

(** The own property [k] of the fields of an object: JSON.parse keeps the
    last of duplicated keys. *)
Definition field (fs : list (string * jsval)) (k : string) : jsval :=
  fold_left (fun acc kv => if String.eqb kv.1 k then kv.2 else acc) fs JUndef.

(** Property access [o.k]: [None] is the TypeError thrown on [null] and
    [undefined].  The keys the handlers read (suite_name, total, cases, ...)
    are not properties of the prototypes of primitives or arrays, so they
    read [undefined] there. *)
Definition prop (o : jsval) (k : string) : option jsval :=
  match o with
  | JUndef | JNull => None
  | JObj fs => Some (field fs k)
  | _ => Some JUndef
  end.

(** Object destructuring [const { k } = req.body], which is property access
    on the (never nullish) body. *)
Definition get (o : jsval) (k : string) : jsval :=
  match prop o k with Some v => v | None => JUndef end.

(** ** Decimal digits *)

Definition digit_val (c : ascii) : option Z :=
  let n := nat_of_ascii c in
  if (48 <=? n)%nat && (n <=? 57)%nat then Some (Z.of_nat (n - 48)) else None.

Definition digit_char (d : Z) : ascii := ascii_of_nat (48 + Z.to_nat d).

(** Fold the digits of [s] into [acc]. *)
Fixpoint digits_acc (s : string) (acc : Z) : option Z :=
  match s with
  | EmptyString => Some acc
  | String c s' =>
      match digit_val c with
      | Some d => digits_acc s' (acc * 10 + d)
      | None => None
      end
  end.

(** One or more decimal digits. *)
Definition parse_digits (s : string) : option Z :=
  match s with EmptyString => None | _ => digits_acc s 0 end.

(** An optional sign followed by one or more digits. *)
Definition parse_signed (s : string) : option Z :=
  match s with
  | String c t =>
      if Ascii.eqb c "-" then option_map Z.opp (parse_digits t)
      else if Ascii.eqb c "+" then parse_digits t
      else parse_digits s
  | EmptyString => None
  end.

(** The decimal digits of a non-negative integer, most significant first;
    [fuel] bounds the number of divisions by ten. *)
Fixpoint digits_of (fuel : nat) (n : Z) : string :=
  match fuel with
  | O => EmptyString
  | S f =>
      if n <? 10 then String (digit_char n) EmptyString
      else String.append (digits_of f (n / 10)) (String (digit_char (n mod 10)) EmptyString)
  end.

Definition digits_fuel (n : Z) : nat := S (Z.to_nat (Z.log2 n)).

(** [String(n)] for an integer [n]. *)
Definition Z_to_dec (z : Z) : string :=
  if z <? 0 then String "-" (digits_of (digits_fuel (- z)) (- z))
  else digits_of (digits_fuel z) z.

(** ** Whitespace and trimming

    [String.prototype.trim] and PostgreSQL's [int4in] both drop leading and
    trailing white space; the model knows the ASCII white space characters
    (tab, line feed, vertical tab, form feed, carriage return, space). *)

Definition is_space (c : ascii) : bool :=
  let n := nat_of_ascii c in ((9 <=? n)%nat && (n <=? 13)%nat) || (n =? 32)%nat.

Fixpoint trim_left (s : string) : string :=
  match s with
  | String c s' => if is_space c then trim_left s' else s
  | EmptyString => EmptyString
  end.

Fixpoint rev_string (s : string) (acc : string) : string :=
  match s with
  | EmptyString => acc
  | String c s' => rev_string s' (String c acc)
  end.

Definition trim (s : string) : string :=
  rev_string (trim_left (rev_string (trim_left s) EmptyString)) EmptyString.

(** [Number(s)] on a string: white space only is 0, a signed decimal
    integer is its value, anything else is NaN.  (JS also reads fractions,
    exponents, [Infinity] and 0x/0o/0b literals; those are outside the
    model and read NaN here.) *)
Definition str_to_number (s : string) : num :=
  let t := trim s in
  match t with
  | EmptyString => NFin 0
  | _ => match parse_signed t with Some z => NFin z | None => NNaN end
  end.

(** [String(v)]: arrays join their elements with commas, writing [null] and
    [undefined] elements as the empty string. *)
Fixpoint js_to_string (v : jsval) : string :=
  match v with
  | JUndef => "undefined"
  | JNull => "null"
  | JBool true => "true"
  | JBool false => "false"
  | JNum z => Z_to_dec z
  | JNaN => "NaN"
  | JStr s => s
  | JArr xs =>
      let fix go (xs : list jsval) : string :=
        match xs with
        | [] => EmptyString
        | x :: xs' =>
            String.append
              (match x with JUndef | JNull => EmptyString | _ => js_to_string x end)
              (match xs' with [] => EmptyString | _ => String "," (go xs') end)
        end in go xs
  | JObj _ => "[object Object]"
  end.

(** [Number(v)] (ToNumber, with ToPrimitive on arrays and objects). *)
Definition to_number (v : jsval) : num :=
  match v with
  | JUndef | JNaN => NNaN
  | JNull => NFin 0
  | JBool b => NFin (if b then 1 else 0)
  | JNum z => NFin z
  | JStr s => str_to_number s
  | JArr _ | JObj _ => str_to_number (js_to_string v)
  end.

(** ** Lemmas: decimal printing and parsing agree *)

Lemma append_cons c s t : String.append (String c s) t = String c (String.append s t).
Proof. reflexivity. Qed.

Arguments digit_val : simpl never.
Arguments digit_char : simpl never.

Definition is_digit (c : ascii) : bool :=
  let n := nat_of_ascii c in (48 <=? n)%nat && (n <=? 57)%nat.

Fixpoint str_forall (p : ascii -> bool) (s : string) : bool :=
  match s with
  | EmptyString => true
  | String c s' => p c && str_forall p s'
  end.

Lemma digits_acc_app s t a :
  digits_acc (String.append s t) a =
  match digits_acc s a with Some b => digits_acc t b | None => None end.
Proof.
  revert a. induction s as [|c s IH]; intros a; simpl; [done|].
  destruct (digit_val c); auto.
Qed.

Lemma digit_val_char d : 0 <= d < 10 -> digit_val (digit_char d) = Some d.
Proof.
  intros Hd. unfold digit_val, digit_char.
  rewrite nat_ascii_embedding by lia.
  replace (48 <=? 48 + Z.to_nat d)%nat with true by (symmetry; apply Nat.leb_le; lia).
  replace (48 + Z.to_nat d <=? 57)%nat with true by (symmetry; apply Nat.leb_le; lia).
  simpl. f_equal. lia.
Qed.

Lemma is_digit_char d : 0 <= d < 10 -> is_digit (digit_char d) = true.
Proof.
  intros Hd. unfold is_digit, digit_char. rewrite nat_ascii_embedding by lia.
  apply andb_true_intro; split; apply Nat.leb_le; lia.
Qed.

Lemma str_forall_app p s t :
  str_forall p (String.append s t) = str_forall p s && str_forall p t.
Proof. induction s as [|c s IH]; simpl; [done|]. by rewrite IH, andb_assoc. Qed.

Lemma div10_bound n f : 10 <= n < 2 ^ Z.of_nat (S f) -> 0 <= n / 10 < 2 ^ Z.of_nat f.
Proof.
  intros Hn. rewrite Nat2Z.inj_succ, Z.pow_succ_r in Hn by lia.
  pose proof (Z.div_mod n 10) as Hdm. pose proof (Z.mod_pos_bound n 10) as Hm.
  split; [apply Z.div_pos; lia|]. lia.
Qed.

Lemma digits_of_S f n :
  digits_of (S f) n =
  if n <? 10 then String (digit_char n) EmptyString
  else String.append (digits_of f (n / 10)) (String (digit_char (n mod 10)) EmptyString).
Proof. reflexivity. Qed.

(** The digits printed for [n] read back as [n], and are all digits. *)
Lemma digits_of_spec f n :
  0 <= n < 2 ^ Z.of_nat (S f) ->
  digits_acc (digits_of (S f) n) 0 = Some n /\
  str_forall is_digit (digits_of (S f) n) = true /\ digits_of (S f) n <> EmptyString.
Proof.
  revert n. induction f as [|f IH]; intros n Hn; rewrite digits_of_S;
    destruct (Z.ltb_spec n 10).
  1,3: cbn [digits_acc str_forall]; rewrite digit_val_char, is_digit_char by lia; done.
  1: simpl in Hn; lia.
  destruct (IH (n / 10)) as (Hd & Hf & Hne); [apply div10_bound; lia|].
  pose proof (Z.div_mod n 10) as Hdm. pose proof (Z.mod_pos_bound n 10) as Hm.
  rewrite digits_acc_app, Hd, str_forall_app, Hf. cbn [digits_acc str_forall].
  rewrite digit_val_char, is_digit_char by lia. split; [f_equal; lia|].
  split; [done|]. by destruct (digits_of (S f) (n / 10)).
Qed.

Lemma digits_fuel_enough n :
  0 <= n -> 0 <= n < 2 ^ Z.of_nat (S (Z.to_nat (Z.log2 n))).
Proof.
  intros Hn. rewrite Nat2Z.inj_succ, Z2Nat.id by apply Z.log2_nonneg.
  split; [lia|]. destruct (Z.eq_dec n 0) as [->|]; [simpl; lia|].
  apply Z.log2_spec. lia.
Qed.

Lemma parse_digits_signed s n :
  digits_acc s 0 = Some n -> s <> EmptyString -> parse_signed s = Some n.
Proof.
  destruct s as [|c t]; [done|]. intros Hd _. simpl.
  destruct (Ascii.eqb_spec c "-") as [->|]; [done|].
  destruct (Ascii.eqb_spec c "+") as [->|]; done.
Qed.

Lemma parse_digits_nonempty s n :
  digits_acc s 0 = Some n -> s <> EmptyString -> parse_digits s = Some n.
Proof. by destruct s. Qed.

Lemma parse_signed_neg t : parse_signed (String "-" t) = option_map Z.opp (parse_digits t).
Proof. reflexivity. Qed.

(** Reading back what [String(z)] printed gives [z]: the model of
    [Number(String(z))] and of PostgreSQL's reading of an integer parameter
    that node-postgres sends as text. *)
Lemma parse_Z_to_dec z : parse_signed (Z_to_dec z) = Some z.
Proof.
  unfold Z_to_dec. destruct (Z.ltb_spec z 0).
  - destruct (digits_of_spec (Z.to_nat (Z.log2 (- z))) (- z)) as (Hd & _ & Hne);
      [apply digits_fuel_enough; lia|].
    rewrite parse_signed_neg. unfold digits_fuel.
    rewrite (parse_digits_nonempty _ _ Hd Hne). simpl. f_equal. lia.
  - destruct (digits_of_spec (Z.to_nat (Z.log2 z)) z) as (Hd & _ & Hne);
      [by apply digits_fuel_enough|].
    by apply parse_digits_signed.
Qed.

Definition non_space (c : ascii) : bool := negb (is_space c).

Lemma str_forall_impl (p q : ascii -> bool) s :
  (forall c, p c = true -> q c = true) -> str_forall p s = true -> str_forall q s = true.
Proof.
  intros Hpq. induction s as [|c s IH]; simpl; [done|].
  intros [Hc Hs]%andb_prop. by rewrite Hpq, IH.
Qed.

Lemma trim_left_id s : str_forall non_space s = true -> trim_left s = s.
Proof.
  destruct s as [|c s]; simpl; [done|]. unfold non_space.
  by destruct (is_space c).
Qed.

Lemma rev_string_forall p s acc :
  str_forall p (rev_string s acc) = str_forall p s && str_forall p acc.
Proof.
  revert acc. induction s as [|c s IH]; intros acc; simpl; [done|].
  rewrite IH. simpl. by destruct (p c), (str_forall p s), (str_forall p acc).
Qed.

Lemma rev_string_rev_string s acc t :
  rev_string (rev_string s acc) t = rev_string acc (String.append s t).
Proof. revert acc t. induction s as [|c s IH]; intros acc t; simpl; [done|]. by rewrite IH. Qed.

Lemma append_empty_r s : String.append s EmptyString = s.
Proof. induction s as [|c s IH]; [done|]. rewrite append_cons. by rewrite IH. Qed.

(** A string without leading or trailing white space is its own trim. *)
Lemma trim_id s : str_forall non_space s = true -> trim s = s.
Proof.
  intros Hs. unfold trim. rewrite (trim_left_id s Hs).
  rewrite trim_left_id.
  - by rewrite rev_string_rev_string, append_empty_r.
  - by rewrite rev_string_forall, Hs.
Qed.

Lemma digit_non_space c : is_digit c = true -> non_space c = true.
Proof.
  unfold is_digit, non_space, is_space. set (n := nat_of_ascii c).
  intros [H1 H2]%andb_prop. apply Nat.leb_le in H1, H2.
  destruct (Nat.leb_spec 9 n), (Nat.leb_spec n 13), (Nat.eqb_spec n 32);
    simpl; first [done | lia].
Qed.

Lemma Z_to_dec_non_space z :
  str_forall non_space (Z_to_dec z) = true /\ Z_to_dec z <> EmptyString.
Proof.
  unfold Z_to_dec, digits_fuel. destruct (Z.ltb_spec z 0).
  - destruct (digits_of_spec (Z.to_nat (Z.log2 (- z))) (- z)) as (_ & Hf & _);
      [apply digits_fuel_enough; lia|].
    split; [|done]. simpl. eapply str_forall_impl; [apply digit_non_space | exact Hf].
  - destruct (digits_of_spec (Z.to_nat (Z.log2 z)) z) as (_ & Hf & Hne);
      [by apply digits_fuel_enough|].
    split; [|done]. eapply str_forall_impl; [apply digit_non_space | exact Hf].
Qed.

Lemma rev_string_append s t acc :
  rev_string (String.append s t) acc = rev_string t (rev_string s acc).
Proof. revert acc. induction s as [|c s IH]; intros acc; [done|]. rewrite append_cons. apply IH. Qed.

Lemma trim_left_cons c t : is_space c = false -> trim_left (String c t) = String c t.
Proof. intros Hc. simpl. by rewrite Hc. Qed.

Lemma rev_string_ends c t c' :
  rev_string (String c (String.append t (String c' EmptyString))) EmptyString =
  String c' (rev_string t (String c EmptyString)).
Proof. cbn [rev_string]. by rewrite rev_string_append. Qed.

(** A string that starts and ends with a non-space is its own trim. *)
Lemma trim_ends c t c' :
  is_space c = false -> is_space c' = false ->
  trim (String c (String.append t (String c' EmptyString))) =
  String c (String.append t (String c' EmptyString)).
Proof.
  intros Hc Hc'. unfold trim. rewrite trim_left_cons by done.
  rewrite rev_string_ends, trim_left_cons by done. rewrite <- rev_string_ends.
  by rewrite rev_string_rev_string, append_empty_r.
Qed.

(** [Number(String(z)) = z]: printing an integer in decimal and reading
    it back with [Number] gives the integer. *)
Lemma str_to_number_Z_to_dec z : str_to_number (Z_to_dec z) = NFin z.
Proof.
  destruct (Z_to_dec_non_space z) as [Hs Hne].
  unfold str_to_number. rewrite (trim_id _ Hs), parse_Z_to_dec.
  by destruct (Z_to_dec z).
Qed.

End Js.
