(* ===== verification/Store.v ===== *)
(** * The relational store: the schema of [initDb] and the statements the
    handlers send

    The four tables created by [initDb] (src/server.js lines 14-71) are lists
    of rows in insertion order; each [SERIAL] column has its sequence, which
    [nextval] advances before the row's constraints are checked and which a
    rollback does not rewind.  Parameters reach PostgreSQL the way
    node-postgres sends them: as text ([to_text]), read back by the column's
    input routine ([int4in] for [INTEGER], [to_int]) when the statement is
    bound.  An [INSERT] then draws the id, checks NOT NULL and CHECK per row,
    and checks foreign keys at the end of the statement.  Deleting an event
    cascades to its runs and their cases ([ON DELETE CASCADE]). *)

From S2P Require Import Prelude JsValue.
From Stdlib Require Import Ascii String.
Import Js.

Module Pg.

Local Open Scope Z_scope.

(** SQLSTATE classes the handlers can observe. *)
Inductive sqlerr : Type :=
| UniqueViolation      (** 23505 *)
| NotNullViolation     (** 23502 *)
| CheckViolation       (** 23514 *)
| FkViolation          (** 23503 *)
| InvalidTextRep       (** 22P02, invalid input syntax *)
| OutOfRange           (** 22003 *)
| SeqLimit             (** 2200H, a sequence reached its maximum *)
| InvalidLimit         (** 2201W, a negative [LIMIT] *)
| CharNotInRepertoire  (** 22021, a NUL byte in a text parameter *)
| ProtocolViolation.   (** 08P01, more than 65535 bind parameters *)

Definition sqlstate (e : sqlerr) : string :=
  match e with
  | UniqueViolation => "23505" | NotNullViolation => "23502"
  | CheckViolation => "23514" | FkViolation => "23503"
  | InvalidTextRep => "22P02" | OutOfRange => "22003" | SeqLimit => "2200H"
  | InvalidLimit => "2201W" | CharNotInRepertoire => "22021"
  | ProtocolViolation => "08P01"
  end.

(** ** Rows (src/server.js lines 15-65) *)

Record project : Type := mkProject {
  p_id : Z; p_name : string; p_description : option string;
  p_repo_url : option string; p_created_at : Z }.

Record event : Type := mkEvent {
  e_id : Z; e_project_id : option Z; e_event_name : string; e_trigger : string;
  e_total : Z; e_passed : Z; e_failed : Z; e_skipped : Z; e_created_at : Z }.

Record run : Type := mkRun {
  r_id : Z; r_project_id : option Z; r_event_id : option Z; r_suite_name : string;
  r_total : Z; r_passed : Z; r_failed : Z; r_created_at : Z }.

Record tcase : Type := mkCase {
  c_id : Z; c_run_id : Z; c_case_id : option string; c_case_name : string;
  c_description : option string; c_module : option string; c_type : option string;
  c_status : string; c_error_message : option string; c_duration_ms : option Z }.

(** The database: the tables, the last value of each sequence, and the
    clock that [NOW()] reads (the start of the current transaction). *)
Record db : Type := mkDb {
  projects : list project; events : list event; runs : list run; cases : list tcase;
  seq_projects : Z; seq_events : Z; seq_runs : Z; seq_cases : Z; clock : Z }.

Definition empty_db : db := mkDb [] [] [] [] 0 0 0 0 0.

Definition set_projects (ps : list project) (d : db) : db :=
  mkDb ps (events d) (runs d) (cases d) (seq_projects d) (seq_events d) (seq_runs d) (seq_cases d) (clock d).
Definition set_events (es : list event) (d : db) : db :=
  mkDb (projects d) es (runs d) (cases d) (seq_projects d) (seq_events d) (seq_runs d) (seq_cases d) (clock d).
Definition set_runs (rs : list run) (d : db) : db :=
  mkDb (projects d) (events d) rs (cases d) (seq_projects d) (seq_events d) (seq_runs d) (seq_cases d) (clock d).
Definition set_cases (cs : list tcase) (d : db) : db :=
  mkDb (projects d) (events d) (runs d) cs (seq_projects d) (seq_events d) (seq_runs d) (seq_cases d) (clock d).

(** A new statement or transaction: [NOW()] moves on. *)
Definition tick (d : db) : db :=
  mkDb (projects d) (events d) (runs d) (cases d) (seq_projects d) (seq_events d) (seq_runs d) (seq_cases d) (clock d + 1).

(** [ROLLBACK] to the state saved by [BEGIN]: the tables come back, the
    sequences and the clock do not. *)
Definition rollback_to (snap d : db) : db :=
  mkDb (projects snap) (events snap) (runs snap) (cases snap)
       (seq_projects d) (seq_events d) (seq_runs d) (seq_cases d) (clock d).

(** ** Parameters *)

(** The double quote and the backslash characters. *)
Definition dquote : ascii := ascii_of_nat 34.
Definition bslash : ascii := ascii_of_nat 92.

(** A lowercase hexadecimal digit. *)
Definition hex_digit (n : nat) : ascii :=
  if (n <? 10)%nat then ascii_of_nat (48 + n) else ascii_of_nat (87 + n).

(** [JSON.stringify]'s escape of a control character (below U+0020). *)
Definition ctrl_escape (c : ascii) (rest : string) : string :=
  match nat_of_ascii c with
  | 8%nat => String bslash (String "b" rest)
  | 9%nat => String bslash (String "t" rest)
  | 10%nat => String bslash (String "n" rest)
  | 12%nat => String bslash (String "f" rest)
  | 13%nat => String bslash (String "r" rest)
  | n => String bslash (String "u" (String "0" (String "0"
           (String (hex_digit (n / 16)%nat) (String (hex_digit (n mod 16)%nat) rest)))))
  end.

(** JSON text of a value, as [JSON.stringify] writes it for objects: members
    whose value is [undefined] are left out; the double quote, the
    backslash and the control characters are escaped (other characters are
    written as they are). *)
Definition escape_char (c : ascii) (rest : string) : string :=
  if Ascii.eqb c dquote then String bslash (String dquote rest)
  else if Ascii.eqb c bslash then String bslash (String bslash rest)
  else if (nat_of_ascii c <? 32)%nat then ctrl_escape c rest
  else String c rest.

Fixpoint escape (s : string) : string :=
  match s with EmptyString => EmptyString | String c s' => escape_char c (escape s') end.

Definition quote (s : string) : string :=
  String dquote (String.append (escape s) (String dquote EmptyString)).

Fixpoint join (sep : string) (xs : list string) : string :=
  match xs with
  | [] => EmptyString
  | [x] => x
  | x :: xs' => String.append x (String.append sep (join sep xs'))
  end.

Fixpoint json_text (v : jsval) : string :=
  match v with
  | JUndef | JNull | JNaN => "null"
  | JBool true => "true"
  | JBool false => "false"
  | JNum z => Z_to_dec z
  | JStr s => quote s
  | JArr xs => String "[" (String.append (join "," (map json_text xs)) "]")
  | JObj fs =>
      let fix members (fs : list (string * jsval)) : list string :=
        match fs with
        | [] => []
        | (k, JUndef) :: fs' => members fs'
        | (k, x) :: fs' => String.append (quote k) (String ":" (json_text x)) :: members fs'
        end in
      String "{" (String.append (join "," (members fs)) "}")
  end.

(** node-postgres' [prepareValue]: [null]/[undefined] are SQL NULL, arrays
    become array literals, objects JSON text, other values [String(v)]. *)
Fixpoint to_text (v : jsval) : option string :=
  match v with
  | JUndef | JNull => None
  | JArr xs =>
      Some (String "{" (String.append
        (join "," (map (fun x => match x with
                                 | JUndef | JNull => "NULL"
                                 | JArr _ => match to_text x with Some t => t | None => "NULL" end
                                 | JObj _ => quote (json_text x)
                                 | _ => quote (js_to_string x)
                                 end) xs)) "}"))
  | JObj _ => Some (json_text v)
  | _ => Some (js_to_string v)
  end.

Definition int32_min : Z := - 2 ^ 31.
Definition int32_max : Z := 2 ^ 31 - 1.

Definition in_int32 (z : Z) : bool := (int32_min <=? z) && (z <=? int32_max).

(** PostgreSQL's [int4in]: surrounding white space, an optional sign and
    decimal digits, within the 32-bit range. *)
Definition int4in (t : string) : result sqlerr Z :=
  match parse_signed (trim t) with
  | Some z => if in_int32 z then Ok z else Err OutOfRange
  | None => Err InvalidTextRep
  end.

(** The NUL character.  The server checks the encoding of every text it
    receives, and a NUL byte is never valid in it (SQLSTATE 22021). *)
Definition nul : ascii := ascii_of_nat 0.

Definition no_nul (t : string) : bool := str_forall (fun c => negb (Ascii.eqb c nul)) t.

(** A parameter bound to an [INTEGER] column: its text is checked, then
    read by [int4in]. *)
Definition to_int (v : jsval) : result sqlerr (option Z) :=
  match to_text v with
  | None => Ok None
  | Some t =>
      if no_nul t then match int4in t with Ok z => Ok (Some z) | Err e => Err e end
      else Err CharNotInRepertoire
  end.

(** Whether a parameter's text passes the server's encoding check. *)
Definition text_ok (v : jsval) : bool :=
  match to_text v with Some t => no_nul t | None => true end.

(** Binding a parameter of a [TEXT] column: only the encoding check can
    fail; the stored value is then [to_str]. *)
Definition bind_text (v : jsval) : result sqlerr unit :=
  if text_ok v then Ok tt else Err CharNotInRepertoire.

Definition to_str (v : jsval) : option string := to_text v.

Definition not_null {A} (o : option A) : result sqlerr A :=
  match o with Some a => Ok a | None => Err NotNullViolation end.

(** ** Statements *)

Definition lift {A} (r : result sqlerr A) : stM db sqlerr A := fun d => (r, d).

(** A statement either completes or leaves the tables as they were; the
    sequence values it drew stay drawn. *)
Definition atomic {A} (c : stM db sqlerr A) : stM db sqlerr A := fun d =>
  match c d with
  | (Ok a, d') => (Ok a, d')
  | (Err e, d') => (Err e, rollback_to d d')
  end.

(** [nextval] of each [SERIAL] sequence: an [integer] sequence, which fails
    once it has handed out [2^31 - 1]. *)
Definition nextval_projects : stM db sqlerr Z := fun d =>
  if seq_projects d <? int32_max then
    (Ok (seq_projects d + 1), mkDb (projects d) (events d) (runs d) (cases d)
       (seq_projects d + 1) (seq_events d) (seq_runs d) (seq_cases d) (clock d))
  else (Err SeqLimit, d).
Definition nextval_events : stM db sqlerr Z := fun d =>
  if seq_events d <? int32_max then
    (Ok (seq_events d + 1), mkDb (projects d) (events d) (runs d) (cases d)
       (seq_projects d) (seq_events d + 1) (seq_runs d) (seq_cases d) (clock d))
  else (Err SeqLimit, d).
Definition nextval_runs : stM db sqlerr Z := fun d =>
  if seq_runs d <? int32_max then
    (Ok (seq_runs d + 1), mkDb (projects d) (events d) (runs d) (cases d)
       (seq_projects d) (seq_events d) (seq_runs d + 1) (seq_cases d) (clock d))
  else (Err SeqLimit, d).
Definition nextval_cases : stM db sqlerr Z := fun d =>
  if seq_cases d <? int32_max then
    (Ok (seq_cases d + 1), mkDb (projects d) (events d) (runs d) (cases d)
       (seq_projects d) (seq_events d) (seq_runs d) (seq_cases d + 1) (clock d))
  else (Err SeqLimit, d).

Definition project_exists (pid : Z) (d : db) : bool :=
  existsb (fun p => p_id p =? pid) (projects d).
Definition event_exists (eid : Z) (d : db) : bool :=
  existsb (fun e => e_id e =? eid) (events d).
Definition run_exists (rid : Z) (d : db) : bool :=
  existsb (fun r => r_id r =? rid) (runs d).

Definition find_project_by_name (n : string) (d : db) : option project :=
  List.find (fun p => String.eqb (p_name p) n) (projects d).

(** A foreign key check: a NULL reference is always allowed. *)
Definition fk_check (exists_ : Z -> db -> bool) (o : option Z) : stM db sqlerr unit := fun d =>
  match o with
  | Some k => if exists_ k d then (Ok tt, d) else (Err FkViolation, d)
  | None => (Ok tt, d)
  end.

(** [INSERT INTO projects (name) VALUES ($1) ON CONFLICT (name) DO UPDATE
    SET name = EXCLUDED.name RETURNING id] (src/server.js lines 168-172):
    the id is drawn before the conflict is found, and on a conflict the
    existing row (whose name the update leaves unchanged) is returned. *)
Definition upsert_project (name : jsval) : stM db sqlerr Z := atomic (
  lift (bind_text name) ;;;
  id <- nextval_projects ;;
  n <- lift (not_null (to_str name)) ;;
  fun d => match find_project_by_name n d with
           | Some p => (Ok (p_id p), d)
           | None => (Ok id, set_projects (projects d ++ [mkProject id n None None (clock d)]) d)
           end).

(** [INSERT INTO projects (name, description, repo_url) VALUES ($1, $2, $3)
    RETURNING *] (src/server.js lines 98-101). *)
Definition insert_project (name desc repo : jsval) : stM db sqlerr project := atomic (
  lift (bind_text name) ;;; lift (bind_text desc) ;;; lift (bind_text repo) ;;;
  id <- nextval_projects ;;
  n <- lift (not_null (to_str name)) ;;
  fun d => match find_project_by_name n d with
           | Some _ => (Err UniqueViolation, d)
           | None => let p := mkProject id n (to_str desc) (to_str repo) (clock d) in
                     (Ok p, set_projects (projects d ++ [p]) d)
           end).

(** [INSERT INTO events (project_id, event_name, trigger, total, passed,
    failed, skipped) VALUES ($1, ..., $7) RETURNING id]
    (src/server.js lines 182-187). *)
Definition insert_event (pid name trig tot pas fai skp : jsval) : stM db sqlerr Z := atomic (
  p <- lift (to_int pid) ;;
  lift (bind_text name) ;;; lift (bind_text trig) ;;;
  t <- lift (to_int tot) ;; ps <- lift (to_int pas) ;;
  f <- lift (to_int fai) ;; sk <- lift (to_int skp) ;;
  id <- nextval_events ;;
  n <- lift (not_null (to_str name)) ;; tr <- lift (not_null (to_str trig)) ;;
  t <- lift (not_null t) ;; ps <- lift (not_null ps) ;;
  f <- lift (not_null f) ;; sk <- lift (not_null sk) ;;
  fk_check project_exists p ;;;
  fun d => (Ok id, set_events (events d ++ [mkEvent id p n tr t ps f sk (clock d)]) d)).

(** [INSERT INTO test_runs (suite_name, total, passed, failed, project_id,
    event_id) VALUES ($1, ..., $6) RETURNING id] (src/server.js lines 192-196). *)
Definition insert_run (name tot pas fai pid eid : jsval) : stM db sqlerr Z := atomic (
  lift (bind_text name) ;;;
  t <- lift (to_int tot) ;; ps <- lift (to_int pas) ;; f <- lift (to_int fai) ;;
  p <- lift (to_int pid) ;; e <- lift (to_int eid) ;;
  id <- nextval_runs ;;
  n <- lift (not_null (to_str name)) ;;
  t <- lift (not_null t) ;; ps <- lift (not_null ps) ;; f <- lift (not_null f) ;;
  fk_check project_exists p ;;; fk_check event_exists e ;;;
  fun d => (Ok id, set_runs (runs d ++ [mkRun id p e n t ps f (clock d)]) d)).

(** The nine parameters of one row of the batched case insert
    (src/server.js line 206), after the handler's [|| null] defaults. *)
Record case_params : Type := mkCaseParams {
  cp_run_id : jsval; cp_case_id : jsval; cp_case_name : jsval; cp_description : jsval;
  cp_module : jsval; cp_type : jsval; cp_status : jsval; cp_error_message : jsval;
  cp_duration_ms : jsval }.

(** The text parameters of a row, between [run_id] and [duration_ms]. *)
Definition case_texts (cp : case_params) : list jsval :=
  [cp_case_id cp; cp_case_name cp; cp_description cp; cp_module cp; cp_type cp;
   cp_status cp; cp_error_message cp].

(** The nine parameters of a row bound in order; the result is the row's
    integer values. *)
Definition bind_case (cp : case_params) : result sqlerr (option Z * option Z) :=
  match to_int (cp_run_id cp) with
  | Err e => Err e
  | Ok r =>
      if forallb text_ok (case_texts cp) then
        match to_int (cp_duration_ms cp) with Ok du => Ok (r, du) | Err e => Err e end
      else Err CharNotInRepertoire
  end.

Fixpoint bind_cases (cps : list case_params) : result sqlerr (list (option Z * option Z)) :=
  match cps with
  | [] => Ok []
  | cp :: cps' =>
      match bind_case cp, bind_cases cps' with
      | Ok b, Ok bs => Ok (b :: bs)
      | Err e, _ | _, Err e => Err e
      end
  end.

Definition type_ok (o : option string) : bool :=
  match o with
  | None => true
  | Some t => String.eqb t "positive" || String.eqb t "negative"
  end.

Definition status_ok (s : string) : bool :=
  String.eqb s "pass" || String.eqb s "fail" || String.eqb s "skip".

(** One row: draw the id, then NOT NULL, then the CHECK constraints. *)
Definition insert_case_row (cp : case_params) (b : option Z * option Z) : stM db sqlerr Z :=
  id <- nextval_cases ;;
  r <- lift (not_null b.1) ;;
  n <- lift (not_null (to_str (cp_case_name cp))) ;;
  st <- lift (not_null (to_str (cp_status cp))) ;;
  let ty := to_str (cp_type cp) in
  (if type_ok ty && status_ok st then sret tt else sthrow CheckViolation) ;;;
  fun d => (Ok id, set_cases (cases d ++ [mkCase id r (to_str (cp_case_id cp)) n
              (to_str (cp_description cp)) (to_str (cp_module cp)) ty st
              (to_str (cp_error_message cp)) b.2]) d).

Fixpoint insert_case_rows (rows : list (case_params * (option Z * option Z))) : stM db sqlerr (list Z) :=
  match rows with
  | [] => sret []
  | (cp, b) :: rows' =>
      id <- insert_case_row cp b ;; ids <- insert_case_rows rows' ;; sret (id :: ids)
  end.

(** The most parameters a statement can carry: the protocol counts them in
    16 bits. *)
Definition max_params : Z := 65535.

(** [INSERT INTO test_cases (...) VALUES (...), (...), ...]
    (src/server.js lines 209-212): bind every parameter, insert the rows in
    order, then check the foreign keys to [test_runs]. *)
Definition insert_cases (cps : list case_params) : stM db sqlerr unit := atomic (
  (if max_params <? 9 * Z.of_nat (List.length cps) then lift (Err ProtocolViolation) else sret tt) ;;;
  bs <- lift (bind_cases cps) ;;
  _ <- insert_case_rows (zip cps bs) ;;
  fun d => if forallb (fun b => match b.1 with Some r => run_exists r d | None => true end) bs
           then (Ok tt, d) else (Err FkViolation, d)).

(** [DELETE FROM events WHERE id = ANY($1)] with the cascades of
    [test_runs.event_id] and [test_cases.run_id] (src/server.js lines 43,
    55 and 80). *)
Definition delete_events (ids : list Z) (d : db) : db :=
  let dead (r : run) := match r_event_id r with Some e => bool_decide (e ∈ ids) | None => false end in
  let dead_runs := map r_id (List.filter dead (runs d)) in
  mkDb (projects d)
       (List.filter (fun e => negb (bool_decide (e_id e ∈ ids))) (events d))
       (List.filter (fun r => negb (dead r)) (runs d))
       (List.filter (fun c => negb (bool_decide (c_run_id c ∈ dead_runs))) (cases d))
       (seq_projects d) (seq_events d) (seq_runs d) (seq_cases d) (clock d).

(** [SELECT id FROM events WHERE project_id = $1 ORDER BY created_at ASC]
    (src/server.js lines 74-77), with a stable sort on the creation time. *)
Definition created_le (e1 e2 : event) : Prop := e_created_at e1 <= e_created_at e2.

#[export] Instance created_le_dec : RelDecision created_le.
Proof. intros e1 e2. unfold created_le. apply _. Defined.

Definition project_events (pid : Z) (d : db) : list event :=
  List.filter (fun e => bool_decide (e_project_id e = Some pid)) (events d).

Definition select_event_ids (pid : Z) (d : db) : list Z :=
  map e_id (merge_sort created_le (project_events pid d)).

(** ** Lemmas: parameters *)

Lemma int4in_Z_to_dec z : int4in (Z_to_dec z) = if in_int32 z then Ok z else Err OutOfRange.
Proof.
  unfold int4in. rewrite trim_id by apply Z_to_dec_non_space.
  by rewrite parse_Z_to_dec.
Qed.

Lemma digit_not_nul c : is_digit c = true -> negb (Ascii.eqb c nul) = true.
Proof. intros H. destruct (Ascii.eqb_spec c nul) as [->|]; [vm_compute in H; discriminate | done]. Qed.

(** The decimal text of a number has no NUL byte. *)
Lemma Z_to_dec_no_nul z : no_nul (Z_to_dec z) = true.
Proof.
  unfold no_nul, Z_to_dec, digits_fuel. destruct (Z.ltb_spec z 0).
  - destruct (digits_of_spec (Z.to_nat (Z.log2 (- z))) (- z)) as (_ & Hf & _);
      [apply digits_fuel_enough; lia|].
    cbn [str_forall]. apply andb_true_intro. split; [reflexivity|].
    eapply str_forall_impl; [apply digit_not_nul | exact Hf].
  - destruct (digits_of_spec (Z.to_nat (Z.log2 z)) z) as (_ & Hf & _); [by apply digits_fuel_enough|].
    eapply str_forall_impl; [apply digit_not_nul | exact Hf].
Qed.

(** A JS number bound to an [INTEGER] parameter is stored as itself when it
    lies in the 32-bit range and is refused with [OutOfRange] otherwise. *)
Lemma to_int_JNum z : to_int (JNum z) = if in_int32 z then Ok (Some z) else Err OutOfRange.
Proof.
  unfold to_int. cbn [to_text js_to_string]. rewrite Z_to_dec_no_nul, int4in_Z_to_dec.
  by destruct (in_int32 z).
Qed.

Lemma text_ok_JNum z : text_ok (JNum z) = true.
Proof. apply Z_to_dec_no_nul. Qed.

(** Text that starts with a brace is not an integer. *)
Lemma int4in_brace t : int4in (String "{" (String.append t "}")) = Err InvalidTextRep.
Proof.
  unfold int4in. rewrite trim_ends by reflexivity.
  change (parse_signed (String "{" (String.append t "}"))) with (@None Z). reflexivity.
Qed.

(** Whatever PostgreSQL accepts as an integer parameter, [Number()] reads as
    the same integer: the stored run counts and the aggregated event counts
    agree. *)
Lemma to_int_number v z : to_int v = Ok (Some z) -> to_number v = NFin z.
Proof.
  unfold to_int. destruct v as [| |[]|z'| |s|xs|fs].
  1,2: discriminate.
  1,2,4: vm_compute; discriminate.
  - cbn [to_text js_to_string]. rewrite Z_to_dec_no_nul, int4in_Z_to_dec.
    destruct (in_int32 z'); cbn; [by intros [= ->] | discriminate].
  - cbn [to_text js_to_string]. destruct (no_nul s); [|discriminate]. unfold int4in, to_number, str_to_number.
    destruct (parse_signed (trim s)) as [z'|] eqn:Hp; [|discriminate].
    destruct (in_int32 z'); [|discriminate]. intros [= <-].
    by destruct (trim s).
  - cbn [to_text]. destruct (no_nul _); [by rewrite int4in_brace | discriminate].
  - cbn [to_text]. unfold json_text. fold json_text. destruct (no_nul _); [by rewrite int4in_brace | discriminate].
Qed.

Lemma to_int_in_range v z : to_int v = Ok (Some z) -> in_int32 z = true.
Proof.
  unfold to_int. destruct (to_text v) as [t|]; [|discriminate]. destruct (no_nul t); [|discriminate].
  unfold int4in.
  destruct (parse_signed (trim t)) as [z'|]; [|discriminate].
  destruct (in_int32 z') eqn:E; [|discriminate]. by intros [= <-].
Qed.

(** A count outside the 32-bit range makes the event insert fail with
    [OutOfRange] (SQLSTATE 22003) and leaves the database exactly as it was:
    no row, and no sequence value drawn, since the parameters are bound
    before the row is built. *)
Lemma insert_event_out_of_range pid p name trig z pas fai skp d :
  to_int pid = Ok p -> text_ok name = true -> text_ok trig = true -> in_int32 z = false ->
  insert_event pid name trig (JNum z) pas fai skp d = (Err OutOfRange, d).
Proof.
  intros Hp Hn Ht Hz. unfold insert_event, atomic, sbind, lift, bind_text.
  rewrite Hp, Hn, Ht, to_int_JNum, Hz. by destruct d.
Qed.

End Pg.
