(* ===== verification/StoreInv.v ===== *)
(** * The invariant of the store

    [wf d] collects what the schema of [initDb] guarantees of every state the
    handlers leave behind: serial ids increase along each table and never
    exceed their sequence (so an id is never drawn twice, even across
    rollbacks), project names are unique, no event is stamped after the
    current [NOW()], and every foreign key points to an existing row.  Each
    statement of [Store.v] keeps it, whether it succeeds or fails. *)

From S2P Require Import Prelude JsValue Store.
Import Js Pg.

Module PgInv.

Local Open Scope Z_scope.

Definition ids_ok {A} (id : A -> Z) (seq : Z) (xs : list A) : Prop :=
  StronglySorted (fun a b => id a < id b) xs /\ Forall (fun a => id a <= seq) xs.

Definition fk_ok (ex : Z -> db -> bool) (o : option Z) (d : db) : Prop :=
  match o with Some k => ex k d = true | None => True end.

Record wf (d : db) : Prop := {
  wf_projects : ids_ok p_id (seq_projects d) (projects d);
  wf_events : ids_ok e_id (seq_events d) (events d);
  wf_runs : ids_ok r_id (seq_runs d) (runs d);
  wf_cases : ids_ok c_id (seq_cases d) (cases d);
  wf_names : NoDup (map p_name (projects d));
  wf_clock : Forall (fun e => e_created_at e <= clock d) (events d);
  wf_event_project : Forall (fun e => fk_ok project_exists (e_project_id e) d) (events d);
  wf_run_project : Forall (fun r => fk_ok project_exists (r_project_id r) d) (runs d);
  wf_run_event : Forall (fun r => fk_ok event_exists (r_event_id r) d) (runs d);
  wf_case_run : Forall (fun c => run_exists (c_run_id c) d = true) (cases d) }.

(** No two events share a creation time: each ingestion inserts its one
    event in a transaction of its own, and transactions start at distinct
    times. *)
Definition events_strict (d : db) : Prop :=
  StronglySorted (fun a b => e_created_at a < e_created_at b) (events d).

(** Sequences and the clock only move forward. *)
Definition mono (d d' : db) : Prop :=
  seq_projects d <= seq_projects d' /\ seq_events d <= seq_events d' /\
  seq_runs d <= seq_runs d' /\ seq_cases d <= seq_cases d' /\ clock d <= clock d'.

Definition same_tables_but_cases (d d' : db) : Prop :=
  projects d = projects d' /\ events d = events d' /\ runs d = runs d' /\
  seq_projects d = seq_projects d' /\ seq_events d = seq_events d' /\
  seq_runs d = seq_runs d' /\ clock d = clock d'.

Definition same_tables (d d' : db) : Prop :=
  projects d = projects d' /\ events d = events d' /\ runs d = runs d' /\ cases d = cases d'.

(** ** Generic lemmas *)

#[export] Instance mono_preorder : PreOrder mono.
Proof. split; [intros d; unfold mono; lia | intros d1 d2 d3; unfold mono; lia]. Qed.

Lemma ids_ok_mono {A} (id : A -> Z) s s' xs : s <= s' -> ids_ok id s xs -> ids_ok id s' xs.
Proof.
  intros Hs [Hsort Hle]. split; [done|].
  eapply Forall_impl; [exact Hle|]. simpl. lia.
Qed.

Lemma ids_ok_snoc {A} (id : A -> Z) s xs x :
  ids_ok id s xs -> id x = s + 1 -> ids_ok id (s + 1) (xs ++ [x]).
Proof.
  intros [Hsort Hle] Hx. split.
  - apply StronglySorted_snoc; [done|]. eapply Forall_impl; [exact Hle|]. simpl. lia.
  - apply Forall_snoc. split; [|lia]. eapply Forall_impl; [exact Hle|]. simpl. lia.
Qed.

Lemma ids_ok_filter {A} (id : A -> Z) s xs (f : A -> bool) :
  ids_ok id s xs -> ids_ok id s (List.filter f xs).
Proof. intros [Hsort Hle]. split; eauto with e2e. Qed.

(** A fresh id is not the id of any row. *)
Lemma ids_ok_fresh {A} (id : A -> Z) s xs x : ids_ok id s xs -> In x xs -> id x < s + 1.
Proof. intros [_ Hle] Hin. rewrite List.Forall_forall in Hle. specialize (Hle x Hin). lia. Qed.

Lemma existsb_snoc {A} (f : A -> bool) xs x : existsb f (xs ++ [x]) = existsb f xs || f x.
Proof. rewrite existsb_app. simpl. by rewrite orb_false_r. Qed.

#[export] Hint Resolve ids_ok_mono ids_ok_snoc ids_ok_filter : e2e.

(** The foreign key predicates read only the tables. *)
Lemma fk_ok_tables ex o d d' :
  (forall k, ex k d = ex k d') -> fk_ok ex o d -> fk_ok ex o d'.
Proof. destruct o; simpl; [|done]. intros ->. done. Qed.

Lemma fk_ok_grow ex o d d' :
  (forall k, ex k d = true -> ex k d' = true) -> fk_ok ex o d -> fk_ok ex o d'.
Proof. destruct o; simpl; auto. Qed.

Lemma Forall_fk_grow {A} (f : A -> option Z) ex xs d d' :
  (forall k, ex k d = true -> ex k d' = true) ->
  Forall (fun x => fk_ok ex (f x) d) xs -> Forall (fun x => fk_ok ex (f x) d') xs.
Proof. intros Hg H. eapply Forall_impl; [exact H|]. intros x. by apply fk_ok_grow. Qed.

(** ** Transactions *)

Lemma wf_tick d : wf d -> wf (tick d).
Proof.
  intros []. constructor; simpl; try done.
  eapply Forall_impl; [exact wf_clock0|]. simpl. lia.
Qed.

Lemma mono_tick d : mono d (tick d).
Proof. unfold mono; simpl; lia. Qed.

Lemma tick_tables d : same_tables d (tick d).
Proof. done. Qed.

Lemma rollback_tables snap d : same_tables snap (rollback_to snap d).
Proof. done. Qed.

(** Undoing a transaction or a statement keeps the invariant: the old
    tables were well formed, and the sequences only grew since. *)
Lemma wf_rollback snap d : wf snap -> mono snap d -> wf (rollback_to snap d).
Proof.
  intros [] (?&?&?&?&?). constructor; simpl; eauto with e2e.
  eapply Forall_impl; [exact wf_clock0|]. simpl. lia.
Qed.

Lemma mono_rollback snap d : mono snap d -> mono snap (rollback_to snap d).
Proof. unfold mono. simpl. lia. Qed.

Lemma events_strict_rollback snap d : events_strict snap -> events_strict (rollback_to snap d).
Proof. done. Qed.

(** ** Statements *)

(** A statement keeps the invariant when its body only moves the
    sequences forward and, on success, leaves a well-formed state: on
    failure [atomic] puts the old tables back. *)
Lemma atomic_wf {A} (c : stM db sqlerr A) d :
  wf d -> mono d (snd (c d)) -> (forall a d', c d = (Ok a, d') -> wf d') ->
  wf (snd (atomic c d)) /\ mono d (snd (atomic c d)).
Proof.
  intros Hwf Hm Hok. unfold atomic.
  destruct (c d) as [[a|e] d'] eqn:Hc; simpl in *.
  - eauto.
  - split; [by apply wf_rollback | by apply mono_rollback].
Qed.

Lemma atomic_err {A} (c : stM db sqlerr A) d e d' :
  atomic c d = (Err e, d') -> same_tables d d'.
Proof. unfold atomic. destruct (c d) as [[a|e'] d'']; intros [=]; subst. done. Qed.

Lemma atomic_ok {A} (c : stM db sqlerr A) d a d' :
  atomic c d = (Ok a, d') -> c d = (Ok a, d').
Proof. unfold atomic. destruct (c d) as [[a'|e'] d'']; intros [=]; by subst. Qed.

(** Run a statement of the store symbolically. *)
Ltac run_db :=
  repeat (unfold sbind, sret, sthrow, lift, nextval_projects, nextval_events, nextval_runs,
            nextval_cases, set_projects, set_events, set_runs, set_cases, fk_check, not_null in *;
          simpl in *; try case_match; simplify_eq/=).

Ltac stm_mono := unfold mono; run_db; lia.


(** Drawing sequence values keeps the invariant. *)
Lemma wf_seqs d d' : wf d -> same_tables d d' -> mono d d' -> clock d' = clock d -> wf d'.
Proof.
  intros Hwf (Hp & He & Hr & Hc) Hm Hcl.
  replace d' with (rollback_to d d') by (destruct d'; simpl in *; by subst).
  by apply wf_rollback.
Qed.

Ltac wf_seqs_tac :=
  eapply wf_seqs; [eassumption | repeat split | unfold mono; simpl; lia | reflexivity].


Lemma find_project_by_name_None n d :
  find_project_by_name n d = None -> n ∉ map p_name (projects d).
Proof.
  unfold find_project_by_name. intros Hf Hin.
  apply list_elem_of_In, in_map_iff in Hin as (p & <- & Hp).
  eapply find_none in Hf; [|exact Hp]. simpl in Hf. by rewrite String.eqb_refl in Hf.
Qed.

Lemma wf_add_project d n desc repo :
  wf d -> find_project_by_name n d = None ->
  wf (mkDb (projects d ++ [mkProject (seq_projects d + 1) n desc repo (clock d)])
           (events d) (runs d) (cases d) (seq_projects d + 1) (seq_events d)
           (seq_runs d) (seq_cases d) (clock d)).
Proof.
  intros [] Hn. apply find_project_by_name_None in Hn.
  assert (Hg : forall k, project_exists k d = true ->
    existsb (fun p => p_id p =? k) (projects d ++ [mkProject (seq_projects d + 1) n desc repo (clock d)]) = true).
  { intros k Hk. rewrite existsb_snoc. unfold project_exists in Hk. by rewrite Hk. }
  constructor; simpl; eauto with e2e.
  - rewrite map_app. simpl. apply NoDup_app. split; [done|]. split; [|apply NoDup_singleton].
    intros x Hx ->%list_elem_of_singleton. done.
  - by eapply Forall_fk_grow.
  - by eapply Forall_fk_grow.
Qed.

Lemma upsert_project_wf name d :
  wf d -> wf (snd (upsert_project name d)) /\ mono d (snd (upsert_project name d)).
Proof.
  intros Hwf. apply atomic_wf; [done| |].
  - stm_mono.
  - intros a d' Hc. run_db; [wf_seqs_tac | by apply wf_add_project].
Qed.

Lemma insert_project_wf name desc repo d :
  wf d -> wf (snd (insert_project name desc repo d)) /\ mono d (snd (insert_project name desc repo d)).
Proof.
  intros Hwf. apply atomic_wf; [done| |].
  - stm_mono.
  - intros a d' Hc. run_db. by apply wf_add_project.
Qed.

Lemma wf_add_event d p n tr t ps f sk :
  wf d -> fk_ok project_exists p d ->
  wf (mkDb (projects d) (events d ++ [mkEvent (seq_events d + 1) p n tr t ps f sk (clock d)])
           (runs d) (cases d) (seq_projects d) (seq_events d + 1)
           (seq_runs d) (seq_cases d) (clock d)).
Proof.
  intros [] Hp. constructor; simpl; eauto with e2e.
  - apply Forall_snoc. split; [|simpl; lia]. done.
  - apply Forall_snoc. split; [done|]. exact Hp.
  - eapply Forall_fk_grow; [|exact wf_run_event0].
    intros k Hk. unfold event_exists in *. simpl. by rewrite existsb_snoc, Hk.
Qed.

Lemma insert_event_wf pid name trig tot pas fai skp d :
  wf d ->
  wf (snd (insert_event pid name trig tot pas fai skp d)) /\
  mono d (snd (insert_event pid name trig tot pas fai skp d)).
Proof.
  intros Hwf. apply atomic_wf; [done| |].
  - stm_mono.
  - intros a d' Hc. run_db; by apply wf_add_event.
Qed.

Lemma wf_add_run d p e n t ps f :
  wf d -> fk_ok project_exists p d -> fk_ok event_exists e d ->
  wf (mkDb (projects d) (events d) (runs d ++ [mkRun (seq_runs d + 1) p e n t ps f (clock d)])
           (cases d) (seq_projects d) (seq_events d) (seq_runs d + 1)
           (seq_cases d) (clock d)).
Proof.
  intros [] Hp He. constructor; simpl; eauto with e2e.
  - apply Forall_snoc. split; [done|]. exact Hp.
  - apply Forall_snoc. split; [done|]. exact He.
  - eapply Forall_impl; [exact wf_case_run0|]. intros c Hc.
    unfold run_exists in *. simpl. by rewrite existsb_snoc, Hc.
Qed.

Lemma insert_run_wf name tot pas fai pid eid d :
  wf d ->
  wf (snd (insert_run name tot pas fai pid eid d)) /\
  mono d (snd (insert_run name tot pas fai pid eid d)).
Proof.
  intros Hwf. apply atomic_wf; [done| |].
  - stm_mono.
  - intros a d' Hc. run_db; by apply wf_add_run.
Qed.

Lemma In_zip_snd {A B} (xs : list A) (ys : list B) a b : In (a, b) (zip xs ys) -> In b ys.
Proof.
  revert ys. induction xs as [|x xs IH]; intros [|y ys]; simpl; try done.
  intros [[= -> ->]|H]; [by left | right; eauto].
Qed.

Lemma insert_case_row_mono cp b d : mono d (snd (insert_case_row cp b d)).
Proof. unfold insert_case_row. stm_mono. Qed.

(** The rows of the batched insert: each draws its id and is appended; the
    other tables do not change. *)
Lemma insert_case_rows_mono rows d : mono d (snd (insert_case_rows rows d)).
Proof.
  revert d. induction rows as [|[cp b] rows IH]; intros d; [reflexivity|].
  simpl. unfold sbind at 1. pose proof (insert_case_row_mono cp b d) as Hm.
  destruct (insert_case_row cp b d) as [[id|e] d1]; simpl in *; [|done].
  unfold sbind. specialize (IH d1).
  destruct (insert_case_rows rows d1) as [[ids|e] d2]; simpl in *; by etransitivity.
Qed.

Lemma insert_case_row_ok cp b d id d' :
  insert_case_row cp b d = (Ok id, d') ->
  exists c, b.1 = Some (c_run_id c) /\ c_id c = seq_cases d + 1 /\ id = c_id c /\
    d' = mkDb (projects d) (events d) (runs d) (cases d ++ [c]) (seq_projects d)
              (seq_events d) (seq_runs d) (seq_cases d + 1) (clock d).
Proof.
  destruct b as [[r|] du]; unfold insert_case_row; intros H; run_db.
  eexists; split_and!; [| | |reflexivity]; reflexivity.
Qed.

Lemma insert_case_rows_ok rows d ids d' :
  insert_case_rows rows d = (Ok ids, d') ->
  same_tables_but_cases d d' /\ seq_cases d <= seq_cases d' /\
  (ids_ok c_id (seq_cases d) (cases d) -> ids_ok c_id (seq_cases d') (cases d')) /\
  exists new, cases d' = cases d ++ new /\
    Forall (fun c => exists b, In b (map snd rows) /\ b.1 = Some (c_run_id c)) new.
Proof.
  revert d ids d'. induction rows as [|[cp b] rows IH]; intros d ids d' H.
  - unfold insert_case_rows, sret in H. simplify_eq.
    split_and!; try done. exists []. by rewrite app_nil_r.
  - simpl in H. unfold sbind at 1 in H.
    destruct (insert_case_row cp b d) as [[id|e] d1] eqn:Hrow; [|done].
    unfold sbind in H. destruct (insert_case_rows rows d1) as [[ids'|e] d2] eqn:Hrest; [|done].
    unfold sret in H. simplify_eq. apply insert_case_row_ok in Hrow as (c & Hb & Hid & -> & ->).
    destruct (IH _ _ _ Hrest) as ((?&?&?&?&?&?&?) & Hseq & Hids & new & Hnew & Hall); simpl in *.
    unfold same_tables_but_cases. split_and!; try congruence; try lia.
    { intros Hok. apply Hids. by apply ids_ok_snoc. }
    exists (c :: new). rewrite Hnew, <- app_assoc. split; [done|].
    constructor; [exists b; simpl; by auto|].
    eapply Forall_impl; [exact Hall|]. simpl. intros c' (b' & ? & ?). eauto.
Qed.

Lemma In_map_snd_zip {A B} (xs : list A) (ys : list B) b : In b (map snd (zip xs ys)) -> In b ys.
Proof. intros ([a b'] & <- & Hin)%in_map_iff. by eapply In_zip_snd. Qed.

(** Appending cases whose runs exist keeps the invariant. *)
Lemma wf_cases_extend d d1 new :
  wf d -> same_tables_but_cases d d1 -> seq_cases d <= seq_cases d1 ->
  ids_ok c_id (seq_cases d1) (cases d1) -> cases d1 = cases d ++ new ->
  Forall (fun c => run_exists (c_run_id c) d1 = true) new -> wf d1.
Proof.
  intros [] (Hp & He & Hr & Hsp & Hse & Hsr & Hcl) Hs Hids Hc Hnew.
  assert (Hpe : forall k, project_exists k d = project_exists k d1)
    by (intros; unfold project_exists; by rewrite Hp).
  assert (Hee : forall k, event_exists k d = event_exists k d1)
    by (intros; unfold event_exists; by rewrite He).
  assert (Hre : forall k, run_exists k d = run_exists k d1)
    by (intros; unfold run_exists; by rewrite Hr).
  constructor; rewrite <- ?Hp, <- ?He, <- ?Hr, <- ?Hsp, <- ?Hse, <- ?Hsr, <- ?Hcl; try done.
  - eapply Forall_impl; [exact wf_event_project0|]. intros e. by apply fk_ok_tables.
  - eapply Forall_impl; [exact wf_run_project0|]. intros r. by apply fk_ok_tables.
  - eapply Forall_impl; [exact wf_run_event0|]. intros r. by apply fk_ok_tables.
  - rewrite Hc. apply Forall_app. split; [|done].
    eapply Forall_impl; [exact wf_case_run0|]. intros c Hc1. by rewrite <- Hre.
Qed.

Lemma insert_cases_wf cps d :
  wf d -> wf (snd (insert_cases cps d)) /\ mono d (snd (insert_cases cps d)).
Proof.
  intros Hwf. apply atomic_wf; [done| |].
  - unfold sbind, lift, sret. destruct (max_params <? _); simpl; [reflexivity|].
    destruct (bind_cases cps) as [bs|e]; simpl; [|reflexivity].
    pose proof (insert_case_rows_mono (zip cps bs) d) as Hm.
    destruct (insert_case_rows (zip cps bs) d) as [[ids|e] d1]; simpl in *; [|done].
    by case_match.
  - intros a d' Hc. unfold sbind, lift, sret in Hc. destruct (max_params <? _); simpl in Hc; [done|].
    destruct (bind_cases cps) as [bs|e]; simpl in Hc; [|done].
    destruct (insert_case_rows (zip cps bs) d) as [[ids|e] d1] eqn:Hrows; [|done].
    destruct (forallb _ bs) eqn:Hfk; simplify_eq.
    apply insert_case_rows_ok in Hrows as (Hsame & Hseq & Hids & new & Hnew & Hall).
    eapply wf_cases_extend; eauto using wf_cases.
    eapply Forall_impl; [exact Hall|]. intros c (b & Hb & Hrun).
    apply In_map_snd_zip in Hb. rewrite forallb_forall in Hfk.
    specialize (Hfk b Hb). by rewrite Hrun in Hfk.
Qed.

(** A row that the filter keeps can still be found by its id. *)
Lemma existsb_filter_keep {A} (id : A -> Z) (keep : A -> bool) xs k :
  existsb (fun x => id x =? k) xs = true ->
  (forall x, In x xs -> id x = k -> keep x = true) ->
  existsb (fun x => id x =? k) (List.filter keep xs) = true.
Proof.
  intros (x & Hin & Hk)%existsb_exists Hkeep. apply Z.eqb_eq in Hk.
  apply existsb_exists. exists x. split; [|by apply Z.eqb_eq].
  apply filter_In. split; [done|]. by apply Hkeep.
Qed.

(** Deleting events, with the cascades, keeps the invariant: no run is left
    pointing to a deleted event, no case to a deleted run. *)
Lemma wf_delete_events ids d : wf d -> wf (delete_events ids d).
Proof.
  intros []. constructor; simpl; eauto with e2e.
  - apply List.Forall_forall. intros r [Hin Hnd]%filter_In.
    rewrite List.Forall_forall in wf_run_event0. specialize (wf_run_event0 r Hin).
    unfold fk_ok, event_exists in *. destruct (r_event_id r) as [e|]; [|done].
    simpl. apply existsb_filter_keep; [done|]. intros x _ <-. exact Hnd.
  - apply List.Forall_forall. intros c [Hin Hnd]%filter_In.
    rewrite List.Forall_forall in wf_case_run0. specialize (wf_case_run0 c Hin).
    unfold run_exists in *. simpl. apply existsb_filter_keep; [done|]. intros r Hr Hid.
    destruct (match r_event_id r with Some e => _ | None => false end) eqn:Hdead; [|done].
    exfalso. apply negb_true_iff, bool_decide_eq_false in Hnd. apply Hnd.
    apply list_elem_of_In, in_map_iff. exists r. split; [done|]. by apply filter_In.
Qed.

Lemma delete_events_mono ids d : mono d (delete_events ids d) /\ clock (delete_events ids d) = clock d.
Proof. unfold mono. simpl. lia. Qed.

(** Strictly increasing keys are pairwise distinct. *)
Lemma StronglySorted_lt_NoDup {A} (key : A -> Z) xs :
  StronglySorted (fun a b => key a < key b) xs -> NoDup (map key xs).
Proof.
  induction 1 as [|x xs Hs IH Hx]; simpl; constructor; [|done].
  intros (y & Hy & Hin)%list_elem_of_In%in_map_iff. rewrite List.Forall_forall in Hx.
  specialize (Hx y Hin). lia.
Qed.

Lemma StronglySorted_lt_inj {A} (key : A -> Z) xs x y :
  StronglySorted (fun a b => key a < key b) xs -> In x xs -> In y xs -> key x = key y -> x = y.
Proof.
  induction 1 as [|a xs Hs IH Ha]; [done|]. rewrite List.Forall_forall in Ha.
  intros [<-|Hx] [<-|Hy] Hk; auto.
  - specialize (Ha y Hy). lia.
  - specialize (Ha x Hx). lia.
Qed.

Lemma ids_ok_NoDup {A} (id : A -> Z) s xs : ids_ok id s xs -> NoDup (map id xs).
Proof. intros [Hs _]. by apply StronglySorted_lt_NoDup. Qed.

(** ** What a successful insert adds *)

Lemma insert_event_ok pid name trig tot pas fai skp d id d' :
  insert_event pid name trig tot pas fai skp d = (Ok id, d') ->
  exists ev,
    to_int pid = Ok (e_project_id ev) /\ to_str name = Some (e_event_name ev) /\
    to_str trig = Some (e_trigger ev) /\ to_int tot = Ok (Some (e_total ev)) /\
    to_int pas = Ok (Some (e_passed ev)) /\ to_int fai = Ok (Some (e_failed ev)) /\
    to_int skp = Ok (Some (e_skipped ev)) /\ fk_ok project_exists (e_project_id ev) d /\
    e_id ev = id /\ id = seq_events d + 1 /\ e_created_at ev = clock d /\
    d' = mkDb (projects d) (events d ++ [ev]) (runs d) (cases d) (seq_projects d) id
              (seq_runs d) (seq_cases d) (clock d).
Proof.
  intros H. apply atomic_ok in H. run_db; (eexists; split_and!; [.. | reflexivity]); done.
Qed.

Lemma insert_run_ok name tot pas fai pid eid d id d' :
  insert_run name tot pas fai pid eid d = (Ok id, d') ->
  exists r,
    to_str name = Some (r_suite_name r) /\ to_int tot = Ok (Some (r_total r)) /\
    to_int pas = Ok (Some (r_passed r)) /\ to_int fai = Ok (Some (r_failed r)) /\
    to_int pid = Ok (r_project_id r) /\ to_int eid = Ok (r_event_id r) /\
    r_id r = id /\ id = seq_runs d + 1 /\
    d' = mkDb (projects d) (events d) (runs d ++ [r]) (cases d) (seq_projects d)
              (seq_events d) id (seq_cases d) (clock d).
Proof.
  intros H. apply atomic_ok in H. run_db; (eexists; split_and!; [.. | reflexivity]); done.
Qed.

(** ** Composing statements

    [stmt_ok c]: from any well-formed state, [c] leaves a well-formed state
    and only moves the sequences and the clock forward, whatever its
    outcome.  The combinators of the monad keep it, so a handler built from
    the statements above keeps it too. *)

Definition stmt_ok {E A} (c : stM db E A) : Prop :=
  forall d, wf d -> wf (snd (c d)) /\ mono d (snd (c d)).

Lemma stmt_ok_ret {E A} (a : A) : @stmt_ok E A (sret a).
Proof. intros d Hd. split; [done | reflexivity]. Qed.

Lemma stmt_ok_throw {E A} (e : E) : @stmt_ok E A (sthrow e).
Proof. intros d Hd. split; [done | reflexivity]. Qed.

Lemma stmt_ok_bind {E A B} (c : stM db E A) (k : A -> stM db E B) :
  stmt_ok c -> (forall a, stmt_ok (k a)) -> stmt_ok (sbind c k).
Proof.
  intros Hc Hk d Hd. unfold sbind. destruct (Hc d Hd) as [Hd1 Hm1].
  destruct (c d) as [[a|e] d1]; simpl in *; [|done].
  destruct (Hk a d1 Hd1) as [Hd2 Hm2]. split; [done | by etransitivity].
Qed.

Lemma stmt_ok_smapM {E A B} (f : A -> stM db E B) xs :
  (forall x, stmt_ok (f x)) -> stmt_ok (smapM f xs).
Proof.
  intros Hf. induction xs as [|x xs IH]; simpl.
  - apply stmt_ok_ret.
  - apply stmt_ok_bind; [done|]. intros b. apply stmt_ok_bind; [done|]. intros. apply stmt_ok_ret.
Qed.

Lemma stmt_ok_upsert_project name : stmt_ok (upsert_project name).
Proof. intros d. apply upsert_project_wf. Qed.
Lemma stmt_ok_insert_project name desc repo : stmt_ok (insert_project name desc repo).
Proof. intros d. apply insert_project_wf. Qed.
Lemma stmt_ok_insert_event pid name trig tot pas fai skp :
  stmt_ok (insert_event pid name trig tot pas fai skp).
Proof. intros d. apply insert_event_wf. Qed.
Lemma stmt_ok_insert_run name tot pas fai pid eid : stmt_ok (insert_run name tot pas fai pid eid).
Proof. intros d. apply insert_run_wf. Qed.
Lemma stmt_ok_insert_cases cps : stmt_ok (insert_cases cps).
Proof. intros d. apply insert_cases_wf. Qed.

#[export] Hint Resolve stmt_ok_ret stmt_ok_throw stmt_ok_bind stmt_ok_smapM
  stmt_ok_upsert_project stmt_ok_insert_project stmt_ok_insert_event stmt_ok_insert_run
  stmt_ok_insert_cases : e2e.

(** ** The invariant, decided *)

Fixpoint sorted_ltb {A} (key : A -> Z) (xs : list A) : bool :=
  match xs with
  | [] => true
  | x :: xs' => forallb (fun y => key x <? key y) xs' && sorted_ltb key xs'
  end.

Lemma sorted_ltb_sound {A} (key : A -> Z) xs :
  sorted_ltb key xs = true -> StronglySorted (fun a b => key a < key b) xs.
Proof.
  induction xs as [|x xs IH]; simpl; [constructor|].
  intros [Hx Hs]%andb_prop. constructor; [by apply IH|].
  apply List.Forall_forall. intros y Hy. rewrite forallb_forall in Hx.
  specialize (Hx y Hy). lia.
Qed.

Definition ids_okb {A} (id : A -> Z) (seq : Z) (xs : list A) : bool :=
  sorted_ltb id xs && forallb (fun a => id a <=? seq) xs.

Lemma ids_okb_sound {A} (id : A -> Z) seq xs : ids_okb id seq xs = true -> ids_ok id seq xs.
Proof.
  intros [Hs Hle]%andb_prop. split; [by apply sorted_ltb_sound|].
  apply List.Forall_forall. intros x Hx. rewrite forallb_forall in Hle.
  specialize (Hle x Hx). lia.
Qed.

Definition fk_okb (ex : Z -> db -> bool) (o : option Z) (d : db) : bool :=
  match o with Some k => ex k d | None => true end.

Definition wfb (d : db) : bool :=
  ids_okb p_id (seq_projects d) (projects d) && ids_okb e_id (seq_events d) (events d) &&
  ids_okb r_id (seq_runs d) (runs d) && ids_okb c_id (seq_cases d) (cases d) &&
  bool_decide (NoDup (map p_name (projects d))) &&
  forallb (fun e => e_created_at e <=? clock d) (events d) &&
  forallb (fun e => fk_okb project_exists (e_project_id e) d) (events d) &&
  forallb (fun r => fk_okb project_exists (r_project_id r) d) (runs d) &&
  forallb (fun r => fk_okb event_exists (r_event_id r) d) (runs d) &&
  forallb (fun c => run_exists (c_run_id c) d) (cases d).

Lemma forallb_Forall {A} (f : A -> bool) (P : A -> Prop) xs :
  (forall x, f x = true -> P x) -> forallb f xs = true -> Forall P xs.
Proof.
  intros Hf Hall. apply List.Forall_forall. intros x Hx.
  rewrite forallb_forall in Hall. auto.
Qed.

Lemma fk_okb_sound ex o d : fk_okb ex o d = true -> fk_ok ex o d.
Proof. by destruct o. Qed.

(** The checker is sound: a database it accepts is well formed. *)
Lemma wfb_sound d : wfb d = true -> wf d.
Proof.
  unfold wfb. rewrite !andb_true_iff.
  intros [[[[[[[[[Hp He] Hr] Hc] Hn] Hcl] Hep] Hrp] Hre] Hcr].
  constructor; try by apply ids_okb_sound.
  - by apply bool_decide_eq_true_1 in Hn.
  - eapply forallb_Forall; [|exact Hcl]. intros x. apply Z.leb_le.
  - eapply forallb_Forall; [|exact Hep]. intros x. apply fk_okb_sound.
  - eapply forallb_Forall; [|exact Hrp]. intros x. apply fk_okb_sound.
  - eapply forallb_Forall; [|exact Hre]. intros x. apply fk_okb_sound.
  - eapply forallb_Forall; [|exact Hcr]. done.
Qed.

Definition events_strictb (d : db) : bool := sorted_ltb e_created_at (events d).

Lemma events_strictb_sound d : events_strictb d = true -> events_strict d.
Proof. apply sorted_ltb_sound. Qed.

Lemma wf_empty : wf empty_db.
Proof. by apply wfb_sound. Qed.

End PgInv.
