(* ===== verification/Retention.v ===== *)
(** * The retention sweep [pruneEvents] (src/server.js lines 73-82)

    After an ingestion commits, the handler calls [pruneEvents] with the
    resolved project id.  It runs two autocommit statements on the pool: a
    [SELECT] of the project's event ids oldest first, and, when there are
    more than five, a [DELETE] of all but the last five, which cascades to
    their runs and cases. *)

From S2P Require Import Prelude JsValue Store StoreInv.
Import Js Pg PgInv.

Module Retention.

Local Open Scope Z_scope.

(** The retention ceiling, the [5] of lines 78-79. *)
Definition keep : nat := 5.

(** The ids [result.rows.slice(0, result.rows.length - 5)] (line 79). *)
Definition ids_to_delete (ids : list Z) : list Z :=
  if (keep <? length ids)%nat then take (length ids - keep) ids else [].

(** [pruneEvents(projectId)]: the parameter is bound as an integer; a NULL
    parameter matches no row. *)
Definition pruneEvents (projectId : jsval) : stM db sqlerr unit :=
  p <- lift (to_int projectId) ;;
  fun d =>
    let ids := match p with Some pid => select_event_ids pid d | None => [] end in
    if (keep <? length ids)%nat then (Ok tt, delete_events (ids_to_delete ids) d)
    else (Ok tt, d).

(** A database to run the sweep on: project 1 has seven events, project 2
    one, created one transaction apart. *)
Definition example_event (id p : Z) : event :=
  mkEvent id (Some p) "Test Run" "manual" 1 1 0 0 id.

Definition example_db : db :=
  mkDb [mkProject 1 "p1" None None 0; mkProject 2 "p2" None None 0]
       (map (fun i => example_event i (if i =? 4 then 2 else 1)) [1; 2; 3; 4; 5; 6; 7; 8])
       [] [] 2 8 0 0 8.

(** ** Ordering *)

#[export] Instance created_le_trans : Transitive created_le.
Proof. intros a b c. unfold created_le. lia. Qed.

#[export] Instance created_le_total : Total created_le.
Proof. intros a b. unfold created_le. lia. Qed.

Lemma project_events_strict p d :
  events_strict d -> StronglySorted (fun a b => e_created_at a < e_created_at b) (project_events p d).
Proof. intros Hs. by apply StronglySorted_filter. Qed.

(** With distinct creation times, [ORDER BY created_at] returns a project's
    events in table order: the sort in the query is the identity. *)
Lemma select_event_ids_sorted p d :
  events_strict d -> select_event_ids p d = map e_id (project_events p d).
Proof.
  intros Hs. pose proof (project_events_strict p d Hs) as Hpe.
  unfold select_event_ids. f_equal.
  apply (StronglySorted_unique_strong created_le).
  - intros x1 x2 Hx1 Hx2 H12 H21. unfold created_le in *.
    rewrite (merge_sort_Permutation created_le) in Hx1.
    apply (StronglySorted_lt_inj e_created_at (project_events p d)); [done| | |lia];
      by apply list_elem_of_In.
  - apply StronglySorted_merge_sort; apply _.
  - eapply StronglySorted_weaken; [|exact Hpe]. unfold created_le. simpl. lia.
  - apply merge_sort_Permutation.
Qed.

Lemma project_events_delete p ids d :
  project_events p (delete_events ids d) =
  List.filter (fun e => negb (bool_decide (e_id e ∈ ids))) (project_events p d).
Proof. unfold project_events, delete_events. simpl. apply filter_comm. Qed.

Lemma project_events_ids_NoDup p d : wf d -> NoDup (map e_id (project_events p d)).
Proof. intros Hwf. eapply ids_ok_NoDup, ids_ok_filter, wf_events, Hwf. Qed.

(** The sweep never fails once its parameter binds. *)
Lemma pruneEvents_run pid p d :
  to_int pid = Ok p ->
  pruneEvents pid d =
  (Ok tt, let ids := match p with Some q => select_event_ids q d | None => [] end in
          if (keep <? length ids)%nat then delete_events (ids_to_delete ids) d else d).
Proof. intros Hp. unfold pruneEvents, sbind, lift. rewrite Hp. simpl. by case_match. Qed.

(** After the sweep, a project's events are its newest [keep] ones. *)
Lemma pruneEvents_project_events pid p d :
  wf d -> events_strict d -> to_int pid = Ok (Some p) ->
  project_events p (snd (pruneEvents pid d)) = lastn keep (project_events p d).
Proof.
  intros Hwf Hs Hp. rewrite (pruneEvents_run pid (Some p)) by done. simpl.
  rewrite select_event_ids_sorted, length_map by done.
  destruct (Nat.ltb_spec keep (length (project_events p d))) as [Hlt|Hge].
  - rewrite project_events_delete. unfold ids_to_delete.
    rewrite length_map. destruct (Nat.ltb_spec keep (length (project_events p d))); [|lia].
    by apply filter_not_in_take, project_events_ids_NoDup.
  - by rewrite lastn_all.
Qed.

(** C3: after the sweep, a project keeps exactly its newest [keep] events
    (the last ones in creation order) and the older ones are deleted; a
    project with at most [keep] events is left alone, no statement but the
    [SELECT] being issued. *)
Theorem pruneEvents_keeps_newest pid p d :
  wf d -> events_strict d -> to_int pid = Ok (Some p) ->
  project_events p (snd (pruneEvents pid d)) = lastn keep (project_events p d) /\
  ((length (project_events p d) <= keep)%nat -> snd (pruneEvents pid d) = d).
Proof.
  intros Hwf Hs Hp. split; [by apply pruneEvents_project_events|].
  intros Hle. rewrite (pruneEvents_run pid (Some p)) by done. simpl.
  rewrite select_event_ids_sorted, length_map by done.
  by destruct (Nat.ltb_spec keep (length (project_events p d))); [lia|].
Qed.

(** C15: the ids the sweep deletes are those of the project's oldest events,
    all but the newest [keep] in creation order. *)
Theorem ids_to_delete_oldest p d :
  events_strict d ->
  ids_to_delete (select_event_ids p d) =
  map e_id (take (length (project_events p d) - keep) (project_events p d)).
Proof.
  intros Hs. rewrite select_event_ids_sorted by done. unfold ids_to_delete.
  rewrite length_map, <- firstn_map.
  destruct (Nat.ltb_spec keep (length (project_events p d))); [done|].
  by replace (length (project_events p d) - keep)%nat with 0%nat by lia.
Qed.

Lemma pruneEvents_state pid d :
  snd (pruneEvents pid d) = d \/ exists ids, snd (pruneEvents pid d) = delete_events ids d.
Proof.
  unfold pruneEvents, sbind, lift. destruct (to_int pid); simpl; [|by left].
  case_match; [right; eauto | by left].
Qed.

Lemma pruneEvents_wf pid d :
  wf d -> events_strict d ->
  wf (snd (pruneEvents pid d)) /\ events_strict (snd (pruneEvents pid d)) /\
  mono d (snd (pruneEvents pid d)).
Proof.
  intros Hwf Hs. destruct (pruneEvents_state pid d) as [->|[ids ->]].
  - split_and!; [done | done | reflexivity].
  - split_and!; [by apply wf_delete_events | by apply StronglySorted_filter |].
    apply delete_events_mono.
Qed.

(** C23: the sweep for one project leaves every other project's events alone. *)
Theorem pruneEvents_other_projects pid p q d :
  wf d -> to_int pid = Ok (Some p) -> q <> p ->
  project_events q (snd (pruneEvents pid d)) = project_events q d.
Proof.
  intros Hwf Hp Hq. rewrite (pruneEvents_run pid (Some p)) by done. simpl.
  case_match; [|done]. rewrite project_events_delete. apply filter_all.
  intros e He. apply negb_true_iff, bool_decide_eq_false. intros Hin.
  unfold ids_to_delete in Hin. case_match; [|set_solver].
  apply list_elem_of_In, In_take, in_map_iff in Hin as (e' & Hid & He').
  unfold select_event_ids in He'. apply list_elem_of_In in He'.
  rewrite (merge_sort_Permutation created_le) in He'. apply list_elem_of_In in He'.
  unfold project_events in He, He'. apply filter_In in He as [He Hqe], He' as [He' Hpe].
  assert (e' = e) as ->.
  { destruct (wf_events _ Hwf) as [Hsort _]. by eapply (StronglySorted_lt_inj e_id). }
  apply bool_decide_eq_true in Hqe, Hpe. congruence.
Qed.

(** C24: running the sweep twice is running it once. *)
Theorem pruneEvents_idempotent pid d :
  wf d -> events_strict d ->
  snd (pruneEvents pid (snd (pruneEvents pid d))) = snd (pruneEvents pid d).
Proof.
  intros Hwf Hs. destruct (to_int pid) as [[p|]|e] eqn:Hp.
  - pose proof (pruneEvents_project_events pid p d Hwf Hs Hp) as Hk.
    destruct (pruneEvents_wf pid d Hwf Hs) as (Hwf' & Hs' & _).
    rewrite (pruneEvents_run pid (Some p) (snd (pruneEvents pid d))) by done. simpl.
    rewrite select_event_ids_sorted, length_map, Hk, length_lastn by done.
    destruct (Nat.ltb_spec keep (Nat.min keep (length (project_events p d)))); [lia|done].
  - by rewrite !(pruneEvents_run pid None).
  - unfold pruneEvents, sbind, lift. by rewrite Hp.
Qed.

Lemma example_db_wf : wf example_db /\ events_strict example_db.
Proof. split; [apply wfb_sound | apply events_strictb_sound]; vm_compute; reflexivity. Qed.

Lemma pruneEvents_keeps_newest_witness :
  to_int (JNum 1) = Ok (Some 1) /\
  (project_events 1 (snd (pruneEvents (JNum 1) example_db)) = lastn keep (project_events 1 example_db) /\
   ((length (project_events 1 example_db) <= keep)%nat -> snd (pruneEvents (JNum 1) example_db) = example_db)) /\
  map e_id (project_events 1 (snd (pruneEvents (JNum 1) example_db))) = [3; 5; 6; 7; 8].
Proof.
  split; [reflexivity|]. split; [|vm_compute; reflexivity].
  apply (pruneEvents_keeps_newest (JNum 1) 1 example_db); [apply example_db_wf..|reflexivity].
Defined.

Lemma pruneEvents_other_projects_witness :
  project_events 2 (snd (pruneEvents (JNum 1) example_db)) = project_events 2 example_db /\
  map e_id (project_events 2 example_db) = [4].
Proof.
  split; [|reflexivity].
  apply (pruneEvents_other_projects (JNum 1) 1 2 example_db); [apply example_db_wf|reflexivity|lia].
Defined.

Lemma pruneEvents_idempotent_witness :
  snd (pruneEvents (JNum 1) (snd (pruneEvents (JNum 1) example_db))) =
  snd (pruneEvents (JNum 1) example_db).
Proof. apply pruneEvents_idempotent; apply example_db_wf. Defined.

Lemma ids_to_delete_oldest_witness :
  ids_to_delete (select_event_ids 1 example_db) =
  map e_id (take (length (project_events 1 example_db) - keep) (project_events 1 example_db)) /\
  ids_to_delete (select_event_ids 1 example_db) = [1; 2].
Proof. split; [apply ids_to_delete_oldest, example_db_wf | vm_compute; reflexivity]. Defined.

End Retention.
