(* ===== verification/Ingest.v ===== *)
(** * The ingestion handler [POST /api/results] (src/server.js lines 142-231)

    The handler reads the body, normalises the two accepted shapes into an
    array of suites, validates every suite, and then, on one pooled
    connection, runs [BEGIN], the project upsert, the event insert, one run
    insert and one batched case insert per suite, and [COMMIT]; after the
    commit it calls [pruneEvents].  Any error inside the [try] block sends
    [ROLLBACK] and answers 500 with the error's message. *)

From S2P Require Import Prelude JsValue Store StoreInv Retention.
From Stdlib Require Import String.
Import Js Pg PgInv Retention.

Module Ingest.

Local Open Scope Z_scope.

(** Errors that reach the [catch] block: a statement's SQL error, or the
    TypeError of reading a property of [null]/[undefined]. *)
Inductive herr : Type :=
| ESql (e : sqlerr)
| ETypeError.

(** What the client gets: a JSON response, the 500 response carrying the
    caught error's message, or nothing at all when the handler's promise
    rejects outside the [try] block. *)
Inductive response : Type :=
| RJson (status : Z) (body : jsval)
| RError (status : Z) (e : herr)
| Unhandled (e : herr).

Definition error_body (msg : string) : jsval := JObj [("error", JStr msg)].

Definition msg_missing : string :=
  "Missing required fields: provide 'suites' array or 'suite_name, total, passed, failed'".
Definition msg_suite : string := "Each suite requires: suite_name, total, passed, failed".

(** Lines 146-153: a non-empty [suites] array, else the flat legacy shape
    as a one-suite array, else [None] (the 400 response). *)
Definition suites_of_body (body : jsval) : option (list jsval) :=
  match get body "suites" with
  | JArr (s :: ss) => Some (s :: ss)
  | _ =>
      let suite_name := get body "suite_name" in
      let total := get body "total" in
      let passed := get body "passed" in
      let failed := get body "failed" in
      if truthy suite_name && negb (nullish total) && negb (nullish passed)
         && negb (nullish failed)
      then Some [JObj [("suite_name", suite_name); ("total", total); ("passed", passed);
                       ("failed", failed); ("cases", get body "cases")]]
      else None
  end.

Inductive verdict : Type := Valid | Invalid | Throws.

(** Lines 155-159: [suite.suite_name] throws on a [null] or [undefined]
    suite; the other reads are on a value that is not nullish. *)
Fixpoint validate (ss : list jsval) : verdict :=
  match ss with
  | [] => Valid
  | s :: ss' =>
      match prop s "suite_name" with
      | None => Throws
      | Some sn =>
          if negb (truthy sn) || nullish (get s "total") || nullish (get s "passed")
             || nullish (get s "failed")
          then Invalid else validate ss'
      end
  end.

(** [suitesArray.reduce((s, r) => s + Number(r[k]), 0)] (lines 176-178). *)
Definition aggregate (k : string) (ss : list jsval) : num :=
  fold_left (fun acc r => num_add acc (to_number (get r k))) ss (NFin 0).

(** Lift a statement of the store into the handler's error type. *)
Definition sql {A} (c : stM db sqlerr A) : stM db herr A := fun d =>
  match c d with (Ok a, d') => (Ok a, d') | (Err e, d') => (Err (ESql e), d') end.

Definition type_error {A} : stM db herr A := sthrow ETypeError.

(** The nine parameters pushed for one case (line 206); [None] when [c] is
    [null] or [undefined] and reading [c.case_id] throws. *)
Definition case_params_of (runId : Z) (c : jsval) : option case_params :=
  match prop c "case_id" with
  | None => None
  | Some cid =>
      Some (mkCaseParams (JNum runId) (or_else cid JNull) (get c "case_name")
              (or_else (get c "description") JNull) (or_else (get c "module") JNull)
              (or_else (get c "type") JNull) (get c "status")
              (or_else (get c "error_message") JNull) (or_else (get c "duration_ms") JNull))
  end.

Fixpoint cases_params (runId : Z) (cs : list jsval) : option (list case_params) :=
  match cs with
  | [] => Some []
  | c :: cs' =>
      match case_params_of runId c, cases_params runId cs' with
      | Some cp, Some cps => Some (cp :: cps)
      | _, _ => None
      end
  end.

(** [Array.isArray(suite.cases) ? suite.cases : []] (line 199). *)
Definition suite_cases (suite : jsval) : list jsval :=
  match get suite "cases" with JArr cs => cs | _ => [] end.

(** One iteration of the loop of lines 191-214. *)
Definition insert_suite (resolved : jsval) (eventId : Z) (suite : jsval) : stM db herr Z :=
  runId <- sql (insert_run (get suite "suite_name") (get suite "total") (get suite "passed")
                           (get suite "failed") resolved (JNum eventId)) ;;
  match suite_cases suite with
  | [] => sret runId
  | cs =>
      match cases_params runId cs with
      | None => type_error
      | Some cps => sql (insert_cases cps) ;;; sret runId
      end
  end.

(** Lines 166-173: [project_id || null], else the upserted [project_name]. *)
Definition resolve_project (project_id project_name : jsval) : stM db herr jsval :=
  let r := or_else project_id JNull in
  if negb (truthy r) && truthy project_name then
    pid <- sql (upsert_project project_name) ;; sret (JNum pid)
  else sret r.

(** The statements between [BEGIN] and [COMMIT] (lines 166-214); the
    result is the event id, the run ids and the resolved project. *)
Definition ingest_txn (ss : list jsval) (body : jsval) : stM db herr (Z * list Z * jsval) :=
  resolved <- resolve_project (get body "project_id") (get body "project_name") ;;
  let eventTotal := aggregate "total" ss in
  let eventPassed := aggregate "passed" ss in
  let eventFailed := aggregate "failed" ss in
  let eventSkipped := num_max0 (num_sub (num_sub eventTotal eventPassed) eventFailed) in
  eventId <- sql (insert_event resolved (or_else (get body "event_name") (JStr "Test Run"))
                    (or_else (get body "trigger") (JStr "manual"))
                    (num_to_js eventTotal) (num_to_js eventPassed)
                    (num_to_js eventFailed) (num_to_js eventSkipped)) ;;
  runIds <- smapM (insert_suite resolved eventId) ss ;;
  sret (eventId, runIds, resolved).

(** The 201 body [{ id: runIds[0], event_id: eventId, run_ids: runIds }]. *)
Definition created_body (eventId : Z) (runIds : list Z) : jsval :=
  JObj [("id", match runIds with r :: _ => JNum r | [] => JUndef end);
        ("event_id", JNum eventId); ("run_ids", JArr (map JNum runIds))].

(** The whole handler.  [BEGIN] starts a transaction ([tick]) whose
    snapshot [ROLLBACK] restores; after [COMMIT] the [ROLLBACK] of the catch
    block has no transaction to undo. *)
Definition post_results (body : jsval) (d : db) : response * db :=
  match suites_of_body body with
  | None => (RJson 400 (error_body msg_missing), d)
  | Some ss =>
      match validate ss with
      | Throws => (Unhandled ETypeError, d)
      | Invalid => (RJson 400 (error_body msg_suite), d)
      | Valid =>
          let d0 := tick d in
          match ingest_txn ss body d0 with
          | (Err e, d1) => (RError 500 e, rollback_to d0 d1)
          | (Ok (eventId, runIds, resolved), d1) =>
              match (if truthy resolved then sql (pruneEvents resolved) else sret tt) d1 with
              | (Err e, d2) => (RError 500 e, d2)
              | (Ok _, d2) => (RJson 201 (created_body eventId runIds), d2)
              end
          end
      end
  end.

(** ** Example requests *)

(** The concrete scenario of the specification: one suite of project
    [p1], two tests, one passed and one failed. *)
Definition example_suite : jsval :=
  JObj [("suite_name", JStr "a"); ("total", JNum 2); ("passed", JNum 1); ("failed", JNum 1);
        ("cases", JArr [])].

Definition example_body : jsval :=
  JObj [("project_name", JStr "p1"); ("suites", JArr [example_suite])].

(** A request whose case insert violates the CHECK on [status]. *)
Definition bad_status_body : jsval :=
  JObj [("project_name", JStr "p1");
        ("suites", JArr [JObj [("suite_name", JStr "a"); ("total", JNum 1); ("passed", JNum 1);
                               ("failed", JNum 0);
                               ("cases", JArr [JObj [("case_name", JStr "login");
                                                     ("status", JStr "passed")]])]])].

(** Two suites whose totals are each a valid [INTEGER] but whose sum is
    [2^31], one more than the column holds. *)
Definition overflow_body : jsval :=
  JObj [("project_name", JStr "p1");
        ("suites", JArr [JObj [("suite_name", JStr "a"); ("total", JNum (2 ^ 31 - 1));
                               ("passed", JNum (2 ^ 31 - 1)); ("failed", JNum 0)];
                         JObj [("suite_name", JStr "b"); ("total", JNum 1); ("passed", JNum 1);
                               ("failed", JNum 0)]])].

(** ** Lemmas: the steps of the transaction *)

Lemma sql_ok {A} (c : stM db sqlerr A) d a d' : sql c d = (Ok a, d') -> c d = (Ok a, d').
Proof. unfold sql. destruct (c d) as [[]]; congruence. Qed.

Lemma sql_state {A} (c : stM db sqlerr A) d : snd (sql c d) = snd (c d).
Proof. unfold sql. by destruct (c d) as [[]]. Qed.

(** How a suite relates to the run row inserted for it. *)
Definition run_of_suite (eventId : Z) (s : jsval) (r : run) : Prop :=
  to_int (get s "total") = Ok (Some (r_total r)) /\
  to_int (get s "passed") = Ok (Some (r_passed r)) /\
  to_int (get s "failed") = Ok (Some (r_failed r)) /\
  r_event_id r = Some eventId.

(** The tables a successful step leaves: projects and events as they were,
    the new runs and cases appended. *)
Definition appends_runs (d d' : db) (rs : list run) : Prop :=
  projects d' = projects d /\ events d' = events d /\ runs d' = runs d ++ rs /\
  (exists cs, cases d' = cases d ++ cs) /\ clock d' = clock d.

Lemma to_int_JNum_ok z o : to_int (JNum z) = Ok o -> o = Some z.
Proof. rewrite to_int_JNum. destruct (in_int32 z); congruence. Qed.

Lemma insert_cases_tables cps d u d' :
  insert_cases cps d = (Ok u, d') ->
  projects d' = projects d /\ events d' = events d /\ runs d' = runs d /\
  (exists cs, cases d' = cases d ++ cs) /\ clock d' = clock d.
Proof.
  intros H. apply atomic_ok in H. unfold sbind, lift, sret in H.
  destruct (max_params <? _); simpl in H; [done|].
  destruct (bind_cases cps) as [bs|e]; simpl in H; [|done].
  destruct (insert_case_rows (zip cps bs) d) as [[ids|e] d1] eqn:Hrows; [|done].
  case_match; simplify_eq.
  apply insert_case_rows_ok in Hrows as ((?&?&?&?&?&?&?) & _ & _ & cs & ? & _).
  split_and!; eauto.
Qed.

Lemma insert_suite_ok resolved eventId s d runId d' :
  insert_suite resolved eventId s d = (Ok runId, d') ->
  exists r, r_id r = runId /\ run_of_suite eventId s r /\ appends_runs d d' [r].
Proof.
  unfold insert_suite, sbind. intros H.
  destruct (sql _ d) as [[rid|e] d1] eqn:Hrun; [|done]. apply sql_ok, insert_run_ok in Hrun
    as (r & _ & Ht & Hp & Hf & _ & He & Hid & _ & ->).
  apply to_int_JNum_ok in He.
  assert (Happ : appends_runs d (mkDb (projects d) (events d) (runs d ++ [r]) (cases d)
    (seq_projects d) (seq_events d) rid (seq_cases d) (clock d)) [r]).
  { split_and!; try done. exists []. by rewrite app_nil_r. }
  assert (runId = rid /\ appends_runs d d' [r]) as [-> Hd'].
  { destruct (suite_cases s) as [|c cs]; [by unfold sret in H; simplify_eq|].
    destruct (cases_params rid (c :: cs)) as [cps|]; [|done].
    destruct (sql (insert_cases cps) _) as [[u|e] d2] eqn:Hc; [|done].
    unfold sret in H. simplify_eq. apply sql_ok, insert_cases_tables in Hc
      as (Hp' & He' & Hr' & (cs' & Hc') & Hcl'). simpl in *.
    split; [done|]. split_and!; try congruence. exists cs'. congruence. }
  exists r. split_and!; [done| |done]. by split_and!.
Qed.

Lemma appends_runs_nil d : appends_runs d d [].
Proof. split_and!; try done; [by rewrite app_nil_r | exists []; by rewrite app_nil_r]. Qed.

Lemma appends_runs_trans d1 d2 d3 rs1 rs2 :
  appends_runs d1 d2 rs1 -> appends_runs d2 d3 rs2 -> appends_runs d1 d3 (rs1 ++ rs2).
Proof.
  intros (?&?&Hr1&[cs1 Hc1]&?) (?&?&Hr2&[cs2 Hc2]&?). split_and!; try congruence.
  - by rewrite Hr2, Hr1, app_assoc.
  - exists (cs1 ++ cs2). by rewrite Hc2, Hc1, app_assoc.
Qed.

(** The loop of lines 191-214 inserts one run per suite, in order. *)
Lemma insert_suites_ok resolved eventId ss d rids d' :
  smapM (insert_suite resolved eventId) ss d = (Ok rids, d') ->
  exists rs, map r_id rs = rids /\ Forall2 (run_of_suite eventId) ss rs /\ appends_runs d d' rs.
Proof.
  revert d rids. induction ss as [|s ss IH]; intros d rids H; simpl in H.
  - unfold sret in H. simplify_eq. exists []. split_and!; [done | constructor | apply appends_runs_nil].
  - unfold sbind in H. destruct (insert_suite resolved eventId s d) as [[rid|e] d1] eqn:Hs; [|done].
    destruct (smapM _ ss d1) as [[rids'|e] d2] eqn:Hrest; [|done]. unfold sret in H. simplify_eq.
    apply insert_suite_ok in Hs as (r & <- & Hr & Ha1).
    destruct (IH _ _ Hrest) as (rs & <- & Hrs & Ha2).
    exists (r :: rs). split_and!; [done | by constructor |].
    exact (appends_runs_trans _ _ _ [r] rs Ha1 Ha2).
Qed.

Lemma to_int_num n z : to_int (num_to_js n) = Ok (Some z) -> n = NFin z.
Proof. destruct n as [w|]; simpl; [by intros ->%to_int_JNum_ok%(inj Some) | vm_compute; discriminate]. Qed.

Lemma upsert_project_ok name d k d' :
  upsert_project name d = (Ok k, d') ->
  events d' = events d /\ runs d' = runs d /\ cases d' = cases d /\ clock d' = clock d /\
  seq_events d' = seq_events d /\
  (exists n, to_str name = Some n /\
     ((exists p, find_project_by_name n d = Some p /\ p_id p = k /\ projects d' = projects d) \/
      (find_project_by_name n d = None /\ k = seq_projects d + 1 /\
       projects d' = projects d ++ [mkProject k n None None (clock d)]))).
Proof.
  intros H. apply atomic_ok in H. run_db; split_and!; try done; eexists; split; eauto.
Qed.

Lemma resolve_project_ok pid pname d res d' :
  resolve_project pid pname d = (Ok res, d') ->
  (d' = d /\ res = or_else pid JNull) \/
  (exists k, res = JNum k /\ truthy pname = true /\ upsert_project pname d = (Ok k, d')).
Proof.
  unfold resolve_project. case_match eqn:Hc.
  - unfold sbind. destruct (sql _ d) as [[k|e] d1] eqn:Hu; [|done].
    unfold sret. intros [= <- <-]. right. exists k. split; [done|].
    apply andb_prop in Hc as [_ ->]. split; [done|]. by apply sql_ok.
  - unfold sret. intros [= <- <-]. by left.
Qed.

(** A committed transaction: the project is resolved, one event is
    appended whose counts are the [Number()] sums of the suites, and one run
    per suite is appended after it. *)
Lemma ingest_txn_ok ss body d eid rids res d1 :
  ingest_txn ss body d = (Ok (eid, rids, res), d1) ->
  exists dp ev rs,
    resolve_project (get body "project_id") (get body "project_name") d = (Ok res, dp) /\
    to_int res = Ok (e_project_id ev) /\ fk_ok project_exists (e_project_id ev) dp /\
    e_id ev = eid /\ eid = seq_events dp + 1 /\ e_created_at ev = clock dp /\
    aggregate "total" ss = NFin (e_total ev) /\ aggregate "passed" ss = NFin (e_passed ev) /\
    aggregate "failed" ss = NFin (e_failed ev) /\
    e_skipped ev = Z.max 0 (e_total ev - e_passed ev - e_failed ev) /\
    map r_id rs = rids /\ Forall2 (run_of_suite eid) ss rs /\
    projects d1 = projects dp /\ events d1 = events dp ++ [ev] /\ runs d1 = runs dp ++ rs /\
    clock d1 = clock dp.
Proof.
  unfold ingest_txn, sbind. intros H.
  destruct (resolve_project _ _ d) as [[res'|e] dp] eqn:Hres; [|done].
  destruct (sql (insert_event _ _ _ _ _ _ _) dp) as [[eid'|e] de] eqn:Hev; [|done].
  destruct (smapM _ ss de) as [[rids'|e] d2] eqn:Hloop; [|done].
  unfold sret in H. simplify_eq.
  apply sql_ok, insert_event_ok in Hev as (ev & Hp & _ & _ & Ht & Hpa & Hf & Hsk & Hfk & Hid & Hseq & Hcl & ->).
  apply insert_suites_ok in Hloop as (rs & <- & Hrs & (Hpr & Hevs & Hruns & _ & Hcl')).
  apply to_int_num in Ht, Hpa, Hf. rewrite Ht, Hpa, Hf in Hsk. simpl in Hsk.
  apply to_int_JNum_ok in Hsk. simplify_eq.
  exists dp, ev, rs. simpl in *. split_and!; try done; congruence.
Qed.

(** ** The invariant through the transaction *)

Lemma stmt_ok_sql {A} (c : stM db sqlerr A) : stmt_ok c -> stmt_ok (sql c).
Proof. intros Hc d Hd. rewrite sql_state. by apply Hc. Qed.

#[export] Hint Resolve stmt_ok_sql : e2e.

Lemma stmt_ok_insert_suite resolved eventId s : stmt_ok (insert_suite resolved eventId s).
Proof.
  unfold insert_suite. apply stmt_ok_bind; [auto with e2e|]. intros rid.
  repeat case_match; unfold type_error; auto with e2e.
Qed.

Lemma stmt_ok_resolve_project pid pname : stmt_ok (resolve_project pid pname).
Proof. unfold resolve_project. case_match; auto with e2e. Qed.

Lemma stmt_ok_ingest_txn ss body : stmt_ok (ingest_txn ss body).
Proof.
  unfold ingest_txn. apply stmt_ok_bind; [apply stmt_ok_resolve_project|]. intros res.
  apply stmt_ok_bind; [auto with e2e|]. intros eid.
  apply stmt_ok_bind; [apply stmt_ok_smapM; intros; apply stmt_ok_insert_suite|].
  auto with e2e.
Qed.

(** ** The handler *)

(** The post-commit step: [pruneEvents] runs when the resolved project is
    truthy, and it cannot fail, since its parameter was bound as an integer
    by the event insert already. *)
Definition after_commit (res : jsval) : stM db herr unit :=
  if truthy res then sql (pruneEvents res) else sret tt.

Lemma after_commit_ok res o d :
  to_int res = Ok o ->
  after_commit res d = (Ok tt, if truthy res then snd (pruneEvents res d) else d).
Proof.
  intros Hres. unfold after_commit. destruct (truthy res); [|done].
  unfold sql. by rewrite (pruneEvents_run res o d Hres).
Qed.

(** Every run of the handler is one of these: rejected before the
    transaction, rolled back, or committed and swept. *)
Lemma post_results_cases body d r d' :
  post_results body d = (r, d') ->
  (d' = d /\ forall b, r <> RJson 201 b) \/
  (exists ss e d1, suites_of_body body = Some ss /\ validate ss = Valid /\
     ingest_txn ss body (tick d) = (Err e, d1) /\ r = RError 500 e /\
     d' = rollback_to (tick d) d1) \/
  (exists ss eid rids res d1, suites_of_body body = Some ss /\ validate ss = Valid /\
     ingest_txn ss body (tick d) = (Ok (eid, rids, res), d1) /\
     r = RJson 201 (created_body eid rids) /\
     d' = if truthy res then snd (pruneEvents res d1) else d1).
Proof.
  unfold post_results. intros H.
  destruct (suites_of_body body) as [ss|]; [|simplify_eq; by left].
  destruct (validate ss) eqn:Hv; try (simplify_eq; by left).
  destruct (ingest_txn ss body (tick d)) as [[[[eid rids] res]|e] d1] eqn:Htx.
  - apply ingest_txn_ok in Htx as Hok. destruct Hok as (dp & ev & rs & _ & Hres & _).
    change ((if truthy res then sql (pruneEvents res) else sret tt) d1)
      with (after_commit res d1) in H.
    rewrite (after_commit_ok res (e_project_id ev) d1 Hres) in H. simplify_eq.
    right; right. eexists _, _, _, _, _. split_and!; eauto.
  - simplify_eq. right; left. eexists _, _, _. split_and!; eauto.
Qed.

(** C2: a request that is not answered 201 leaves every table as it was: no
    event, run or case of a failed ingestion is ever visible. *)
Theorem post_results_no_partial_effects body d r d' :
  post_results body d = (r, d') -> (forall b, r <> RJson 201 b) -> same_tables d d'.
Proof.
  intros H Hr. apply post_results_cases in H
    as [[-> _]|[(ss & e & d1 & _ & _ & _ & _ & ->)|(ss & eid & rids & res & d1 & _ & _ & _ & -> & _)]].
  - by repeat split.
  - done.
  - by destruct (Hr _ eq_refl).
Qed.

Lemma resolve_project_tables pid pname d res dp :
  resolve_project pid pname d = (Ok res, dp) ->
  events dp = events d /\ runs dp = runs d /\ clock dp = clock d.
Proof.
  intros [[-> _]|(k & _ & _ & Hu)]%resolve_project_ok; [done|].
  apply upsert_project_ok in Hu as (? & ? & _ & ? & _). done.
Qed.

(** After a committed ingestion the invariant holds, and the new event is
    the latest: its transaction started after every earlier one. *)
Lemma ingest_txn_inv ss body d eid rids res d1 :
  wf d -> events_strict d -> ingest_txn ss body (tick d) = (Ok (eid, rids, res), d1) ->
  wf d1 /\ events_strict d1.
Proof.
  intros Hwf Hs Htx. split.
  - pose proof (stmt_ok_ingest_txn ss body (tick d) (wf_tick d Hwf)) as [Hwf1 _].
    by rewrite Htx in Hwf1.
  - apply ingest_txn_ok in Htx as (dp & ev & rs & Hres & _ & _ & _ & _ & Hcl & _ & _ & _ & _ & _ & _ & _ & Hev & _).
    apply resolve_project_tables in Hres as (Hevp & _ & Hclp). simpl in *.
    unfold events_strict. rewrite Hev, Hevp. apply StronglySorted_snoc; [done|].
    eapply Forall_impl; [exact (wf_clock _ Hwf)|]. simpl. lia.
Qed.

Lemma In_lastn_snoc {A} n (xs : list A) x : In x (lastn (S n) (xs ++ [x])).
Proof.
  unfold lastn. rewrite length_app, drop_app_le by (simpl; lia).
  apply in_or_app. right. by left.
Qed.

Lemma project_events_snoc p d d' ev :
  events d' = events d ++ [ev] -> e_project_id ev = Some p ->
  project_events p d' = project_events p d ++ [ev].
Proof.
  intros Hev Hp. unfold project_events. rewrite Hev, List.filter_app. simpl.
  by rewrite Hp, bool_decide_true.
Qed.

(** What a 201 response says: the body had suites [ss], the transaction
    inserted event [ev] and one run per suite, and [ev] survives the sweep. *)
Lemma resolve_project_seq_events pid pname d res dp :
  resolve_project pid pname d = (Ok res, dp) -> seq_events dp = seq_events d.
Proof.
  intros [[-> _]|(k & _ & _ & Hu)]%resolve_project_ok; [done|].
  by apply upsert_project_ok in Hu as (_ & _ & _ & _ & ? & _).
Qed.

(** A run stored before an event is inserted never references it: runs
    reference existing events, whose ids the sequence has handed out. *)
Lemma runs_other_event d eid x :
  wf d -> seq_events d < eid -> In x (runs d) -> bool_decide (r_event_id x = Some eid) = false.
Proof.
  intros Hwf Hlt Hx. apply bool_decide_eq_false. intros Hr.
  pose proof (wf_run_event _ Hwf) as Hfk. rewrite List.Forall_forall in Hfk.
  specialize (Hfk x Hx). rewrite Hr in Hfk. simpl in Hfk. unfold event_exists in Hfk.
  apply existsb_exists in Hfk as (e & He & Hk%Z.eqb_eq).
  destruct (wf_events _ Hwf) as [_ Hle]. rewrite List.Forall_forall in Hle. specialize (Hle e He). lia.
Qed.

Lemma post_results_created body d r d' :
  wf d -> events_strict d -> post_results body d = (RJson 201 r, d') ->
  exists ss ev rs, suites_of_body body = Some ss /\ r = created_body (e_id ev) (map r_id rs) /\
    In ev (events d') /\ Forall2 (run_of_suite (e_id ev)) ss rs /\
    aggregate "total" ss = NFin (e_total ev) /\ aggregate "passed" ss = NFin (e_passed ev) /\
    aggregate "failed" ss = NFin (e_failed ev) /\
    e_skipped ev = Z.max 0 (e_total ev - e_passed ev - e_failed ev) /\
    List.filter (fun x => bool_decide (r_event_id x = Some (e_id ev))) (runs d') = rs.
Proof.
  intros Hwf Hs H. apply post_results_cases in H
    as [[_ Hr]|[(ss & e & d1 & _ & _ & _ & [=] & _)|(ss & eid & rids & res & d1 & Hss & _ & Htx & Hr & ->)]];
    [by destruct (Hr _ eq_refl)|].
  injection Hr as ->.
  destruct (ingest_txn_inv ss body d eid rids res d1 Hwf Hs Htx) as [Hwf1 Hs1].
  apply ingest_txn_ok in Htx
    as (dp & ev & rs & Hresp & Hres & _ & <- & Heid & _ & Ht & Hp & Hf & Hsk & <- & Hrs & _ & Hev & Hruns & _).
  assert (Hin1 : In ev (events d1)) by (rewrite Hev; apply in_or_app; right; by left).
  assert (Hin : In ev (events (if truthy res then snd (pruneEvents res d1) else d1))).
  { destruct (truthy res); [|done].
    destruct (e_project_id ev) as [p|] eqn:Hpe.
    - pose proof (pruneEvents_project_events res p d1 Hwf1 Hs1 Hres) as Hk.
      rewrite (project_events_snoc p dp d1 ev Hev Hpe) in Hk.
      assert (Hin : In ev (project_events p (snd (pruneEvents res d1)))).
      { rewrite Hk. apply In_lastn_snoc. }
      by apply filter_In in Hin as [? _].
    - by rewrite (pruneEvents_run res None d1 Hres). }
  assert (Hr1 : List.filter (fun x => bool_decide (r_event_id x = Some (e_id ev))) (runs d1) = rs).
  { pose proof (resolve_project_tables _ _ _ _ _ Hresp) as (_ & Hrd & _).
    pose proof (resolve_project_seq_events _ _ _ _ _ Hresp) as Hse.
    rewrite Hruns, Hrd, List.filter_app, (filter_none _ (runs (tick d))), filter_all; [done| |].
    - apply (Forall2_r _ (fun x => r_event_id x = Some (e_id ev))) in Hrs; [|by intros ? ? (_ & _ & _ & ?)].
      rewrite List.Forall_forall in Hrs. intros x Hx. by apply bool_decide_eq_true, Hrs.
    - intros x Hx. apply (runs_other_event d); [done | simpl in Hse; lia | done]. }
  exists ss, ev, rs. split_and!; try done.
  destruct (truthy res); [|done].
  destruct (pruneEvents_state res d1) as [Hd|[ids Hd]]; rewrite Hd in Hin |- *; [done|].
  simpl. rewrite filter_comm, Hr1. apply filter_all. intros x Hx.
  apply filter_In in Hin as [_ Hnin].
  apply (Forall2_r _ (fun x => r_event_id x = Some (e_id ev))) in Hrs; [|by intros ? ? (_ & _ & _ & ?)].
  rewrite List.Forall_forall in Hrs. by rewrite (Hrs x Hx).
Qed.

(** C1: the event a 201 response names is in the database afterwards, and
    its counts are the sums of [Number(total)], [Number(passed)] and
    [Number(failed)] over the submitted suites, with
    [skipped = max(0, total - passed - failed)]. *)
Theorem post_results_event_totals body d ss r d' :
  wf d -> events_strict d -> suites_of_body body = Some ss ->
  post_results body d = (RJson 201 r, d') ->
  exists ev, In ev (events d') /\ get r "event_id" = JNum (e_id ev) /\
    aggregate "total" ss = NFin (e_total ev) /\ aggregate "passed" ss = NFin (e_passed ev) /\
    aggregate "failed" ss = NFin (e_failed ev) /\
    e_skipped ev = Z.max 0 (e_total ev - e_passed ev - e_failed ev).
Proof.
  intros Hwf Hs Hss H.
  destruct (post_results_created body d r d' Hwf Hs H)
    as (ss' & ev & rs & Hss' & -> & Hin & _ & Ht & Hp & Hf & Hsk & _).
  rewrite Hss in Hss'. injection Hss' as <-. by exists ev.
Qed.

(** Every run of the handler, whatever its response, keeps the store
    invariant and keeps events in strictly increasing creation order. *)
Lemma post_results_wf body d r d' :
  wf d -> events_strict d -> post_results body d = (r, d') -> wf d' /\ events_strict d'.
Proof.
  intros Hwf Hs H. apply post_results_cases in H
    as [[-> _]|[(ss & e & d1 & _ & _ & Htx & _ & ->)|(ss & eid & rids & res & d1 & _ & _ & Htx & _ & ->)]].
  - done.
  - split; [|done]. apply wf_rollback; [by apply wf_tick|].
    pose proof (stmt_ok_ingest_txn ss body (tick d) (wf_tick d Hwf)) as [_ Hm].
    rewrite Htx in Hm. simpl in Hm. by apply mono_rollback.
  - destruct (ingest_txn_inv ss body d eid rids res d1 Hwf Hs Htx) as [Hwf1 Hs1].
    destruct (truthy res); [|done].
    by destruct (pruneEvents_wf res d1 Hwf1 Hs1) as (? & ? & _).
Qed.

Lemma wf_empty_strict : wf empty_db /\ events_strict empty_db.
Proof. split; [apply wf_empty | constructor]. Qed.

(** C27: the event's counts are INTEGER columns like the runs', but they
    hold sums: when the suites' totals each fit in 32 bits and their sum
    does not, the event insert fails with [OutOfRange] and the whole request
    is answered 500 and rolled back.  (The parameters are bound in order:
    the project id and the event's name and trigger, which precede the
    total, must bind.) *)
Theorem post_results_total_overflow body d ss res p dp z :
  suites_of_body body = Some ss -> validate ss = Valid ->
  resolve_project (get body "project_id") (get body "project_name") (tick d) = (Ok res, dp) ->
  to_int res = Ok p ->
  text_ok (or_else (get body "event_name") (JStr "Test Run")) = true ->
  text_ok (or_else (get body "trigger") (JStr "manual")) = true ->
  aggregate "total" ss = NFin z -> in_int32 z = false ->
  post_results body d = (RError 500 (ESql OutOfRange), rollback_to (tick d) dp).
Proof.
  intros Hss Hv Hres Hp Hn Ht Hz Hr. unfold post_results. rewrite Hss, Hv.
  unfold ingest_txn, sbind at 1. rewrite Hres. cbv zeta. rewrite Hz.
  unfold sbind, sql. by rewrite (insert_event_out_of_range res p _ _ z _ _ _ dp Hp Hn Ht Hr).
Qed.

Lemma post_results_event_totals_witness :
  post_results example_body empty_db =
    (RJson 201 (created_body 1 [1]), snd (post_results example_body empty_db)) /\
  exists ev, In ev (events (snd (post_results example_body empty_db))) /\
    get (created_body 1 [1]) "event_id" = JNum (e_id ev) /\
    aggregate "total" [example_suite] = NFin (e_total ev) /\
    aggregate "passed" [example_suite] = NFin (e_passed ev) /\
    aggregate "failed" [example_suite] = NFin (e_failed ev) /\
    e_skipped ev = Z.max 0 (e_total ev - e_passed ev - e_failed ev).
Proof.
  split; [vm_compute; reflexivity|].
  apply (post_results_event_totals example_body empty_db [example_suite] (created_body 1 [1])
           (snd (post_results example_body empty_db))); [apply wf_empty_strict.. | reflexivity |].
  vm_compute. reflexivity.
Defined.

Lemma post_results_no_partial_effects_witness :
  fst (post_results bad_status_body empty_db) = RError 500 (ESql CheckViolation) /\
  same_tables empty_db (snd (post_results bad_status_body empty_db)).
Proof.
  split; [vm_compute; reflexivity|].
  apply (post_results_no_partial_effects bad_status_body empty_db (RError 500 (ESql CheckViolation))).
  - vm_compute. reflexivity.
  - intros b. discriminate.
Defined.

Lemma post_results_total_overflow_witness :
  let ss := [JObj [("suite_name", JStr "a"); ("total", JNum (2 ^ 31 - 1));
                   ("passed", JNum (2 ^ 31 - 1)); ("failed", JNum 0)];
             JObj [("suite_name", JStr "b"); ("total", JNum 1); ("passed", JNum 1);
                   ("failed", JNum 0)]] in
  let dp := snd (resolve_project JUndef (JStr "p1") (tick empty_db)) in
  post_results overflow_body empty_db = (RError 500 (ESql OutOfRange), rollback_to (tick empty_db) dp) /\
  projects (snd (post_results overflow_body empty_db)) = [] /\
  events (snd (post_results overflow_body empty_db)) = [] /\
  seq_projects (snd (post_results overflow_body empty_db)) = 1.
Proof.
  intros ss dp. split; [|vm_compute; split_and!; reflexivity].
  apply (post_results_total_overflow overflow_body empty_db ss (JNum 1) (Some 1) dp (2 ^ 31));
    vm_compute; reflexivity.
Defined.

End Ingest.
