(* ===== verification/Sums.v ===== *)
(** * The aggregate invariant: an event's counts are the sums of its runs'

    Section 3 of the specification asks that an event's [total], [passed]
    and [failed] equal the sums of the corresponding fields of its suite
    runs.  No constraint of the schema (src/server.js lines 14-71) says so;
    it holds because [post_results] inserts the event and its runs in one
    transaction from the same suites (lines 176-196), the [ROLLBACK] drops
    both, and the sweep deletes an event together with its runs
    ([ON DELETE CASCADE], line 43).  The runs are counted through the
    integers PostgreSQL stored, the event through JavaScript's [Number()]
    sums; [to_int_number] relates the two. *)

From S2P Require Import Prelude JsValue Store StoreInv Retention Ingest.
Import Js Pg PgInv Retention Ingest.

Module EventSums.

Local Open Scope Z_scope.

(** The runs of a table that belong to event [eid]. *)
Definition runs_of (eid : Z) (rs : list run) : list run :=
  List.filter (fun r => bool_decide (r_event_id r = Some eid)) rs.

Definition event_sums (rs : list run) (e : event) : Prop :=
  e_total e = sumZ r_total (runs_of (e_id e) rs) /\
  e_passed e = sumZ r_passed (runs_of (e_id e) rs) /\
  e_failed e = sumZ r_failed (runs_of (e_id e) rs).

Definition event_sums_ok (d : db) : Prop := Forall (event_sums (runs d)) (events d).

(** ** The sums through the aggregation *)

Lemma aggregate_acc k (f : run -> Z) ss rs a :
  Forall2 (fun s r => to_int (get s k) = Ok (Some (f r))) ss rs ->
  fold_left (fun acc r => num_add acc (to_number (get r k))) ss (NFin a) = NFin (a + sumZ f rs).
Proof.
  intros H. revert a. induction H as [|s r ss rs Hsr _ IH]; intros a; simpl.
  - rewrite sumZ_nil. f_equal. lia.
  - rewrite (to_int_number _ _ Hsr). simpl. rewrite IH, sumZ_cons. f_equal. lia.
Qed.

Lemma aggregate_runs k (f : run -> Z) ss rs :
  Forall2 (fun s r => to_int (get s k) = Ok (Some (f r))) ss rs ->
  aggregate k ss = NFin (sumZ f rs).
Proof. intros H. unfold aggregate. by rewrite (aggregate_acc k f ss rs 0 H). Qed.

(** ** [runs_of] on the tables the handler writes *)

Lemma runs_of_app eid xs ys : runs_of eid (xs ++ ys) = runs_of eid xs ++ runs_of eid ys.
Proof. apply List.filter_app. Qed.

Lemma runs_of_fresh eid rs :
  Forall (fun r => r_event_id r = Some eid) rs -> runs_of eid rs = rs.
Proof.
  intros H. apply filter_all. intros r Hr. rewrite List.Forall_forall in H.
  by apply bool_decide_eq_true, H.
Qed.

Lemma runs_of_none e rs :
  Forall (fun r => r_event_id r <> Some e) rs -> runs_of e rs = [].
Proof.
  induction 1 as [|r rs Hr _ IH]; [done|]. unfold runs_of in *. simpl.
  by rewrite bool_decide_eq_false_2.
Qed.

(** Runs whose event exists in [d] belong to none of the ids above them. *)
Lemma runs_of_above d rs eid :
  Forall (fun e => e_id e < eid) (events d) ->
  Forall (fun r => fk_ok event_exists (r_event_id r) d) rs ->
  runs_of eid rs = [].
Proof.
  intros Hlt Hfk. apply runs_of_none. eapply Forall_impl; [exact Hfk|].
  intros r Hr Heq. unfold fk_ok in Hr. rewrite Heq in Hr. apply existsb_exists in Hr as (e & He & Hid%Z.eqb_eq).
  rewrite List.Forall_forall in Hlt. specialize (Hlt e He). lia.
Qed.

Lemma event_sums_ok_tables d d' :
  events d' = events d -> runs d' = runs d -> event_sums_ok d -> event_sums_ok d'.
Proof. unfold event_sums_ok. by intros -> ->. Qed.

(** ** Summing by event *)

Lemma runs_of_cons eid r rs :
  runs_of eid (r :: rs) =
  (if bool_decide (r_event_id r = Some eid) then [r] else []) ++ runs_of eid rs.
Proof. unfold runs_of. simpl. by case_bool_decide. Qed.

(** An amount counted for the one event with a given id. *)
Lemma sumZ_single es k c :
  NoDup (map e_id es) -> In k (map e_id es) ->
  sumZ (fun e => if bool_decide (Some k = Some (e_id e)) then c else 0) es = c.
Proof.
  induction es as [|e es IH]; simpl; [done|]. intros [Hn Hnd]%NoDup_cons Hk.
  rewrite sumZ_cons. case_bool_decide as He.
  - injection He as ->. rewrite sumZ_zero; [lia|]. intros e' He'. rewrite bool_decide_eq_false_2; [done|].
    intros [= Heq]. apply Hn, list_elem_of_In, in_map_iff. eauto.
  - destruct Hk as [Heq|Hk]; [rewrite Heq in He; congruence|]. rewrite IH; [lia|done..].
Qed.

(** The runs of all the events are all the runs, when each run belongs to
    one of the events and event ids are distinct. *)
Lemma runs_partition (f : run -> Z) es rs :
  NoDup (map e_id es) ->
  Forall (fun r => exists e, In e es /\ r_event_id r = Some (e_id e)) rs ->
  sumZ (fun e => sumZ f (runs_of (e_id e) rs)) es = sumZ f rs.
Proof.
  intros Hnd. induction 1 as [|r rs (e0 & He0 & Hr) _ IH].
  - apply sumZ_zero. intros e _. done.
  - rewrite sumZ_cons, <- IH.
    rewrite (sumZ_ext_in _ (fun e => (if bool_decide (Some (e_id e0) = Some (e_id e)) then f r else 0) +
                                      sumZ f (runs_of (e_id e) rs))).
    + rewrite sumZ_plus, sumZ_single; [done..|]. apply in_map_iff. eauto.
    + intros e _. rewrite runs_of_cons, sumZ_app, Hr. f_equal.
      case_bool_decide; rewrite ?sumZ_cons, ?sumZ_nil; lia.
Qed.

(** Under the aggregate invariant, the events' counts add up to the runs'. *)
Lemma event_totals_runs d :
  event_sums_ok d -> NoDup (map e_id (events d)) ->
  Forall (fun r => exists e, In e (events d) /\ r_event_id r = Some (e_id e)) (runs d) ->
  sumZ e_total (events d) = sumZ r_total (runs d) /\
  sumZ e_passed (events d) = sumZ r_passed (runs d) /\
  sumZ e_failed (events d) = sumZ r_failed (runs d).
Proof.
  intros Hs Hnd Hre. rewrite <- !(runs_partition _ (events d) (runs d)) by done.
  unfold event_sums_ok in Hs. rewrite List.Forall_forall in Hs.
  split_and!; apply sumZ_ext_in; intros e He; apply Hs, He.
Qed.

(** ** The committed transaction *)

(** The new event's counts are its new runs' sums, and the old events keep
    their runs. *)
Lemma ingest_txn_sums ss body d eid rids res d1 :
  wf d -> event_sums_ok d -> ingest_txn ss body (tick d) = (Ok (eid, rids, res), d1) ->
  event_sums_ok d1.
Proof.
  intros Hwf Hsum Htx.
  pose proof (stmt_ok_ingest_txn ss body (tick d) (wf_tick d Hwf)) as [Hwf1 _].
  rewrite Htx in Hwf1. simpl in Hwf1.
  apply ingest_txn_ok in Htx as (dp & ev & rs & Hres & _ & _ & Hid & _ & _ & Ht & Hp & Hf & _ & _ &
                                  Hrs & _ & Hev & Hruns & _).
  pose proof (stmt_ok_resolve_project (get body "project_id") (get body "project_name")
                (tick d) (wf_tick d Hwf)) as [Hwfp _].
  rewrite Hres in Hwfp. simpl in Hwfp.
  apply resolve_project_tables in Hres as (Hevp & Hrunp & _). simpl in Hevp, Hrunp.
  assert (Hlt : Forall (fun e => e_id e < eid) (events dp)).
  { destruct (wf_events _ Hwf1) as [Hsort _]. rewrite Hev in Hsort.
    apply Forall_forall. intros e He. subst eid.
    eapply (StronglySorted_app_1_elem_of _ _ _ e ev Hsort); [done | by left]. }
  assert (Hold : runs_of eid (runs dp) = []) by (eapply runs_of_above, wf_run_event, Hwfp; done).
  pose proof (Forall2_r _ (fun r => r_event_id r = Some eid) _ _ (fun _ _ H => proj2 (proj2 (proj2 H))) Hrs)
    as Hnew.
  unfold event_sums_ok. rewrite Hev, Hruns. apply Forall_app. split.
  - unfold event_sums_ok in Hsum. rewrite <- Hevp, <- Hrunp in Hsum.
    apply Forall_forall. intros e He.
    apply (List.Forall_forall _ _) with (x := e) in Hsum; [|by apply list_elem_of_In].
    apply (List.Forall_forall _ _) with (x := e) in Hlt; [|by apply list_elem_of_In].
    unfold event_sums. rewrite runs_of_app, (runs_of_none (e_id e) rs), app_nil_r; [done|].
    eapply Forall_impl; [exact Hnew|]. intros r ->. intros [= ?]. lia.
  - apply Forall_singleton. unfold event_sums.
    rewrite Hid, runs_of_app, Hold, runs_of_fresh by done. simpl.
    rewrite (aggregate_runs "total" r_total ss rs) in Ht;
      [|eapply Forall2_impl; [exact Hrs|]; intros ?? (H&_); exact H].
    rewrite (aggregate_runs "passed" r_passed ss rs) in Hp;
      [|eapply Forall2_impl; [exact Hrs|]; intros ?? (_&H&_); exact H].
    rewrite (aggregate_runs "failed" r_failed ss rs) in Hf;
      [|eapply Forall2_impl; [exact Hrs|]; intros ?? (_&_&H&_); exact H].
    split_and!; congruence.
Qed.

(** ** The sweep *)

(** Deleting events with their runs keeps the sums of the events left: an
    event that stays keeps every run that belongs to it. *)
Lemma event_sums_ok_delete ids d : event_sums_ok d -> event_sums_ok (delete_events ids d).
Proof.
  unfold event_sums_ok, delete_events. simpl. intros H.
  apply Forall_forall. intros e (He & Hnot)%list_elem_of_In%filter_In.
  apply (List.Forall_forall _ _) with (x := e) in H; [|done].
  apply negb_true_iff, bool_decide_eq_false in Hnot.
  unfold event_sums, runs_of in *. rewrite filter_comm, filter_all; [done|].
  intros r (_ & Hr%bool_decide_eq_true)%filter_In. rewrite Hr.
  by apply negb_true_iff, bool_decide_eq_false.
Qed.

(** Every run of the handler keeps the aggregate invariant of the
    specification: each event's [total], [passed] and [failed] are the sums
    of those of its suite runs, through a rollback, a commit and the sweep
    after it. *)
Lemma post_results_sums body d r d' :
  wf d -> event_sums_ok d -> post_results body d = (r, d') -> event_sums_ok d'.
Proof.
  intros Hwf Hsum H. apply post_results_cases in H
    as [[-> _]|[(ss & e & d1 & _ & _ & _ & _ & ->)|(ss & eid & rids & res & d1 & _ & _ & Htx & _ & ->)]].
  - done.
  - by eapply event_sums_ok_tables; [..|exact Hsum].
  - apply ingest_txn_sums in Htx; [|done..]. destruct (truthy res); [|done].
    destruct (pruneEvents_state res d1) as [->|[ids ->]]; [done | by apply event_sums_ok_delete].
Qed.

End EventSums.
