(* ===== verification/Payload.v ===== *)
(** * The two request shapes and the validation of POST /api/results

    Lines 143-159 of src/server.js: a non-empty [suites] array is taken as
    is, else the flat legacy fields make a one-suite array, else the
    request is answered 400; then every suite is checked for its four
    required fields.  This file states what the specification asks of that
    boundary (section 4.1, steps 1 and 7, and section 8): a malformed
    payload is a client error with no side effect, and the legacy shape
    gives one suite run.  It also shows where the code departs from it: a
    [null] entry of [suites] is not a client error but a [TypeError] thrown
    outside the [try] block. *)

From S2P Require Import Prelude JsValue Store StoreInv Retention Ingest.
Import Js Pg PgInv Ingest.

Module Payload.

Local Open Scope Z_scope.

(** The specification's "suite missing [suite_name], [total], [passed] or
    [failed]": absent, or read as absent by the code's tests. *)
Definition suite_missing (s : jsval) : bool :=
  nullish s || negb (truthy (get s "suite_name")) || nullish (get s "total")
  || nullish (get s "passed") || nullish (get s "failed").

(** The suites the legacy shape builds (line 150). *)
Definition legacy_suite (body : jsval) : jsval :=
  JObj [("suite_name", get body "suite_name"); ("total", get body "total");
        ("passed", get body "passed"); ("failed", get body "failed"); ("cases", get body "cases")].

(** [Array.isArray(suites) && suites.length > 0] (line 147). *)
Definition has_suites (body : jsval) : bool :=
  match get body "suites" with JArr (_ :: _) => true | _ => false end.

(** The same request with [suites] set to [ss]: [JSON.parse] keeps the
    last of duplicated keys, so appending the field overrides it. *)
Definition with_suites (body : jsval) (ss : list jsval) : jsval :=
  match body with JObj fs => JObj (fs ++ [("suites", JArr ss)]) | _ => body end.

Lemma prop_get o k : nullish o = false -> prop o k = Some (get o k).
Proof. by destruct o. Qed.

(** The loop of lines 155-159 accepts exactly the arrays in which no suite
    is missing a field. *)
Lemma validate_Valid ss : validate ss = Valid <-> existsb suite_missing ss = false.
Proof.
  induction ss as [|s ss IH]; simpl; [done|].
  destruct (nullish s) eqn:Hn; [by destruct s|].
  rewrite prop_get by done. unfold suite_missing. rewrite Hn. simpl.
  destruct (negb (truthy (get s "suite_name")) || _ || _ || _); [done|]. exact IH.
Qed.

Lemma suites_of_body_legacy body ss :
  has_suites body = false -> suites_of_body body = Some ss -> ss = [legacy_suite body].
Proof.
  unfold has_suites, suites_of_body, legacy_suite. intros Hns.
  repeat case_match; intros; congruence.
Qed.

(** Validation stops at the first suite missing a field: it throws when
    that suite is nullish and answers 400 otherwise. *)
Lemma validate_first ss s :
  List.find suite_missing ss = Some s -> validate ss = if nullish s then Throws else Invalid.
Proof.
  induction ss as [|s' ss IH]; simpl; [discriminate|].
  destruct (nullish s') eqn:Hn.
  - unfold suite_missing at 1. rewrite Hn. intros [= <-]. rewrite Hn. by destruct s'.
  - rewrite prop_get by done. unfold suite_missing at 1. rewrite Hn. simpl.
    destruct (negb (truthy (get s' "suite_name")) || _ || _ || _); [|exact IH].
    intros [= <-]. by rewrite Hn.
Qed.

(** C13: a malformed payload, one that matches neither shape or has a suite
    missing a required field, changes no table and is answered with a 400
    or, for a suite that is [null] or [undefined], the [TypeError]: no
    transaction is opened. *)
Theorem post_results_malformed body d r d' :
  (suites_of_body body = None \/
   exists ss, suites_of_body body = Some ss /\ existsb suite_missing ss = true) ->
  post_results body d = (r, d') ->
  d' = d /\ (r = RJson 400 (error_body msg_missing) \/ r = RJson 400 (error_body msg_suite) \/
             r = Unhandled ETypeError).
Proof.
  unfold post_results. intros [Hn|(ss & Hss & Hm)] H.
  - rewrite Hn in H. injection H as <- <-. auto.
  - rewrite Hss in H. destruct (validate ss) eqn:Hv.
    + apply validate_Valid in Hv. congruence.
    + injection H as <- <-. auto.
    + injection H as <- <-. auto.
Qed.

(** C26: a request whose suites fail validation gets the outcome of the
    first suite missing a field, with no table changed: 400 when that suite
    is an object, but when it is [null] or [undefined] reading
    [suite.suite_name] throws a [TypeError] before the [try] block, which
    the Express 4 router does not catch. *)
Theorem post_results_first_missing body ss s d :
  suites_of_body body = Some ss -> List.find suite_missing ss = Some s ->
  post_results body d =
    (if nullish s then Unhandled ETypeError else RJson 400 (error_body msg_suite), d).
Proof.
  intros Hss Hs. unfold post_results. rewrite Hss, (validate_first ss s Hs).
  by destruct (nullish s).
Qed.

(** C25: the legacy flat shape gives exactly one suite run: the 201 body
    lists one run id, that run belongs to the new event, and the event's
    counts are the flat fields' [Number()] values, equal to the run's. *)
Theorem post_results_legacy body d r d' :
  wf d -> events_strict d -> has_suites body = false ->
  post_results body d = (RJson 201 r, d') ->
  exists ev run, In ev (events d') /\ get r "run_ids" = JArr [JNum (r_id run)] /\
    r_event_id run = Some (e_id ev) /\
    to_number (get body "total") = NFin (e_total ev) /\ r_total run = e_total ev /\
    to_number (get body "passed") = NFin (e_passed ev) /\ r_passed run = e_passed ev /\
    to_number (get body "failed") = NFin (e_failed ev) /\ r_failed run = e_failed ev.
Proof.
  intros Hwf Hs Hns H.
  destruct (post_results_created body d r d' Hwf Hs H)
    as (ss & ev & rs & Hss & -> & Hin & Hrs & Ht & Hp & Hf & _).
  apply suites_of_body_legacy in Hss as ->; [|done].
  apply Forall2_cons_inv_l in Hrs as (run & rs' & (Ht' & Hp' & Hf' & He) & ->%Forall2_nil_inv_l & ->).
  apply to_int_number in Ht', Hp', Hf'.
  change (get (legacy_suite body) "total") with (get body "total") in Ht'.
  change (get (legacy_suite body) "passed") with (get body "passed") in Hp'.
  change (get (legacy_suite body) "failed") with (get body "failed") in Hf'.
  change (aggregate "total" [legacy_suite body]) with (num_add (NFin 0) (to_number (get body "total"))) in Ht.
  change (aggregate "passed" [legacy_suite body]) with (num_add (NFin 0) (to_number (get body "passed"))) in Hp.
  change (aggregate "failed" [legacy_suite body]) with (num_add (NFin 0) (to_number (get body "failed"))) in Hf.
  rewrite Ht' in Ht. rewrite Hp' in Hp. rewrite Hf' in Hf. simpl in Ht, Hp, Hf.
  rewrite !Z.add_0_l in Ht, Hp, Hf. injection Ht as Ht. injection Hp as Hp. injection Hf as Hf.
  exists ev, run. split_and!; try congruence. reflexivity.
Qed.

(** ** The legacy shape is the one-suite shape *)

Lemma field_snoc fs k k' v : field (fs ++ [(k', v)]) k = if String.eqb k' k then v else field fs k.
Proof. unfold field. by rewrite fold_left_app. Qed.

Lemma get_with_suites fs ss k :
  get (with_suites (JObj fs) ss) k = if String.eqb "suites" k then JArr ss else get (JObj fs) k.
Proof. unfold get, prop, with_suites. by rewrite field_snoc. Qed.

Lemma suites_of_body_obj body ss : suites_of_body body = Some ss -> exists fs, body = JObj fs.
Proof. unfold suites_of_body. destruct body; simpl; try discriminate; eauto. Qed.

(** [ingest_txn] reads the body through four keys only. *)
Lemma ingest_txn_body ss b b' :
  (forall k, k <> "suites" -> get b' k = get b k) -> ingest_txn ss b' = ingest_txn ss b.
Proof. intros H. unfold ingest_txn. by rewrite !H. Qed.

(** C12: backward compatibility of lines 147-150.  A request in the flat
    legacy shape is handled exactly as the same request whose [suites] is
    the one suite built from its flat fields: the same answer and the same
    database afterwards, whatever the state. *)
Theorem post_results_legacy_equiv body d :
  has_suites body = false -> suites_of_body body <> None ->
  post_results body d = post_results (with_suites body [legacy_suite body]) d.
Proof.
  intros Hns Hs. destruct (suites_of_body body) as [ss|] eqn:Hss; [|done].
  destruct (suites_of_body_obj _ _ Hss) as [fs ->].
  pose proof (suites_of_body_legacy _ _ Hns Hss) as ->.
  unfold post_results. rewrite Hss.
  assert (suites_of_body (with_suites (JObj fs) [legacy_suite (JObj fs)]) = Some [legacy_suite (JObj fs)])
    as -> by (unfold suites_of_body; by rewrite get_with_suites).
  rewrite (ingest_txn_body _ (JObj fs) (with_suites (JObj fs) [legacy_suite (JObj fs)])); [done|].
  intros k Hk. rewrite get_with_suites. destruct (String.eqb_spec "suites" k); congruence.
Qed.

(** ** Witnesses *)

Definition missing_total_body : jsval :=
  JObj [("project_name", JStr "p1");
        ("suites", JArr [JObj [("suite_name", JStr "a"); ("passed", JNum 1); ("failed", JNum 0)]])].

Lemma post_results_malformed_witness :
  snd (post_results missing_total_body Retention.example_db) = Retention.example_db /\
  fst (post_results missing_total_body Retention.example_db) = RJson 400 (error_body msg_suite).
Proof.
  pose proof (post_results_malformed missing_total_body Retention.example_db
                (fst (post_results missing_total_body Retention.example_db))
                (snd (post_results missing_total_body Retention.example_db))) as H.
  destruct H as [-> _]; [right; eexists; split; reflexivity | apply surjective_pairing |].
  split; reflexivity.
Defined.

Definition null_suite_body : jsval := JObj [("project_name", JStr "p1"); ("suites", JArr [JNull])].

Lemma post_results_first_missing_witness :
  post_results null_suite_body Retention.example_db = (Unhandled ETypeError, Retention.example_db) /\
  post_results missing_total_body Retention.example_db =
    (RJson 400 (error_body msg_suite), Retention.example_db).
Proof.
  split.
  - by apply (post_results_first_missing null_suite_body [JNull] JNull).
  - by apply (post_results_first_missing missing_total_body
                [JObj [("suite_name", JStr "a"); ("passed", JNum 1); ("failed", JNum 0)]]
                (JObj [("suite_name", JStr "a"); ("passed", JNum 1); ("failed", JNum 0)])).
Defined.

Definition legacy_body : jsval :=
  JObj [("project_name", JStr "p1"); ("suite_name", JStr "a"); ("total", JNum 2);
        ("passed", JNum 1); ("failed", JNum 1)].

Lemma post_results_legacy_witness :
  post_results legacy_body empty_db = (RJson 201 (created_body 1 [1]), snd (post_results legacy_body empty_db)) /\
  exists ev run, In ev (events (snd (post_results legacy_body empty_db))) /\
    get (created_body 1 [1]) "run_ids" = JArr [JNum (r_id run)] /\ r_event_id run = Some (e_id ev) /\
    to_number (get legacy_body "total") = NFin (e_total ev) /\ r_total run = e_total ev /\
    to_number (get legacy_body "passed") = NFin (e_passed ev) /\ r_passed run = e_passed ev /\
    to_number (get legacy_body "failed") = NFin (e_failed ev) /\ r_failed run = e_failed ev.
Proof.
  split; [vm_compute; reflexivity|].
  apply (post_results_legacy legacy_body empty_db _ (snd (post_results legacy_body empty_db)));
    [apply wf_empty_strict.. | reflexivity | vm_compute; reflexivity].
Defined.

Lemma post_results_legacy_equiv_witness :
  fst (post_results legacy_body Retention.example_db) = RJson 201 (created_body 9 [1]) /\
  post_results legacy_body Retention.example_db =
    post_results (with_suites legacy_body [legacy_suite legacy_body]) Retention.example_db.
Proof.
  split; [vm_compute; reflexivity|].
  by apply post_results_legacy_equiv.
Defined.

End Payload.
