(* ===== verification/Projects.v ===== *)
(** * Project registration: POST /api/projects (src/server.js lines 92-109)

    The handler answers 400 when [name] is falsy, else runs one autocommit
    [INSERT ... RETURNING *].  A unique violation (23505) is answered 409;
    any other store error is rethrown from the async handler, which
    Express 4 does not catch: no response is sent ([Unhandled]).  Such
    errors are a text parameter with a NUL byte, which the server refuses
    (22021), and the exhaustion of the [SERIAL] sequence. *)

From S2P Require Import Prelude JsValue Store StoreInv Retention Ingest.
Import Js Pg PgInv Ingest.

Module Projects.

Local Open Scope Z_scope.

Definition msg_name : string := "Missing required field: name".
Definition msg_exists : string := "Project already exists".

Definition opt_json (o : option string) : jsval :=
  match o with Some s => JStr s | None => JNull end.

(** The row [RETURNING *] sends back; the [created_at] timestamp is
    represented by the clock value of the statement. *)
Definition project_json (p : project) : jsval :=
  JObj [("id", JNum (p_id p)); ("name", JStr (p_name p));
        ("description", opt_json (p_description p)); ("repo_url", opt_json (p_repo_url p));
        ("created_at", JNum (p_created_at p))].

(** The handler; the statement runs in a transaction of its own ([tick]). *)
Definition post_projects (body : jsval) (d : db) : response * db :=
  let name := get body "name" in
  if negb (truthy name) then (RJson 400 (error_body msg_name), d)
  else
    match insert_project name (or_else (get body "description") JNull)
                         (or_else (get body "repo_url") JNull) (tick d) with
    | (Ok p, d') => (RJson 201 (project_json p), d')
    | (Err UniqueViolation, d') => (RJson 409 (error_body msg_exists), d')
    | (Err e, d') => (Unhandled (ESql e), d')
    end.

(** ** Lemmas *)

Lemma to_str_truthy v : truthy v = true -> exists s, to_str v = Some s.
Proof. destruct v; simpl; try discriminate; eauto. Qed.

(** The outcomes the handler promises: 400 for a falsy name with nothing
    changed; the error of a text parameter that does not bind (a NUL byte),
    or of the exhausted sequence, rethrown with no table changed; else 201
    with the new row, or 409 with no table changed. *)
Definition projects_outcome (body : jsval) (d : db) (r : response) (d' : db) : Prop :=
  let name := get body "name" in
  let desc := or_else (get body "description") JNull in
  let repo := or_else (get body "repo_url") JNull in
  let texts := text_ok name && text_ok desc && text_ok repo in
  (truthy name = false /\ r = RJson 400 (error_body msg_name) /\ d' = d) \/
  (truthy name = true /\ texts = false /\ r = Unhandled (ESql CharNotInRepertoire) /\ same_tables d d') \/
  (truthy name = true /\ texts = true /\ int32_max <= seq_projects d /\
   r = Unhandled (ESql SeqLimit) /\ same_tables d d') \/
  (exists n, to_str name = Some n /\ truthy name = true /\ texts = true /\ seq_projects d < int32_max /\
     ((find_project_by_name n d = None /\
       let p := mkProject (seq_projects d + 1) n (to_str desc) (to_str repo) (clock d + 1) in
       r = RJson 201 (project_json p) /\ projects d' = projects d ++ [p] /\
       events d' = events d /\ runs d' = runs d /\ cases d' = cases d) \/
      (find_project_by_name n d <> None /\ r = RJson 409 (error_body msg_exists) /\
       same_tables d d'))).

(** C14: the handler answers 400 to a falsy name and changes nothing; it
    rethrows, unhandled and with no table changed, the error of a name,
    description or repo_url that does not bind and of an exhausted
    sequence; else it registers a new name with the next id and answers
    201 with the row, or answers 409 to a name already registered with no
    table changed. *)
Theorem post_projects_spec body d r d' :
  post_projects body d = (r, d') -> projects_outcome body d r d'.
Proof.
  unfold post_projects, projects_outcome. destruct (truthy (get body "name")) eqn:Ht; simpl.
  2: { intros [= <- <-]. by left. }
  destruct (to_str_truthy _ Ht) as [n Hn].
  unfold insert_project, atomic, sbind, nextval_projects, lift, not_null, bind_text.
  destruct (text_ok (get body "name")), (text_ok (or_else (get body "description") JNull)),
    (text_ok (or_else (get body "repo_url") JNull)); simpl;
    try (intros [= <- <-]; right; left; split_and!; [done..| by split_and!]).
  destruct (Z.ltb_spec (seq_projects d) int32_max) as [Hlt|Hge]; simpl.
  - rewrite Hn. unfold find_project_by_name. simpl. intros H. right; right; right. exists n.
    split_and!; [done..|].
    destruct (List.find _ (projects d)) eqn:Hf; simpl in H; injection H as <- <-.
    + right. split_and!; [congruence | done | by split_and!].
    + left. by split_and!.
  - intros [= <- <-]. right; right; left. split_and!; [done | done | lia | done | by split_and!].
Qed.

Definition dup_body : jsval := JObj [("name", JStr "p1"); ("repo_url", JStr "")].

Lemma post_projects_spec_witness :
  fst (post_projects dup_body Retention.example_db) = RJson 409 (error_body msg_exists) /\
  projects_outcome dup_body Retention.example_db (fst (post_projects dup_body Retention.example_db))
    (snd (post_projects dup_body Retention.example_db)).
Proof.
  split; [vm_compute; reflexivity|].
  apply (post_projects_spec dup_body Retention.example_db). apply surjective_pairing.
Defined.

End Projects.
