(* ===== verification/Server.v ===== *)
(** * The server as a state machine

    Two handlers write: POST /api/results ([post_results], Ingest.v) and
    POST /api/projects ([post_projects], Projects.v); the GET handlers
    only read (Queries.v).  In this model each request runs to completion
    before the next one starts, and the state is the database [initDb]
    creates empty, so the states the server can be in are those reached
    from [empty_db] by a sequence of writing requests: the relation
    [reachable], or equivalently the final state of [serve].  Every such
    state satisfies the store invariant, the aggregate invariant of the
    specification and its retention ceiling of five events per project. *)

From S2P Require Import Prelude JsValue Store StoreInv Retention Ingest Sums Projects.
Import Js Pg PgInv Retention Ingest EventSums Projects.

Module Server.

Local Open Scope Z_scope.

Inductive request : Type :=
| PostResults (body : jsval)
| PostProjects (body : jsval).

Definition handle (q : request) (d : db) : response * db :=
  match q with
  | PostResults b => post_results b d
  | PostProjects b => post_projects b d
  end.

(** A sequence of requests served one after the other. *)
Fixpoint serve (qs : list request) (d : db) : list response * db :=
  match qs with
  | [] => ([], d)
  | q :: qs' =>
      let (r, d1) := handle q d in
      let (rs, d2) := serve qs' d1 in (r :: rs, d2)
  end.

Inductive reachable : db -> Prop :=
| reach_init : reachable empty_db
| reach_step q d : reachable d -> reachable (snd (handle q d)).

(** The retention ceiling of section 3 of the specification. *)
Definition ceiling (d : db) : Prop := forall p, (length (project_events p d) <= keep)%nat.

Record server_inv (d : db) : Prop := {
  si_wf : wf d;
  si_strict : events_strict d;
  si_sums : event_sums_ok d;
  si_seq : 0 <= seq_projects d;
  si_ids : Forall (fun p => 0 < p_id p) (projects d);
  si_ceiling : ceiling d;
  si_run_event : Forall (fun r => r_event_id r <> None) (runs d) }.

(** ** Sequences of requests *)

Lemma serve_reachable qs d : reachable d -> reachable (snd (serve qs d)).
Proof.
  revert d. induction qs as [|q qs IH]; intros d Hd; simpl; [done|].
  destruct (handle q d) as [r d1] eqn:Hh. destruct (serve qs d1) as [rs d2] eqn:Hs.
  change d2 with (snd (rs, d2)). rewrite <- Hs. apply IH.
  change d1 with (snd (r, d1)). rewrite <- Hh. by constructor.
Qed.

(** ** POST /api/projects *)

Lemma insert_project_tables name desc repo d r d' :
  insert_project name desc repo d = (r, d') ->
  events d' = events d /\ runs d' = runs d /\ cases d' = cases d /\ mono d d' /\
  (projects d' = projects d \/ exists p, p_id p = seq_projects d + 1 /\ projects d' = projects d ++ [p]).
Proof.
  unfold insert_project, atomic. intros H. run_db.
  all: split_and!; try done; try (unfold mono, rollback_to; simpl; lia).
  all: first [by left | right; eexists; split; [|reflexivity]; done].
Qed.

Lemma post_projects_state body d r d' :
  post_projects body d = (r, d') ->
  d' = d \/ exists name desc repo r', insert_project name desc repo (tick d) = (r', d').
Proof.
  unfold post_projects. destruct (negb _); [intros [= _ <-]; by left|].
  destruct (insert_project _ _ _ (tick d)) as [r' d1] eqn:Hi. intros Hp. right.
  assert (d1 = d') as <- by (destruct r' as [|[]]; by injection Hp).
  do 4 eexists. exact Hi.
Qed.

Lemma post_projects_inv body d r d' :
  server_inv d -> post_projects body d = (r, d') -> server_inv d'.
Proof.
  intros Hi H. destruct (post_projects_state body d r d' H) as [->|(n & de & re & r' & Hp)]; [done|].
  pose proof (insert_project_wf n de re (tick d) (wf_tick d (si_wf _ Hi))) as [Hwf _].
  rewrite Hp in Hwf. simpl in Hwf.
  apply insert_project_tables in Hp as (He & Hr & _ & Hm & Hps). simpl in He, Hr, Hps.
  destruct Hi as [_ Hs Hsum Hseq Hids Hc Hre]. unfold mono in Hm. simpl in Hm.
  constructor; try done.
  - unfold events_strict. by rewrite He.
  - by eapply event_sums_ok_tables.
  - lia.
  - destruct Hps as [->|(p & Hid & ->)]; [done|]. apply Forall_app. split; [done|].
    constructor; [lia|constructor].
  - intros q. unfold project_events. rewrite He. apply Hc.
  - by rewrite Hr.
Qed.

(** ** POST /api/results *)

Lemma pruneEvents_projects res d : projects (snd (pruneEvents res d)) = projects d.
Proof. by destruct (pruneEvents_state res d) as [->|[ids ->]]. Qed.

Lemma post_results_mono body d r d' : wf d -> post_results body d = (r, d') -> mono d d'.
Proof.
  intros Hwf H. apply post_results_cases in H
    as [[-> _]|[(ss & e & d1 & _ & _ & Htx & _ & ->)|(ss & eid & rids & res & d1 & _ & _ & Htx & _ & ->)]].
  - reflexivity.
  - pose proof (stmt_ok_ingest_txn ss body (tick d) (wf_tick d Hwf)) as [_ Hm].
    rewrite Htx in Hm. simpl in Hm. unfold mono in *. simpl in *. lia.
  - pose proof (stmt_ok_ingest_txn ss body (tick d) (wf_tick d Hwf)) as [Hwf1 Hm].
    rewrite Htx in Hwf1, Hm. simpl in Hwf1, Hm. transitivity (tick d); [apply mono_tick|].
    transitivity d1; [done|]. destruct (truthy res); [|reflexivity].
    destruct (pruneEvents_state res d1) as [->|[ids ->]]; [reflexivity | apply delete_events_mono].
Qed.

(** The only project a request for results can add is the upserted one,
    with the next id. *)
Lemma post_results_projects body d r d' :
  post_results body d = (r, d') ->
  projects d' = projects d \/ exists p, p_id p = seq_projects d + 1 /\ projects d' = projects d ++ [p].
Proof.
  intros H. apply post_results_cases in H
    as [[-> _]|[(ss & e & d1 & _ & _ & _ & _ & ->)|(ss & eid & rids & res & d1 & _ & _ & Htx & _ & ->)]];
    [by left | by left |].
  apply ingest_txn_ok in Htx as (dp & ev & rs & Hres & _ & _ & _ & _ & _ & _ & _ & _ & _ & _ & _ & Hpr & _).
  assert (Hd1 : projects d1 = projects d \/
                exists p, p_id p = seq_projects d + 1 /\ projects d1 = projects d ++ [p]).
  { rewrite Hpr. apply resolve_project_ok in Hres as [[-> _]|(k & _ & _ & Hu)]; [by left|].
    apply upsert_project_ok in Hu as (_ & _ & _ & _ & _ & n & _ & [(p & _ & _ & ->)|(_ & -> & ->)]);
      [by left | right; eexists; split; [|reflexivity]; done]. }
  destruct (truthy res); [|done]. by rewrite pruneEvents_projects.
Qed.

(** A project the request resolves to is truthy: ids start at 1. *)
Lemma resolve_truthy d pid pname res dp q :
  0 <= seq_projects d -> Forall (fun p => 0 < p_id p) (projects d) ->
  resolve_project pid pname d = (Ok res, dp) -> to_int res = Ok (Some q) -> truthy res = true.
Proof.
  intros Hseq Hids Hres Hq. apply resolve_project_ok in Hres as [[_ ->]|(k & -> & _ & Hu)].
  - unfold or_else in *. destruct (truthy pid) eqn:Ht; [done|]. discriminate.
  - simpl. apply negb_true_iff, Z.eqb_neq.
    apply upsert_project_ok in Hu as (_ & _ & _ & _ & _ & n & _ & [(p & Hf & <- & _)|(_ & -> & _)]);
      [|lia].
    apply List.find_some in Hf as [Hin _]. rewrite List.Forall_forall in Hids. specialize (Hids p Hin). lia.
Qed.

Lemma length_prune_le res d1 q :
  (length (project_events q (if truthy res then snd (pruneEvents res d1) else d1)) <=
   length (project_events q d1))%nat.
Proof.
  destruct (truthy res); [|done]. destruct (pruneEvents_state res d1) as [->|[ids ->]]; [done|].
  rewrite project_events_delete. apply length_filter_le.
Qed.

(** The sweep after the commit brings the project of the new event back
    under the ceiling; the other projects gain no event. *)
Lemma post_results_ceiling body d r d' : server_inv d -> post_results body d = (r, d') -> ceiling d'.
Proof.
  intros [Hwf Hs _ Hseq Hids Hc _] H. apply post_results_cases in H
    as [[-> _]|[(ss & e & d1 & _ & _ & _ & _ & ->)|(ss & eid & rids & res & d1 & _ & _ & Htx & _ & ->)]];
    [done | intros q; apply Hc |].
  destruct (ingest_txn_inv ss body d eid rids res d1 Hwf Hs Htx) as [Hwf1 Hs1].
  apply ingest_txn_ok in Htx as (dp & ev & rs & Hres & Hpid & _ & _ & _ & _ & _ & _ & _ & _ & _ & _ & _ & Hev & _).
  pose proof (resolve_project_tables _ _ _ _ _ Hres) as (Hevp & _ & _). simpl in Hevp.
  intros q. destruct (decide (e_project_id ev = Some q)) as [Hq|Hq].
  - assert (Ht : truthy res = true).
    { eapply resolve_truthy; [| |exact Hres|]; simpl; [done | done | by rewrite Hpid, Hq]. }
    rewrite Ht, (pruneEvents_project_events res q d1 Hwf1 Hs1) by congruence.
    rewrite length_lastn. lia.
  - etransitivity; [apply length_prune_le|].
    assert (project_events q d1 = project_events q d) as ->; [|apply Hc].
    unfold project_events. rewrite Hev, Hevp, List.filter_app. simpl.
    rewrite bool_decide_eq_false_2 by done. by rewrite app_nil_r.
Qed.

(** Every run the handler inserts names its event. *)
Lemma post_results_run_event body d r d' :
  post_results body d = (r, d') ->
  Forall (fun r => r_event_id r <> None) (runs d) -> Forall (fun r => r_event_id r <> None) (runs d').
Proof.
  intros H Hre. apply post_results_cases in H
    as [[-> _]|[(ss & e & d1 & _ & _ & _ & _ & ->)|(ss & eid & rids & res & d1 & _ & _ & Htx & _ & ->)]];
    [done | done |].
  apply ingest_txn_ok in Htx as (dp & ev & rs & Hres & _ & _ & _ & _ & _ & _ & _ & _ & _ & _ & Hrs & _ & _ & Hruns & _).
  pose proof (resolve_project_tables _ _ _ _ _ Hres) as (_ & Hrp & _). simpl in Hrp.
  assert (Hre1 : Forall (fun r => r_event_id r <> None) (runs d1)).
  { rewrite Hruns, Hrp. apply Forall_app. split; [done|].
    eapply Forall2_r; [|exact Hrs]. intros s run (_ & _ & _ & ->). done. }
  destruct (truthy res); [|done].
  destruct (pruneEvents_state res d1) as [->|[ids ->]]; [done|]. by apply Forall_filter_weak.
Qed.

Lemma post_results_server_inv body d r d' :
  server_inv d -> post_results body d = (r, d') -> server_inv d'.
Proof.
  intros Hi H. pose proof Hi as [Hwf Hs Hsum Hseq Hids _ Hre].
  destruct (post_results_wf body d r d' Hwf Hs H) as [Hwf' Hs'].
  pose proof (post_results_mono body d r d' Hwf H) as Hm. unfold mono in Hm.
  constructor; try done.
  - exact (post_results_sums body d r d' Hwf Hsum H).
  - lia.
  - destruct (post_results_projects body d r d' H) as [->|(p & Hid & ->)]; [done|].
    apply Forall_app. split; [done|]. constructor; [lia | constructor].
  - exact (post_results_ceiling body d r d' Hi H).
  - exact (post_results_run_event body d r d' H Hre).
Qed.

(** ** Every reachable state *)

Lemma server_inv_empty : server_inv empty_db.
Proof.
  constructor; [apply wf_empty | constructor | constructor | simpl; lia | constructor | | constructor].
  intros p. simpl. lia.
Qed.

Lemma server_inv_handle q d : server_inv d -> server_inv (snd (handle q d)).
Proof.
  intros Hi. destruct q as [b|b]; simpl.
  - exact (post_results_server_inv b d _ _ Hi (surjective_pairing _)).
  - exact (post_projects_inv b d _ _ Hi (surjective_pairing _)).
Qed.

Lemma reachable_server_inv d : reachable d -> server_inv d.
Proof.
  induction 1; [apply server_inv_empty | by apply server_inv_handle].
Qed.

(** C4: every state the server can reach keeps the store invariant: serial
    ids increasing and below their sequences, unique project names, every
    foreign key satisfied, no event stamped after [NOW()], and events in
    strictly increasing creation order. *)
Theorem reachable_wf d : reachable d -> wf d /\ events_strict d.
Proof. intros [Hwf Hs _ _ _ _ _]%reachable_server_inv. done. Qed.

(** C8: every state the server can reach satisfies the aggregate invariant
    of the specification: each event's [total], [passed] and [failed] are
    the sums of those of its suite runs. *)
Theorem reachable_event_sums d : reachable d -> event_sums_ok d.
Proof. intros Hi%reachable_server_inv. apply Hi. Qed.

(** C7: in every state the server can reach, no project has more than five
    events: with requests served one at a time the retention ceiling of the
    specification is a hard invariant. *)
Theorem reachable_ceiling d p : reachable d -> (length (project_events p d) <= keep)%nat.
Proof. intros Hi%reachable_server_inv. apply Hi. Qed.

(** ** Witnesses: six ingestions for one project (section 8 of the
    specification) *)

Definition six_posts : list request := repeat (PostResults example_body) 6.

Lemma reachable_wf_witness :
  wf (snd (serve six_posts empty_db)) /\ events_strict (snd (serve six_posts empty_db)).
Proof. apply reachable_wf, serve_reachable, reach_init. Defined.

Lemma reachable_event_sums_witness :
  event_sums_ok (snd (serve six_posts empty_db)) /\
  map (fun e => (e_id e, e_total e)) (events (snd (serve six_posts empty_db))) =
  [(2, 2); (3, 2); (4, 2); (5, 2); (6, 2)].
Proof. split; [apply reachable_event_sums, serve_reachable, reach_init | vm_compute; reflexivity]. Defined.

Lemma reachable_ceiling_witness :
  (length (project_events 1 (snd (serve six_posts empty_db))) <= keep)%nat /\
  map e_id (project_events 1 (snd (serve six_posts empty_db))) = [2; 3; 4; 5; 6] /\
  fst (serve six_posts empty_db) =
    map (fun i => RJson 201 (created_body i [i])) [1; 2; 3; 4; 5; 6].
Proof.
  split; [apply reachable_ceiling, serve_reachable, reach_init|].
  split; vm_compute; reflexivity.
Defined.

End Server.
