(* ===== verification/Types.v ===== *)
(** * Column types and CHECK constraints of the stored rows

    The tables of [initDb] (src/server.js lines 15-65) declare the counts
    of [events] and [test_runs] and the duration and run id of
    [test_cases] as [INTEGER], and [test_cases] CHECKs [status] against
    pass/fail/skip and [type] against positive/negative.  PostgreSQL
    enforces them when a row is inserted: [to_int] refuses a value outside
    the 32-bit range and [insert_case_row] the CHECKs.  This file shows
    that every row of every reachable state has values of its columns'
    types, and that the stored [skipped] count is never negative, since
    the handler computes it with [Math.max(0, ...)] (line 179).

    The proof threads the invariant [typed] through the handlers one
    statement at a time with the combinators [keeps_bind] and
    [keeps_smapM] of Prelude.v; [typed] only reads the tables, so a
    rolled-back statement keeps it. *)

From S2P Require Import Prelude JsValue Store StoreInv Retention Ingest Projects Server.
Import Js Pg PgInv Retention Ingest Projects Server.

Module Typed.

Local Open Scope Z_scope.

(** ** The invariant *)

Definition event_typed (e : event) : bool :=
  in_int32 (e_total e) && in_int32 (e_passed e) && in_int32 (e_failed e) &&
  in_int32 (e_skipped e) && (0 <=? e_skipped e).

Definition run_typed (r : run) : bool :=
  in_int32 (r_total r) && in_int32 (r_passed r) && in_int32 (r_failed r).

Definition opt_int32 (o : option Z) : bool :=
  match o with Some z => in_int32 z | None => true end.

Definition case_typed (c : tcase) : bool :=
  status_ok (c_status c) && type_ok (c_type c) && opt_int32 (c_duration_ms c) &&
  in_int32 (c_run_id c).

Record typed (d : db) : Prop := {
  ty_events : Forall (fun e => event_typed e = true) (events d);
  ty_runs : Forall (fun r => run_typed r = true) (runs d);
  ty_cases : Forall (fun c => case_typed c = true) (cases d) }.

(** ** Statements *)

Lemma typed_tables d d' :
  events d' = events d -> runs d' = runs d -> cases d' = cases d -> typed d -> typed d'.
Proof. intros He Hr Hc []. constructor; congruence. Qed.

Lemma typed_same d d' : same_tables d d' -> typed d -> typed d'.
Proof. intros (_ & He & Hr & Hc). apply typed_tables; congruence. Qed.

Ltac typed_tables_tac d :=
  match goal with
  | |- typed _ => apply (typed_tables d); [reflexivity.. | assumption]
  end.

Lemma keeps_atomic {A} (c : stM db sqlerr A) : keeps typed c -> keeps typed (atomic c).
Proof.
  intros Hc d Hd. unfold atomic. specialize (Hc d Hd).
  destruct (c d) as [[a|e] d']; [exact Hc | typed_tables_tac d].
Qed.

Lemma keeps_sql {A} (c : stM db sqlerr A) : keeps typed c -> keeps typed (sql c).
Proof. intros Hc d Hd. rewrite sql_state. by apply Hc. Qed.

Lemma upsert_project_typed name : keeps typed (upsert_project name).
Proof.
  intros d Hd. destruct (upsert_project name d) as [[k|e] d'] eqn:H; simpl.
  - apply upsert_project_ok in H as (He & Hr & Hc & _). by apply (typed_tables d).
  - apply atomic_err in H. by apply (typed_same d).
Qed.

Lemma insert_project_typed name desc repo : keeps typed (insert_project name desc repo).
Proof.
  intros d Hd. destruct (insert_project name desc repo d) as [r d'] eqn:H. simpl.
  apply insert_project_tables in H as (He & Hr & Hc & _). by apply (typed_tables d).
Qed.

Lemma insert_event_typed pid name trig tot pas fai skp :
  (forall z, to_int skp = Ok (Some z) -> 0 <= z) ->
  keeps typed (insert_event pid name trig tot pas fai skp).
Proof.
  intros Hskp d Hd. destruct (insert_event pid name trig tot pas fai skp d) as [[id|e] d'] eqn:H; simpl.
  - apply insert_event_ok in H as (ev & _ & _ & _ & Ht & Hp & Hf & Hs & _ & _ & _ & _ & ->).
    destruct Hd. constructor; simpl; try done. apply Forall_snoc. split; [done|].
    unfold event_typed. rewrite (to_int_in_range _ _ Ht), (to_int_in_range _ _ Hp),
      (to_int_in_range _ _ Hf), (to_int_in_range _ _ Hs). simpl. apply Z.leb_le. eauto.
  - apply atomic_err in H. by apply (typed_same d).
Qed.

Lemma insert_run_typed name tot pas fai pid eid : keeps typed (insert_run name tot pas fai pid eid).
Proof.
  intros d Hd. destruct (insert_run name tot pas fai pid eid d) as [[id|e] d'] eqn:H; simpl.
  - apply insert_run_ok in H as (r & _ & Ht & Hp & Hf & _ & _ & _ & _ & ->).
    destruct Hd. constructor; simpl; try done. apply Forall_snoc. split; [done|].
    unfold run_typed. by rewrite (to_int_in_range _ _ Ht), (to_int_in_range _ _ Hp),
      (to_int_in_range _ _ Hf).
  - apply atomic_err in H. by apply (typed_same d).
Qed.

(** A case row passes the CHECKs of line 60-61 before it is stored. *)
Lemma insert_case_row_typed cp b :
  opt_int32 b.2 = true -> opt_int32 b.1 = true -> keeps typed (insert_case_row cp b).
Proof.
  intros Hdu Hr d Hd. unfold insert_case_row, sbind, nextval_cases, lift, not_null, sret, sthrow.
  destruct (seq_cases d <? int32_max); simpl; [|done].
  destruct b as [[r|] du]; simpl in *; [|typed_tables_tac d].
  destruct (to_str (cp_case_name cp)); simpl; [|typed_tables_tac d].
  destruct (to_str (cp_status cp)) as [st|]; simpl; [|typed_tables_tac d].
  destruct (type_ok _ && status_ok st) eqn:Hck; simpl; [|typed_tables_tac d].
  destruct Hd. constructor; simpl; try done. apply Forall_snoc. split; [done|].
  apply andb_prop in Hck as [Hty Hst]. unfold case_typed. simpl. by rewrite Hty, Hst, Hdu, Hr.
Qed.

Lemma insert_case_rows_typed rows :
  Forall (fun '(_, b) => opt_int32 b.2 = true /\ opt_int32 b.1 = true) rows ->
  keeps typed (insert_case_rows rows).
Proof.
  induction 1 as [|[cp b] rows [Hdu Hr] _ IH]; simpl; [apply keeps_ret|].
  apply keeps_bind; [by apply insert_case_row_typed|]. intros id.
  apply keeps_bind; [exact IH|]. intros. apply keeps_ret.
Qed.

Lemma bind_cases_range cps bs : bind_cases cps = Ok bs ->
  Forall (fun b => opt_int32 b.2 = true /\ opt_int32 b.1 = true) bs.
Proof.
  revert bs. induction cps as [|cp cps IH]; intros bs H; simpl in H; [by injection H as <-|].
  unfold bind_case in H.
  destruct (to_int (cp_run_id cp)) as [r|] eqn:Hr; [|done].
  destruct (forallb text_ok _); [|done].
  destruct (to_int (cp_duration_ms cp)) as [du|] eqn:Hdu; [|done].
  destruct (bind_cases cps) as [bs'|]; [|done]. injection H as <-. constructor; [|by apply IH].
  simpl. split; [destruct du; [by apply (to_int_in_range _ _ Hdu) | done]
               |destruct r; [by apply (to_int_in_range _ _ Hr) | done]].
Qed.

Lemma insert_cases_typed cps : keeps typed (insert_cases cps).
Proof.
  apply keeps_atomic. unfold insert_cases. intros d Hd. unfold sbind, lift, sret.
  destruct (max_params <? _); simpl; [done|].
  destruct (bind_cases cps) as [bs|e] eqn:Hb; simpl; [|done].
  pose proof (insert_case_rows_typed (zip cps bs)) as Hrows.
  specialize (Hrows ltac:(apply bind_cases_range in Hb; clear -Hb; revert cps;
    induction Hb as [|b bs Hbb _ IH]; intros [|cp cps]; simpl; constructor; auto) d Hd).
  destruct (insert_case_rows (zip cps bs) d) as [[ids|e] d1]; simpl in *; [|done].
  by destruct (forallb _ bs).
Qed.

#[local] Hint Resolve keeps_sql upsert_project_typed insert_run_typed insert_cases_typed : e2e.

Lemma insert_suite_typed resolved eventId s : keeps typed (insert_suite resolved eventId s).
Proof.
  unfold insert_suite. apply keeps_bind; [auto with e2e|]. intros rid.
  repeat case_match; unfold type_error; auto with e2e.
Qed.

Lemma resolve_project_typed pid pname : keeps typed (resolve_project pid pname).
Proof. unfold resolve_project. case_match; auto with e2e. Qed.

(** [Math.max(0, n)] is never negative. *)
Lemma num_max0_nonneg n z : to_int (num_to_js (num_max0 n)) = Ok (Some z) -> 0 <= z.
Proof. intros H%to_int_num. destruct n; simpl in H; [injection H as <-; lia | discriminate]. Qed.

Lemma ingest_txn_typed ss body : keeps typed (ingest_txn ss body).
Proof.
  unfold ingest_txn. apply keeps_bind; [apply resolve_project_typed|]. intros res.
  apply keeps_bind; [apply keeps_sql, insert_event_typed, num_max0_nonneg|]. intros eid.
  apply keeps_bind; [apply keeps_smapM; intros; apply insert_suite_typed|].
  auto with e2e.
Qed.

Lemma delete_events_typed ids d : typed d -> typed (delete_events ids d).
Proof. intros []. constructor; simpl; by apply Forall_filter_weak. Qed.

Lemma pruneEvents_typed pid d : typed d -> typed (snd (pruneEvents pid d)).
Proof.
  intros Hd. destruct (pruneEvents_state pid d) as [->|[ids ->]]; [done|].
  by apply delete_events_typed.
Qed.

(** ** The handlers *)

Lemma post_results_typed body d : typed d -> typed (snd (post_results body d)).
Proof.
  intros Hd. assert (Ht : typed (tick d)) by typed_tables_tac d.
  destruct (post_results body d) as [r d'] eqn:H. simpl.
  destruct (post_results_cases body d r d' H)
    as [[-> _]|[(ss & e & d1 & _ & _ & _ & _ & ->)|(ss & eid & rids & res & d1 & _ & _ & Htx & _ & ->)]].
  - done.
  - typed_tables_tac d.
  - pose proof (ingest_txn_typed ss body (tick d) Ht) as H1. rewrite Htx in H1. simpl in H1.
    destruct (truthy res); [by apply pruneEvents_typed | done].
Qed.

Lemma post_projects_typed body d : typed d -> typed (snd (post_projects body d)).
Proof.
  intros Hd. destruct (post_projects body d) as [r d'] eqn:H. simpl.
  destruct (post_projects_state body d r d' H) as [->|(name & desc & repo & r' & Hi)]; [done|].
  pose proof (insert_project_typed name desc repo (tick d) ltac:(typed_tables_tac d)) as H1.
  by rewrite Hi in H1.
Qed.

(** C11: every row of every state the server can reach holds values of its
    columns' types: the counts of events and runs and the durations and run
    ids of cases are 32-bit integers, every case's status is pass, fail or
    skip and its type positive, negative or NULL, and no event's skipped
    count is negative. *)
Theorem reachable_typed d : reachable d -> typed d.
Proof.
  induction 1 as [|q d _ IH].
  - constructor; constructor.
  - destruct q as [b|b]; simpl; [by apply post_results_typed | by apply post_projects_typed].
Qed.

(** The store after six ingestions of the example request and one with a
    failing case. *)
Definition typed_trace : list request :=
  six_posts ++ [PostResults (JObj [("project_name", JStr "p2");
    ("suites", JArr [JObj [("suite_name", JStr "s"); ("total", JNum 3); ("passed", JNum 1);
                           ("failed", JNum 1);
                           ("cases", JArr [JObj [("case_name", JStr "c"); ("status", JStr "fail");
                                                 ("type", JStr "negative"); ("duration_ms", JNum 7)]])]])])].

Lemma reachable_typed_witness :
  length (cases (snd (serve typed_trace empty_db))) = 1%nat /\ typed (snd (serve typed_trace empty_db)).
Proof.
  split; [vm_compute; reflexivity|].
  apply reachable_typed, serve_reachable, reach_init.
Defined.

End Typed.
