(* ===== verification/Queries.v ===== *)
(** * The read-only endpoints (src/server.js lines 111-140 and 233-389)

    Each GET handler sends one to three [SELECT]s on the pool and answers
    200 with the rows.  The model computes the rows from the tables:
    [WHERE] is a filter, [LEFT JOIN projects] looks the project name up,
    [ORDER BY] is a stable [merge_sort] and [LIMIT] a [take].  Two orders
    are not fixed by the code: rows with equal [created_at] (the runs of
    one ingestion share the timestamp of its transaction) come in table
    order here, which is one of the orders PostgreSQL may return, and text
    is compared by the database's collation, a parameter [coll] of the
    section.  Query and path parameters are the strings, arrays or objects
    Express parses them to; they are bound like the handlers' other
    parameters ([to_int], [to_str]); the [LIMIT] parameter is a [bigint],
    and a negative count is an error (2201W).  A store error in a GET
    handler is a rejection Express 4 does not catch ([QUnhandled]).
    [parseInt] is JavaScript's, on the ASCII characters. *)

From S2P Require Import Prelude JsValue Store StoreInv Retention Ingest Sums Server.
From Stdlib Require Import Ascii.
Import Js Pg PgInv Ingest EventSums Server.

Module Queries.

Local Open Scope Z_scope.

Inductive reply (A : Type) : Type :=
| QOk (body : A)                     (** 200 with the rows *)
| QFail (status : Z) (msg : string)  (** an error response of the handler *)
| QUnhandled (e : sqlerr).           (** a rejected promise: no response *)
Arguments QOk {A}. Arguments QFail {A}. Arguments QUnhandled {A}.

(** ** [parseInt] and the limits (lines 235 and 361) *)

Definition hex_val (c : ascii) : option Z :=
  let n := nat_of_ascii c in
  if (48 <=? n)%nat && (n <=? 57)%nat then Some (Z.of_nat (n - 48))
  else if (97 <=? n)%nat && (n <=? 102)%nat then Some (Z.of_nat (n - 87))
  else if (65 <=? n)%nat && (n <=? 70)%nat then Some (Z.of_nat (n - 55))
  else None.

(** The longest prefix of digits, [None] when there is none. *)
Fixpoint digits_prefix (val : ascii -> option Z) (base : Z) (s : string) (acc : option Z) : option Z :=
  match s with
  | EmptyString => acc
  | String c s' =>
      match val c with
      | Some v => digits_prefix val base s' (Some (base * default 0 acc + v))
      | None => acc
      end
  end.

Definition is_hex_prefix (s : string) : option string :=
  match s with
  | String z (String x t) =>
      if Ascii.eqb z "0" && (Ascii.eqb x "x" || Ascii.eqb x "X") then Some t else None
  | _ => None
  end.

(** [parseInt(v)] with no radix: [String(v)], leading white space, a sign,
    a [0x] prefix for hexadecimal; [None] is [NaN]. *)
Definition parse_int (v : jsval) : option Z :=
  let s := trim_left (js_to_string v) in
  let '(neg, t) :=
    match s with
    | String c t => if Ascii.eqb c "-" then (true, t) else if Ascii.eqb c "+" then (false, t) else (false, s)
    | EmptyString => (false, s)
    end in
  let r := match is_hex_prefix t with
           | Some h => digits_prefix hex_val 16 h None
           | None => digits_prefix digit_val 10 t None
           end in
  option_map (fun z => if neg then - z else z) r.

(** [Math.min(parseInt(v) || dflt, cap)]: [NaN] and [0] are falsy. *)
Definition limit_of (dflt cap : Z) (v : jsval) : Z :=
  match parse_int v with
  | Some z => if z =? 0 then dflt else Z.min z cap
  | None => dflt
  end.

Definition int64_min : Z := - 2 ^ 63.

(** [LIMIT $n]: a [bigint] parameter that must not be negative. *)
Definition bind_limit (z : Z) : result sqlerr nat :=
  if z <? int64_min then Err OutOfRange
  else if z <? 0 then Err InvalidLimit
  else Ok (Z.to_nat z).

(** ** Joins and orders *)

(** [LEFT JOIN projects p ON p.id = x.project_id]: the name, or NULL. *)
Definition project_name_of (o : option Z) (d : db) : option string :=
  match o with
  | Some k => option_map p_name (List.find (fun p => p_id p =? k) (projects d))
  | None => None
  end.

Definition ge_by {A} (key : A -> Z) (a b : A) : Prop := key b <= key a.

#[export] Instance ge_by_dec {A} (key : A -> Z) : RelDecision (ge_by key).
Proof. intros a b. unfold ge_by. apply _. Defined.

(** An order given by a boolean test. *)
Definition brel {A} (f : A -> A -> bool) (a b : A) : Prop := f a b = true.

#[export] Instance brel_dec {A} (f : A -> A -> bool) : RelDecision (brel f).
Proof. intros a b. unfold brel. apply _. Defined.

(** [ORDER BY key DESC], ties in table order. *)
Definition newest_first {A} (key : A -> Z) (xs : list A) : list A :=
  merge_sort (ge_by key) xs.

(** A filter on an integer parameter: NULL matches no row. *)
Definition eq_param (col : option Z) (p : option Z) : bool :=
  match p with Some k => bool_decide (col = Some k) | None => false end.

Section Collation.

(** The collation of the database: a total order on text. *)
Variable coll : string -> string -> comparison.

Definition name_le (x y : string) : bool :=
  match coll x y with Gt => false | _ => true end.

(** [ORDER BY case_id, id]: ascending, NULLs last. *)
Definition case_le (a b : tcase) : bool :=
  match c_case_id a, c_case_id b with
  | Some x, Some y => match coll x y with Lt => true | Gt => false | Eq => c_id a <=? c_id b end
  | Some _, None => true
  | None, Some _ => false
  | None, None => c_id a <=? c_id b
  end.

(** GET /api/projects (lines 112-115): [ORDER BY name]. *)
Definition get_projects (d : db) : reply (list project) :=
  QOk (merge_sort (brel (fun a b => name_le (p_name a) (p_name b))) (projects d)).

(** GET /api/projects/overview (lines 118-136): each project with its
    latest event, [LEFT JOIN LATERAL (... ORDER BY created_at DESC LIMIT 1)]. *)
Definition get_overview (d : db) : reply (list (project * option event)) :=
  QOk (map (fun p => (p, head (newest_first e_created_at (project_events (p_id p) d))))
           (merge_sort (brel (fun a b => name_le (p_name a) (p_name b))) (projects d))).

(** GET /api/results/:id/cases (lines 259-265). *)
Definition get_run_cases (id : string) (d : db) : reply (list tcase) :=
  match to_int (JStr id) with
  | Err e => QUnhandled e
  | Ok k => QOk (merge_sort (brel case_le)
                   (List.filter (fun c => eq_param (Some (c_run_id c)) k) (cases d)))
  end.

(** The body of GET /api/events/:id: the event row spread with its runs and
    their cases. *)
Record event_detail : Type := mkDetail {
  ed_event : event; ed_project_name : option string;
  ed_runs : list (run * option string); ed_cases : list (tcase * string) }.

(** [ORDER BY tc.run_id, tc.case_id, tc.id] *)
Definition case_run_le (a b : tcase) : bool :=
  (c_run_id a <? c_run_id b) || ((c_run_id a =? c_run_id b) && case_le a b).

Definition suite_name_of (rid : Z) (d : db) : option string :=
  option_map r_suite_name (List.find (fun r => r_id r =? rid) (runs d)).

(** GET /api/events/:id (lines 286-328): 404 when the first query returns
    no row; the cases are fetched only when the event has runs. *)
Definition get_event (id : string) (d : db) : reply event_detail :=
  match to_int (JStr id) with
  | Err e => QUnhandled e
  | Ok k =>
      match List.find (fun e => eq_param (Some (e_id e)) k) (events d) with
      | None => QFail 404 "Event not found"
      | Some e =>
          let rs := merge_sort (brel (fun a b => r_id a <=? r_id b))
                      (List.filter (fun r => eq_param (r_event_id r) k) (runs d)) in
          let runIds := map r_id rs in
          let cs := match runIds with
                    | [] => []
                    | _ => omap (fun c => option_map (fun n => (c, n)) (suite_name_of (c_run_id c) d))
                             (merge_sort (brel case_run_le)
                                (List.filter (fun c => bool_decide (c_run_id c ∈ runIds)) (cases d)))
                    end in
          QOk (mkDetail e (project_name_of (e_project_id e) d)
                 (map (fun r => (r, project_name_of (r_project_id r) d)) rs) cs)
      end
  end.

End Collation.

(** A run row with [p.name AS project_name]. *)
Definition run_row (d : db) (r : run) : run * option string := (r, project_name_of (r_project_id r) d).

(** GET /api/results (lines 234-256): the [project_id] parameter, when
    truthy, is bound before the limit. *)
Definition get_results (q_limit q_project : jsval) (d : db) : reply (list (run * option string)) :=
  let limit := limit_of 20 100 q_limit in
  let rows (f : run -> bool) :=
    match bind_limit limit with
    | Err e => QUnhandled e
    | Ok n => QOk (map (run_row d) (take n (newest_first r_created_at (List.filter f (runs d)))))
    end in
  if truthy q_project then
    match to_int q_project with
    | Err e => QUnhandled e
    | Ok p => rows (fun r => eq_param (r_project_id r) p)
    end
  else rows (fun _ => true).

Definition msg_project_required : string := "project_id is required".

(** GET /api/events (lines 268-283): the newest five events of a project. *)
Definition get_events (q_project : jsval) (d : db) : reply (list (event * option string)) :=
  if negb (truthy q_project) then QFail 400 msg_project_required
  else
    match to_int q_project with
    | Err e => QUnhandled e
    | Ok p =>
        QOk (map (fun e => (e, project_name_of (e_project_id e) d))
                 (take 5 (newest_first e_created_at
                            (List.filter (fun e => eq_param (e_project_id e) p) (events d)))))
    end.

(** node-postgres returns [bigint] columns (the [COUNT] and the [SUM]s of
    [integer]) as strings. *)
Definition bigint_json (z : Z) : jsval := JStr (Z_to_dec z).

Definition summary_of (rs : list run) : jsval :=
  JObj [("run_count", bigint_json (Z.of_nat (List.length rs)));
        ("total_tests", bigint_json (sumZ r_total rs));
        ("total_passed", bigint_json (sumZ r_passed rs));
        ("total_failed", bigint_json (sumZ r_failed rs))].

(** GET /api/summary (lines 331-355). *)
Definition get_summary (q_project : jsval) (d : db) : reply jsval :=
  if truthy q_project then
    match to_int q_project with
    | Err e => QUnhandled e
    | Ok p => QOk (summary_of (List.filter (fun r => eq_param (r_project_id r) p) (runs d)))
    end
  else QOk (summary_of (runs d)).

(** A case row with [tr.suite_name, tr.project_id, p.name AS project_name]. *)
Definition case_row (d : db) (c : tcase) : option (tcase * string * option Z * option string) :=
  option_map (fun r => (c, r_suite_name r, r_project_id r, project_name_of (r_project_id r) d))
             (List.find (fun r => r_id r =? c_run_id c) (runs d)).

(** GET /api/cases (lines 358-389): the conditions and their parameters in
    the order the handler pushes them, then the limit; [ORDER BY tc.id DESC]. *)
Definition get_cases (q_status q_project q_limit : jsval) (d : db)
    : reply (list (tcase * string * option Z * option string)) :=
  let limit := limit_of 50 200 q_limit in
  let status_ok (c : tcase) :=
    if truthy q_status then
      match to_str q_status with Some s => String.eqb (c_status c) s | None => false end
    else true in
  let rows (proj_ok : option Z -> bool) :=
    match bind_limit limit with
    | Err e => QUnhandled e
    | Ok n =>
        QOk (take n (newest_first (fun '(c, _, _, _) => c_id c)
                       (List.filter (fun '(c, _, p, _) => status_ok c && proj_ok p)
                          (omap (case_row d) (cases d)))))
    end in
  if truthy q_project then
    match to_int q_project with
    | Err e => QUnhandled e
    | Ok p => rows (fun o => eq_param o p)
    end
  else rows (fun _ => true).

(** ** Orders *)

#[export] Instance ge_by_trans {A} (key : A -> Z) : Transitive (ge_by key).
Proof. intros a b c. unfold ge_by. lia. Qed.

#[export] Instance ge_by_total {A} (key : A -> Z) : Total (ge_by key).
Proof. intros a b. unfold ge_by. lia. Qed.

(** On rows with distinct, increasing keys, [ORDER BY key DESC] reverses
    the table order. *)
Lemma newest_first_strict {A} (key : A -> Z) xs :
  StronglySorted (fun a b => key a < key b) xs -> newest_first key xs = rev xs.
Proof.
  intros Hs. unfold newest_first. apply (StronglySorted_unique_strong (ge_by key)).
  - intros x1 x2 Hx1 Hx2 H12 H21. unfold ge_by in *.
    rewrite (merge_sort_Permutation (ge_by key)) in Hx1.
    apply list_elem_of_In in Hx1, Hx2. apply in_rev in Hx2.
    apply (StronglySorted_lt_inj key xs); [done..|lia].
  - apply StronglySorted_merge_sort; apply _.
  - eapply StronglySorted_weaken; [|exact (StronglySorted_rev _ _ Hs)]. unfold flip, ge_by. lia.
  - transitivity xs; [apply merge_sort_Permutation | apply Permutation_rev].
Qed.

(** ** GET /api/events *)

(** GET /api/events answers with the project's newest five events, newest
    first, each with its project's name. *)
Lemma get_events_take q p d :
  events_strict d -> truthy q = true -> to_int q = Ok (Some p) ->
  get_events q d = QOk (map (fun e => (e, project_name_of (Some p) d)) (take 5 (rev (project_events p d)))).
Proof.
  intros Hs Ht Hp. unfold get_events. rewrite Ht, Hp. simpl. f_equal.
  change (List.filter (fun e => eq_param (e_project_id e) (Some p)) (events d)) with (project_events p d).
  rewrite newest_first_strict by by apply Retention.project_events_strict.
  apply map_ext_in. intros e He%In_take%in_rev%filter_In. f_equal.
  destruct He as [_ He%bool_decide_eq_true]. by rewrite He.
Qed.

(** C16: in every state the server can reach, GET /api/events answers with
    all the events the server keeps for the project, newest first, each
    with its project's name: the retention sweep leaves at most five, so
    the query's [LIMIT 5] drops none. *)
Theorem get_events_newest q p d :
  reachable d -> truthy q = true -> to_int q = Ok (Some p) ->
  get_events q d = QOk (map (fun e => (e, project_name_of (Some p) d)) (rev (project_events p d))).
Proof.
  intros Hr Ht Hp. destruct (reachable_server_inv d Hr) as [_ Hs _ _ _ Hc _].
  rewrite (get_events_take q p d Hs Ht Hp), take_ge; [done|].
  rewrite length_rev. apply (Hc p).
Qed.

Definition posts6 : db := snd (serve six_posts empty_db).

Lemma get_events_newest_witness :
  get_events (JStr "1") posts6 =
    QOk (map (fun e => (e, project_name_of (Some 1) posts6)) (rev (project_events 1 posts6))) /\
  map (fun '(e, _) => e_id e) (match get_events (JStr "1") posts6 with QOk rows => rows | _ => [] end) =
    [6; 5; 4; 3; 2].
Proof.
  split; [|vm_compute; reflexivity].
  apply get_events_newest; [apply serve_reachable, reach_init | reflexivity | reflexivity].
Defined.

(** ** GET /api/events/:id *)

Lemma to_int_JStr s o : to_int (JStr s) = Ok o -> exists k, o = Some k.
Proof. unfold to_int. simpl. destruct (no_nul s); [|discriminate]. destruct (int4in s); intros [= <-]. eauto. Qed.

Lemma find_event_none k es :
  List.find (fun e => eq_param (Some (e_id e)) (Some k)) es = None <->
  existsb (fun e => e_id e =? k) es = false.
Proof.
  induction es as [|e es IH]; simpl; [done|]. unfold eq_param.
  case_bool_decide as H; destruct (Z.eqb_spec (e_id e) k) as [Hk|Hk]; simpl;
    [split; discriminate | congruence | congruence | exact IH].
Qed.

(** C17: GET /api/events/:id answers 404 exactly when the id is an integer
    that names no event; an id that is not an integer is not answered 404
    but rejected by PostgreSQL, unhandled. *)
Theorem get_event_404 coll id d :
  get_event coll id d = QFail 404 "Event not found" <->
  exists k, to_int (JStr id) = Ok (Some k) /\ event_exists k d = false.
Proof.
  unfold get_event. destruct (to_int (JStr id)) as [o|e] eqn:Hi.
  - destruct (to_int_JStr _ _ Hi) as [k ->]. split.
    + destruct (List.find _ (events d)) eqn:Hf; [discriminate|]. intros _.
      exists k. split; [done|]. by apply find_event_none.
    + intros (k' & [= <-] & Hk). apply find_event_none in Hk. by rewrite Hk.
  - split; [discriminate|]. by intros (k & [=] & _).
Qed.

(** C18: in every state the server can reach, the detail of an event is
    consistent: its [total], [passed] and [failed] are the sums of those of
    the runs the detail lists. *)
Theorem get_event_runs_sum coll id d det :
  reachable d -> get_event coll id d = QOk det ->
  e_total (ed_event det) = sumZ (fun x => r_total x.1) (ed_runs det) /\
  e_passed (ed_event det) = sumZ (fun x => r_passed x.1) (ed_runs det) /\
  e_failed (ed_event det) = sumZ (fun x => r_failed x.1) (ed_runs det).
Proof.
  intros Hr H. pose proof (si_sums _ (reachable_server_inv d Hr)) as Hsum.
  unfold get_event in H. destruct (to_int (JStr id)) as [o|e]; [|discriminate].
  destruct (List.find _ (events d)) as [e|] eqn:Hf; [|discriminate]. injection H as <-. simpl.
  apply List.find_some in Hf as [Hin Hk].
  destruct o as [k|]; [|discriminate]. apply bool_decide_eq_true in Hk. injection Hk as <-.
  apply (List.Forall_forall _ _) with (x := e) in Hsum; [|done].
  unfold event_sums, runs_of in Hsum. rewrite !sumZ_map. simpl.
  rewrite !(sumZ_Permutation _ _ _ (merge_sort_Permutation (brel (fun a b => r_id a <=? r_id b)) _)).
  exact Hsum.
Qed.

(** ** POST /api/results, then GET /api/events/:id *)

Lemma find_event_some k es ev :
  NoDup (map e_id es) -> In ev es -> e_id ev = k ->
  List.find (fun e => eq_param (Some (e_id e)) (Some k)) es = Some ev.
Proof.
  induction es as [|e es IH]; simpl; [done|]. intros Hnd Hin Hk.
  apply NoDup_cons in Hnd as [Hnotin Hnd].
  destruct Hin as [->|Hin]; [by rewrite bool_decide_true by congruence|].
  case_bool_decide as Heq; [|by apply IH].
  exfalso. apply Hnotin. injection Heq as Heq. rewrite Heq, <- Hk. by apply list_elem_of_In, in_map.
Qed.

(** [ORDER BY id] of rows already in increasing id order. *)
Lemma sort_by_id_sorted l :
  StronglySorted (fun a b => r_id a < r_id b) l -> merge_sort (brel (fun a b => r_id a <=? r_id b)) l = l.
Proof.
  intros Hs.
  assert (Transitive (brel (fun a b : run => r_id a <=? r_id b))) by (intros a b c; unfold brel; rewrite !Z.leb_le; lia).
  assert (Total (brel (fun a b : run => r_id a <=? r_id b))) by (intros a b; unfold brel; rewrite !Z.leb_le; lia).
  apply (StronglySorted_unique_strong (brel (fun a b => r_id a <=? r_id b))).
  - intros x1 x2 Hx1 Hx2 H12 H21. rewrite merge_sort_Permutation in Hx1.
    unfold brel in H12, H21. apply Z.leb_le in H12, H21. apply list_elem_of_In in Hx1, Hx2.
    apply (StronglySorted_lt_inj r_id l); [done..|lia].
  - by apply StronglySorted_merge_sort.
  - eapply StronglySorted_weaken; [|exact Hs]. intros a b Hab. cbv beta in Hab. unfold brel. apply Z.leb_le. lia.
  - apply merge_sort_Permutation.
Qed.

Lemma Forall2_map_pair {A B C} (P : A -> B -> Prop) (g : B -> C) xs ys :
  Forall2 P xs ys -> Forall2 (fun x y => P x y.1) xs (map (fun y => (y, g y)) ys).
Proof. induction 1; simpl; constructor; done. Qed.

(** C35: what POST /api/results stores, GET /api/events/:id gives back.
    After a 201 from a reachable state, the detail of the event it names,
    asked for by any id text PostgreSQL reads as that id, is that event,
    with the [Number()] sums of the suites' counts and skipped clamped at
    0, and lists exactly one run per submitted suite, in the order of the
    suites and of the response's [run_ids], each with its suite's counts. *)
Theorem post_then_get_event coll body d r d' eid s :
  reachable d -> post_results body d = (RJson 201 r, d') -> get r "event_id" = JNum eid ->
  to_int (JStr s) = Ok (Some eid) ->
  exists ss det, suites_of_body body = Some ss /\ get_event coll s d' = QOk det /\
    e_id (ed_event det) = eid /\ get r "run_ids" = JArr (map (fun x => JNum (r_id x.1)) (ed_runs det)) /\
    Forall2 (fun su x => run_of_suite eid su x.1) ss (ed_runs det) /\
    aggregate "total" ss = NFin (e_total (ed_event det)) /\
    aggregate "passed" ss = NFin (e_passed (ed_event det)) /\
    aggregate "failed" ss = NFin (e_failed (ed_event det)) /\
    e_skipped (ed_event det) = Z.max 0 (e_total (ed_event det) - e_passed (ed_event det) - e_failed (ed_event det)).
Proof.
  intros Hr H Heid Hs. pose proof (reachable_server_inv d Hr) as Hi.
  assert (Hi' : server_inv d').
  { apply reachable_server_inv. replace d' with (snd (handle (PostResults body) d)) by (simpl; by rewrite H).
    by apply reach_step. }
  destruct (post_results_created body d r d' (si_wf _ Hi) (si_strict _ Hi) H)
    as (ss & ev & rs & Hss & -> & Hin & Hrs & Ht & Hp & Hf & Hsk & Hruns).
  cbn in Heid. injection Heid as <-.
  unfold get_event. rewrite Hs.
  rewrite (find_event_some (e_id ev) (events d') ev); [| by eapply ids_ok_NoDup, wf_events, si_wf | done | done].
  unfold eq_param. rewrite Hruns.
  rewrite sort_by_id_sorted.
  2: { rewrite <- Hruns. apply StronglySorted_filter. exact (proj1 (wf_runs _ (si_wf _ Hi'))). }
  eexists ss, _. split_and!; try reflexivity; try done.
  - cbn. by rewrite !map_map.
  - by apply Forall2_map_pair.
Qed.

(** A seventh POST of [example_body] after six: its response, and what
    GET /api/events/7 returns afterwards. *)
Definition post7 : response * db := post_results example_body posts6.

Definition resp7 : jsval :=
  Eval vm_compute in match fst post7 with RJson _ r => r | _ => JNull end.

Lemma post_then_get_event_witness :
  reachable posts6 /\ post_results example_body posts6 = (RJson 201 resp7, snd post7) /\
  get resp7 "event_id" = JNum 7 /\ to_int (JStr "7") = Ok (Some 7) /\
  exists det, get_event String.compare "7" (snd post7) = QOk det /\ e_id (ed_event det) = 7 /\
    get resp7 "run_ids" = JArr (map (fun x => JNum (r_id x.1)) (ed_runs det)).
Proof.
  assert (Hr : reachable posts6) by apply serve_reachable, reach_init.
  assert (Hp : post_results example_body posts6 = (RJson 201 resp7, snd post7)) by (vm_compute; reflexivity).
  assert (He : get resp7 "event_id" = JNum 7) by (vm_compute; reflexivity).
  assert (Hs : to_int (JStr "7") = Ok (Some 7)) by (vm_compute; reflexivity).
  destruct (post_then_get_event String.compare example_body posts6 resp7 (snd post7) 7 "7" Hr Hp He Hs)
    as (ss & det & _ & Hg & Hid & Hids & _).
  split_and!; [exact Hr | exact Hp | exact He | exact Hs | exists det; split_and!; assumption].
Defined.

(** ** GET /api/projects/overview *)

Lemma head_rev {A} (l : list A) : head (rev l) = last l.
Proof. induction l as [|x l _] using rev_ind; [done|]. by rewrite rev_app_distr, last_snoc. Qed.

(** C20: the overview lists every project once, each with its latest event,
    the last one created, or none when it has no event. *)
Theorem get_overview_latest coll d rows :
  events_strict d -> get_overview coll d = QOk rows ->
  map fst rows ≡ₚ projects d /\
  Forall (fun '(p, o) => o = last (project_events (p_id p) d)) rows.
Proof.
  intros Hs [= <-]. split.
  - rewrite map_map. simpl. rewrite map_id. apply merge_sort_Permutation.
  - apply List.Forall_map, Forall_forall. intros p _.
    by rewrite newest_first_strict, head_rev by by apply Retention.project_events_strict.
Qed.

Lemma get_overview_latest_witness :
  map fst (match get_overview String.compare Retention.example_db with QOk rows => rows | _ => [] end)
    ≡ₚ projects Retention.example_db /\
  Forall (fun '(p, o) => o = last (project_events (p_id p) Retention.example_db))
    (match get_overview String.compare Retention.example_db with QOk rows => rows | _ => [] end) /\
  map (fun '(p, o) => option_map e_id o)
    (match get_overview String.compare Retention.example_db with QOk rows => rows | _ => [] end) =
    [Some 8; Some 4].
Proof.
  destruct (get_overview_latest String.compare Retention.example_db
              (match get_overview String.compare Retention.example_db with QOk rows => rows | _ => [] end)
              (proj2 Retention.example_db_wf) ltac:(vm_compute; reflexivity)) as [H1 H2].
  split_and!; [exact H1 | exact H2 | vm_compute; reflexivity].
Defined.

(** ** GET /api/summary *)

Lemma runs_have_events d :
  wf d -> Forall (fun r => r_event_id r <> None) (runs d) ->
  Forall (fun r => exists e, In e (events d) /\ r_event_id r = Some (e_id e)) (runs d).
Proof.
  intros Hwf Hre. pose proof (wf_run_event _ Hwf) as Hfk. rewrite List.Forall_forall in Hre, Hfk |- *.
  intros r Hr. specialize (Hre r Hr). specialize (Hfk r Hr). unfold fk_ok in Hfk.
  destruct (r_event_id r) as [k|]; [|done].
  apply existsb_exists in Hfk as (e & He & Hk%Z.eqb_eq). exists e. by subst.
Qed.

(** C19: in every state the server can reach, GET /api/summary without a
    project reports the number of runs and, as [total_tests],
    [total_passed] and [total_failed], the sums of the events' counts; each
    is sent as a string, since node-postgres returns [bigint] as text. *)
Theorem get_summary_events d :
  reachable d ->
  get_summary JUndef d =
    QOk (JObj [("run_count", bigint_json (Z.of_nat (List.length (runs d))));
               ("total_tests", bigint_json (sumZ e_total (events d)));
               ("total_passed", bigint_json (sumZ e_passed (events d)));
               ("total_failed", bigint_json (sumZ e_failed (events d)))]).
Proof.
  intros [Hwf _ Hsum _ _ _ Hre]%reachable_server_inv.
  destruct (event_totals_runs d Hsum (ids_ok_NoDup _ _ _ (wf_events _ Hwf)) (runs_have_events d Hwf Hre))
    as (-> & -> & ->).
  reflexivity.
Qed.

Lemma get_summary_events_witness :
  get_summary JUndef (snd (serve six_posts empty_db)) =
    QOk (JObj [("run_count", bigint_json (Z.of_nat (List.length (runs (snd (serve six_posts empty_db))))));
               ("total_tests", bigint_json (sumZ e_total (events (snd (serve six_posts empty_db)))));
               ("total_passed", bigint_json (sumZ e_passed (events (snd (serve six_posts empty_db)))));
               ("total_failed", bigint_json (sumZ e_failed (events (snd (serve six_posts empty_db)))))]) /\
  get_summary JUndef (snd (serve six_posts empty_db)) =
    QOk (JObj [("run_count", JStr "5"); ("total_tests", JStr "10"); ("total_passed", JStr "5");
               ("total_failed", JStr "5")]).
Proof.
  split; [apply get_summary_events, serve_reachable, reach_init | vm_compute; reflexivity].
Defined.

(** ** Limits *)

Lemma limit_of_le dflt cap v : dflt <= cap -> limit_of dflt cap v <= cap.
Proof. unfold limit_of. destruct (parse_int v); [case_match|]; lia. Qed.

Lemma bind_limit_ok z n : bind_limit z = Ok n -> Z.of_nat n = z.
Proof.
  unfold bind_limit. destruct (Z.ltb_spec z int64_min); [discriminate|].
  destruct (Z.ltb_spec z 0); [discriminate|]. intros [= <-]. lia.
Qed.

Lemma length_take_limit {A} z n (xs : list A) :
  bind_limit z = Ok n -> (length (take n xs) <= Z.to_nat z)%nat.
Proof. intros Hb%bind_limit_ok. rewrite length_take. lia. Qed.

(** C21: GET /api/results never returns more rows than its limit, which is at
    most 100, and a limit that [parseInt] reads as negative is passed to
    PostgreSQL, whose rejection is left unhandled (no response). *)
Theorem get_results_limit l q d :
  (forall rows, get_results l q d = QOk rows ->
     (length rows <= Z.to_nat (limit_of 20 100 l) <= 100)%nat) /\
  (forall z, parse_int l = Some z -> z < 0 -> (truthy q = false \/ exists o, to_int q = Ok o) ->
     get_results l q d = QUnhandled (if z <? int64_min then OutOfRange else InvalidLimit)).
Proof.
  pose proof (limit_of_le 20 100 l ltac:(lia)) as Hle. split.
  - intros rows H. unfold get_results in H.
    repeat case_match; try discriminate; injection H as <-; rewrite length_map.
    all: split; [by eapply length_take_limit | lia].
  - intros z Hz Hneg Hq. unfold get_results, limit_of. rewrite Hz.
    destruct (Z.eqb_spec z 0); [lia|]. rewrite Z.min_l by lia.
    unfold bind_limit. destruct (Z.ltb_spec z 0); [|lia].
    destruct Hq as [->|[o Ho]]; [|destruct (truthy q); [rewrite Ho|]];
      by destruct (z <? int64_min).
Qed.

(** C22: GET /api/cases returns at most its limit of rows, at most 200, and
    when a status is given every row has that status. *)
Theorem get_cases_filter s q l d rows :
  get_cases s q l d = QOk rows ->
  (length rows <= 200)%nat /\
  (forall st, truthy s = true -> to_str s = Some st ->
     Forall (fun '(c, _, _, _) => c_status c = st) rows).
Proof.
  pose proof (limit_of_le 50 200 l ltac:(lia)) as Hle.
  unfold get_cases. intros H.
  assert (Hrows : forall (f : option Z -> bool) n,
             bind_limit (limit_of 50 200 l) = Ok n ->
             (length (take n (newest_first (fun '(c, _, _, _) => c_id c)
                (List.filter (fun '(c, _, p, _) =>
                   (if truthy s then match to_str s with Some st => String.eqb (c_status c) st | None => false end
                    else true) && f p) (omap (case_row d) (cases d))))) <= 200)%nat /\
             (forall st, truthy s = true -> to_str s = Some st ->
                Forall (fun '(c, _, _, _) => c_status c = st)
                  (take n (newest_first (fun '(c, _, _, _) => c_id c)
                     (List.filter (fun '(c, _, p, _) =>
                        (if truthy s then match to_str s with Some st => String.eqb (c_status c) st | None => false end
                         else true) && f p) (omap (case_row d) (cases d))))))).
  { intros f n Hb. split; [rewrite length_take; pose proof (bind_limit_ok _ _ Hb); lia|].
    intros st Hs Hst. rewrite Hs, Hst.
    apply Forall_take. unfold newest_first. rewrite (merge_sort_Permutation _ _).
    apply Forall_forall. intros [[[c sn] p] pn] Hin%list_elem_of_In%filter_In.
    destruct Hin as [_ Hc]. apply andb_prop in Hc as [Hc _]. by apply String.eqb_eq in Hc. }
  destruct (truthy q).
  - destruct (to_int q) as [p|e]; [|discriminate].
    destruct (bind_limit _) as [n|e] eqn:Hb; [|discriminate]. injection H as <-.
    exact (Hrows (fun o => eq_param o p) n eq_refl).
  - destruct (bind_limit _) as [n|e] eqn:Hb; [|discriminate]. injection H as <-.
    exact (Hrows (fun _ => true) n eq_refl).
Qed.

Lemma get_event_404_witness :
  get_event String.compare "9" Retention.example_db = QFail 404 "Event not found" /\
  get_event String.compare "abc" Retention.example_db = QUnhandled InvalidTextRep.
Proof.
  split; [|reflexivity].
  apply get_event_404. exists 9. split; reflexivity.
Defined.

(** The detail of the last of six events of project [p1]. *)
Definition detail6 : event_detail :=
  Eval vm_compute in
    match get_event String.compare "6" (snd (serve six_posts empty_db)) with
    | QOk det => det
    | _ => mkDetail (Retention.example_event 0 0) None [] []
    end.

Lemma get_event_runs_sum_witness :
  get_event String.compare "6" (snd (serve six_posts empty_db)) = QOk detail6 /\
  (e_total (ed_event detail6) = sumZ (fun x => r_total x.1) (ed_runs detail6) /\
   e_passed (ed_event detail6) = sumZ (fun x => r_passed x.1) (ed_runs detail6) /\
   e_failed (ed_event detail6) = sumZ (fun x => r_failed x.1) (ed_runs detail6)) /\
  e_total (ed_event detail6) = 2 /\ length (ed_runs detail6) = 1%nat.
Proof.
  split; [vm_compute; reflexivity|]. split; [|split; reflexivity].
  apply (get_event_runs_sum String.compare "6" (snd (serve six_posts empty_db)));
    [apply serve_reachable, reach_init | vm_compute; reflexivity].
Defined.

(** The runs of the six-ingestion state, three at a time. *)
Definition rows3 : list (run * option string) :=
  Eval vm_compute in
    match get_results (JStr "3") JUndef (snd (serve six_posts empty_db)) with QOk rows => rows | _ => [] end.

Lemma get_results_limit_witness :
  get_results (JStr "3") JUndef (snd (serve six_posts empty_db)) = QOk rows3 /\
  (length rows3 <= Z.to_nat (limit_of 20 100 (JStr "3")) <= 100)%nat /\ length rows3 = 3%nat /\
  get_results (JStr "-1") JUndef Retention.example_db = QUnhandled InvalidLimit.
Proof.
  split; [vm_compute; reflexivity|]. split; [|split; [reflexivity|]].
  - apply (proj1 (get_results_limit (JStr "3") JUndef (snd (serve six_posts empty_db)))).
    vm_compute; reflexivity.
  - apply (proj2 (get_results_limit (JStr "-1") JUndef Retention.example_db) (-1));
      [reflexivity | lia | by left].
Defined.

Definition cases_body : jsval :=
  JObj [("project_name", JStr "p1");
        ("suites", JArr [JObj [("suite_name", JStr "a"); ("total", JNum 2); ("passed", JNum 1);
                               ("failed", JNum 1);
                               ("cases", JArr [JObj [("case_name", JStr "login"); ("status", JStr "pass")];
                                               JObj [("case_name", JStr "logout"); ("status", JStr "fail")]])]])].

Definition fail_rows : list (tcase * string * option Z * option string) :=
  Eval vm_compute in
    match get_cases (JStr "fail") JUndef JUndef (snd (post_results cases_body empty_db)) with
    | QOk rows => rows | _ => [] end.

Lemma get_cases_filter_witness :
  get_cases (JStr "fail") JUndef JUndef (snd (post_results cases_body empty_db)) = QOk fail_rows /\
  ((length fail_rows <= 200)%nat /\
   (forall st, truthy (JStr "fail") = true -> to_str (JStr "fail") = Some st ->
      Forall (fun '(c, _, _, _) => c_status c = st) fail_rows)) /\
  length fail_rows = 1%nat.
Proof.
  split; [vm_compute; reflexivity|]. split; [|reflexivity].
  apply (get_cases_filter (JStr "fail") JUndef JUndef (snd (post_results cases_body empty_db))).
  vm_compute; reflexivity.
Defined.

End Queries.
