(* ===== verification/Spec.v ===== *)
(** * An abstract specification of the event history, and its refinement

    Sections 3, 4.1 and 4.2 of the specification describe the server's
    history of events without tables, transactions or sequences: an
    ingestion appends one event, with a fresh id and
    [skipped = max(0, total - passed - failed)], and the retention rule then
    keeps the project's newest five; every other request leaves the history
    as it is.  [spec_step] is that description as a labelled transition
    relation whose label is the appended event, [None] for a stutter, in
    the style of TLA refinements.  [abs] forgets everything of a database
    but its events; the theorem of this file is that every request the
    server handles, from any reachable state, is a [spec_step] of the
    abstraction, an ingestion exactly when the answer is 201. *)

From S2P Require Import Prelude JsValue Store StoreInv Retention Ingest Sums Projects Server.
Import Js Pg PgInv Retention Ingest Projects Server.

Module Spec.

Local Open Scope Z_scope.

(** An event as the specification sees it. *)
Record aevent : Type := mkAEvent {
  ae_id : Z; ae_project : option Z;
  ae_total : Z; ae_passed : Z; ae_failed : Z; ae_skipped : Z }.

(** The retention rule of section 4.2: of project [q]'s events, in
    history order, all but the newest five are dropped. *)
Definition retain (p : option Z) (s : list aevent) : list aevent :=
  match p with
  | None => s
  | Some q =>
      let mine := List.filter (fun a => bool_decide (ae_project a = Some q)) s in
      let old := map ae_id (take (length mine - keep) mine) in
      List.filter (fun a => negb (bool_decide (ae_id a ∈ old))) s
  end.

Inductive spec_step : option aevent -> list aevent -> list aevent -> Prop :=
| spec_stutter s : spec_step None s s
| spec_ingest s a :
    Forall (fun b => ae_id b < ae_id a) s ->
    ae_skipped a = Z.max 0 (ae_total a - ae_passed a - ae_failed a) ->
    spec_step (Some a) s (retain (ae_project a) (s ++ [a])).

(** The abstraction of a database. *)
Definition abs_event (e : event) : aevent :=
  mkAEvent (e_id e) (e_project_id e) (e_total e) (e_passed e) (e_failed e) (e_skipped e).

Definition abs (d : db) : list aevent := map abs_event (events d).

(** ** The abstraction through the sweep *)

Lemma abs_delete ids d :
  abs (delete_events ids d) = List.filter (fun a => negb (bool_decide (ae_id a ∈ ids))) (abs d).
Proof.
  unfold abs, delete_events. simpl. induction (events d) as [|e es IH]; simpl; [done|].
  case_match; simpl; by rewrite IH.
Qed.

Lemma abs_project_events q d :
  List.filter (fun a => bool_decide (ae_project a = Some q)) (abs d) = map abs_event (project_events q d).
Proof.
  unfold abs, project_events. induction (events d) as [|e es IH]; simpl; [done|].
  case_match; simpl; by rewrite IH.
Qed.

Lemma retain_old_ids q d :
  map ae_id (take (length (List.filter (fun a => bool_decide (ae_project a = Some q)) (abs d)) - keep)
                  (List.filter (fun a => bool_decide (ae_project a = Some q)) (abs d))) =
  map e_id (take (length (project_events q d) - keep) (project_events q d)).
Proof. rewrite abs_project_events, length_map, firstn_map, map_map. reflexivity. Qed.

(** The sweep for the project [p] of the new event is the retention rule. *)
Lemma abs_prune res p d :
  events_strict d -> to_int res = Ok p ->
  abs (snd (pruneEvents res d)) = retain p (abs d).
Proof.
  intros Hs Hres. rewrite (pruneEvents_run res p d Hres). simpl.
  destruct p as [q|]; [|done]. simpl. rewrite retain_old_ids.
  rewrite select_event_ids_sorted, length_map by done.
  destruct (Nat.ltb_spec keep (length (project_events q d))).
  - rewrite abs_delete. unfold ids_to_delete. rewrite length_map, firstn_map.
    destruct (Nat.ltb_spec keep (length (project_events q d))); [done | lia].
  - replace (length (project_events q d) - keep)%nat with 0%nat by lia. rewrite firstn_O.
    symmetry. apply filter_all. intros a _. by rewrite bool_decide_eq_false_2 by set_solver.
Qed.

(** ** The handlers as steps of the specification *)

Lemma abs_tables d d' : events d' = events d -> abs d' = abs d.
Proof. unfold abs. by intros ->. Qed.

(** A new event's id is above those of the events before it. *)
Lemma fresh_last d es ev :
  wf d -> events d = es ++ [ev] -> Forall (fun e => e_id e < e_id ev) es.
Proof.
  intros Hwf Hev. destruct (wf_events _ Hwf) as [Hsort _]. rewrite Hev in Hsort.
  apply Forall_forall. intros e He.
  eapply (StronglySorted_app_1_elem_of _ _ _ e ev Hsort); [done | by left].
Qed.

(** What the ingestion handler does to the abstraction: a stutter when the
    answer is not 201, else the specification's ingestion of the event the
    answer names, whose counts are the aggregates of the suites. *)
Lemma post_results_step body d r d' :
  server_inv d -> post_results body d = (r, d') ->
  (abs d' = abs d /\ forall b, r <> RJson 201 b) \/
  exists ss ev rids, suites_of_body body = Some ss /\ r = RJson 201 (created_body (e_id ev) rids) /\
    aggregate "total" ss = NFin (e_total ev) /\ aggregate "passed" ss = NFin (e_passed ev) /\
    aggregate "failed" ss = NFin (e_failed ev) /\
    spec_step (Some (abs_event ev)) (abs d) (abs d').
Proof.
  intros Hi H. pose proof Hi as [Hwf Hs _ Hseq Hids _ _].
  apply post_results_cases in H
    as [[-> Hr]|[(ss & e & d1 & _ & _ & _ & -> & ->)|(ss & eid & rids & res & d1 & Hss & _ & Htx & -> & ->)]].
  - by left.
  - left. split; [by apply abs_tables | done].
  - right. destruct (ingest_txn_inv ss body d eid rids res d1 Hwf Hs Htx) as [Hwf1 Hs1].
    apply ingest_txn_ok in Htx
      as (dp & ev & rs & Hres & Hpid & _ & <- & _ & _ & Ht & Hp & Hf & Hsk & _ & _ & _ & Hev & _).
    pose proof (resolve_project_tables _ _ _ _ _ Hres) as (Hevp & _ & _). simpl in Hevp.
    rewrite Hevp in Hev. exists ss, ev, rids. split_and!; [done..|].
    assert (Habs1 : abs d1 = abs d ++ [abs_event ev]) by (unfold abs; by rewrite Hev, map_app).
    replace (abs (if truthy res then snd (pruneEvents res d1) else d1))
      with (retain (ae_project (abs_event ev)) (abs d ++ [abs_event ev])).
    + constructor; [|done]. apply List.Forall_map. exact (fresh_last d1 _ ev Hwf1 Hev).
    + rewrite <- Habs1. simpl. destruct (truthy res) eqn:Ht'.
      * by rewrite (abs_prune res (e_project_id ev) d1 Hs1 Hpid).
      * destruct (e_project_id ev) as [q|] eqn:Hq; [|done].
        assert (truthy res = true); [|congruence].
        eapply resolve_truthy; [| |exact Hres|exact Hpid]; done.
Qed.

Lemma post_projects_abs body d r d' : post_projects body d = (r, d') -> abs d' = abs d.
Proof.
  intros H. destruct (post_projects_state body d r d' H) as [->|(n & de & re & r' & Hp)]; [done|].
  apply insert_project_tables in Hp as (He & _). by apply abs_tables.
Qed.

(** One request from a state satisfying the server invariant. *)
Lemma handle_step q d :
  server_inv d ->
  exists l, spec_step l (abs d) (abs (snd (handle q d))) /\
    (forall body b, q = PostResults body -> fst (handle q d) = RJson 201 b ->
       exists a ss, l = Some a /\ get b "event_id" = JNum (ae_id a) /\
         suites_of_body body = Some ss /\ aggregate "total" ss = NFin (ae_total a) /\
         aggregate "passed" ss = NFin (ae_passed a) /\ aggregate "failed" ss = NFin (ae_failed a)).
Proof.
  intros Hr. destruct q as [body|body]; simpl.
  - destruct (post_results body d) as [r d'] eqn:H. simpl.
    destruct (post_results_step body d r d' Hr H)
      as [[-> Hn]|(ss & ev & rids & Hss & -> & Ht & Hp & Hf & Hst)].
    + exists None. split; [constructor|]. intros ?? [= <-] ->. by destruct (Hn b).
    + exists (Some (abs_event ev)). split; [done|]. intros ? b [= <-] [= <-].
      exists (abs_event ev), ss. by split_and!.
  - destruct (post_projects body d) as [r d'] eqn:H. simpl.
    exists None. rewrite (post_projects_abs body d r d' H). split; [constructor | discriminate].
Qed.

(** C5: every request the server handles from a reachable state is a step
    of the specification on the abstraction: a stutter, or the ingestion of
    one event with a fresh id, [skipped = max(0, total - passed - failed)]
    and the retention rule; a 201 answer to POST /api/results is always an
    ingestion, of the event the answer names, whose counts are the sums of
    the submitted suites'. *)
Theorem handle_refines q d :
  reachable d ->
  exists l, spec_step l (abs d) (abs (snd (handle q d))) /\
    (forall body b, q = PostResults body -> fst (handle q d) = RJson 201 b ->
       exists a ss, l = Some a /\ get b "event_id" = JNum (ae_id a) /\
         suites_of_body body = Some ss /\ aggregate "total" ss = NFin (ae_total a) /\
         aggregate "passed" ss = NFin (ae_passed a) /\ aggregate "failed" ss = NFin (ae_failed a)).
Proof. intros Hr%reachable_server_inv. by apply handle_step. Qed.

(** ** The specification's reachable histories *)

Inductive spec_reachable : list aevent -> Prop :=
| spec_reach_init : spec_reachable []
| spec_reach_step l s s' : spec_reachable s -> spec_step l s s' -> spec_reachable s'.

(** C6: the histories of the server are histories of the specification:
    the abstraction of every reachable state is reachable by [spec_step]s
    from the empty history. *)
Theorem reachable_spec_reachable d : reachable d -> spec_reachable (abs d).
Proof.
  induction 1 as [|q d Hr IH]; [constructor|].
  destruct (handle_step q d (reachable_server_inv d Hr)) as [l [Hl _]].
  by eapply spec_reach_step.
Qed.

(** ** The retention ceiling holds of the specification *)

Definition of_project (q : Z) (s : list aevent) : list aevent :=
  List.filter (fun a => bool_decide (ae_project a = Some q)) s.

(** What the retention rule leaves of each project. *)
Lemma of_project_retain q0 q s :
  StronglySorted (fun a b => ae_id a < ae_id b) s ->
  of_project q (retain (Some q0) s) = if decide (q = q0) then lastn keep (of_project q0 s) else of_project q s.
Proof.
  intros Hs. pose proof (StronglySorted_lt_NoDup _ _ Hs) as Hnd. simpl. unfold of_project.
  rewrite filter_comm. case_decide as Hq.
  - subst q. rewrite <- firstn_map. unfold lastn. apply filter_not_in_take, NoDup_map_filter, Hnd.
  - apply filter_all. intros a (Ha & Hqa%bool_decide_eq_true)%filter_In.
    apply negb_true_iff, bool_decide_eq_false. intros Hin%list_elem_of_In%in_map_iff.
    destruct Hin as (b & Hab & Hb%In_take%filter_In). destruct Hb as [Hb Hqb%bool_decide_eq_true].
    assert (a = b) as <- by (eapply (StronglySorted_lt_inj ae_id s); done).
    congruence.
Qed.

Lemma spec_inv s :
  spec_reachable s ->
  StronglySorted (fun a b => ae_id a < ae_id b) s /\ forall q, (length (of_project q s) <= keep)%nat.
Proof.
  induction 1 as [|l s s' _ [Hs Hc] Hst]; [split; [constructor | intros q; simpl; lia]|].
  inversion Hst as [|s0 a Hfresh Hsk]; subst; [done|].
  assert (Hs' : StronglySorted (fun a b => ae_id a < ae_id b) (s ++ [a])) by by apply StronglySorted_snoc.
  split.
  - destruct (ae_project a); [by apply StronglySorted_filter | done].
  - intros q. assert (Hsnoc : of_project q (s ++ [a]) =
                      of_project q s ++ (if bool_decide (ae_project a = Some q) then [a] else [])).
    { unfold of_project. rewrite List.filter_app. simpl. by case_bool_decide. }
    destruct (ae_project a) as [q0|] eqn:Ha.
    + rewrite of_project_retain by done. destruct (decide (q = q0)) as [Hq|Hq].
      * rewrite length_lastn. lia.
      * rewrite Hsnoc, bool_decide_eq_false_2 by congruence. rewrite app_nil_r. apply Hc.
    + simpl. rewrite Hsnoc, bool_decide_eq_false_2 by congruence. rewrite app_nil_r. apply Hc.
Qed.

(** ** Witnesses *)

Lemma handle_refines_witness :
  (exists l, spec_step l (abs empty_db) (abs (snd (handle (PostResults example_body) empty_db))) /\
    (forall body b, PostResults example_body = PostResults body ->
       fst (handle (PostResults example_body) empty_db) = RJson 201 b ->
       exists a ss, l = Some a /\ get b "event_id" = JNum (ae_id a) /\
         suites_of_body body = Some ss /\ aggregate "total" ss = NFin (ae_total a) /\
         aggregate "passed" ss = NFin (ae_passed a) /\ aggregate "failed" ss = NFin (ae_failed a))) /\
  abs (snd (handle (PostResults example_body) empty_db)) = [mkAEvent 1 (Some 1) 2 1 1 0].
Proof. split; [apply handle_refines, reach_init | vm_compute; reflexivity]. Defined.

Lemma reachable_spec_reachable_witness :
  spec_reachable (abs (snd (serve six_posts empty_db))) /\
  map ae_id (abs (snd (serve six_posts empty_db))) = [2; 3; 4; 5; 6].
Proof.
  split; [apply reachable_spec_reachable, serve_reachable, reach_init | vm_compute; reflexivity].
Defined.

End Spec.
