(* ===== verification/Live.v ===== *)
(** * When POST /api/results succeeds

    The theorems of Ingest.v, Payload.v and Spec.v say what a 201 answer
    means; this file says when the handler gives it.  A payload is good
    ([body_good], an executable check) when it passes validation, every
    suite's counts bind as integers, every case has a name, a status among
    [pass]/[fail]/[skip], a type among [positive]/[negative] or none and an
    integer duration, the summed counts fit the event's [INTEGER] columns,
    and the project is given by name (or not at all).  For such a payload,
    and a state whose [SERIAL] sequences have room for the ids it draws
    ([room]), the handler answers 201: the transaction commits and the
    sweep after it cannot fail.  The proof follows the handler statement by
    statement; each database it passes through extends the previous one
    ([ext]) and has drawn exactly the ids counted by [seqs_after]. *)

From S2P Require Import Prelude JsValue Store StoreInv Retention Ingest Payload Server.
Import Js Pg PgInv Retention Ingest Payload Server.

Module Live.

Local Open Scope Z_scope.

(** ** Growing databases *)

(** [d'] has the rows of [d] and maybe more at the end of each table. *)
Record ext (d d' : db) : Prop := {
  ext_projects : exists ps, projects d' = projects d ++ ps;
  ext_events : exists es, events d' = events d ++ es;
  ext_runs : exists rs, runs d' = runs d ++ rs;
  ext_cases : exists cs, cases d' = cases d ++ cs;
  ext_clock : clock d' = clock d }.

#[export] Instance ext_preorder : PreOrder ext.
Proof.
  split.
  - intros d. constructor; try (exists []; by rewrite app_nil_r); done.
  - intros d1 d2 d3 [[p1 H1] [e1 E1] [r1 R1] [c1 C1] K1] [[p2 H2] [e2 E2] [r2 R2] [c2 C2] K2].
    constructor; [exists (p1 ++ p2) | exists (e1 ++ e2) | exists (r1 ++ r2) | exists (c1 ++ c2) | congruence];
      by rewrite ?H2, ?E2, ?R2, ?C2, ?H1, ?E1, ?R1, ?C1, app_assoc.
Qed.

Lemma existsb_ext {A} (f : A -> bool) xs ys : existsb f xs = true -> existsb f (xs ++ ys) = true.
Proof. rewrite existsb_app. by intros ->. Qed.

Lemma project_exists_ext k d d' : ext d d' -> project_exists k d = true -> project_exists k d' = true.
Proof. unfold project_exists. intros [[ps ->] _ _ _ _]. apply existsb_ext. Qed.
Lemma event_exists_ext k d d' : ext d d' -> event_exists k d = true -> event_exists k d' = true.
Proof. unfold event_exists. intros [_ [es ->] _ _ _]. apply existsb_ext. Qed.
Lemma run_exists_ext k d d' : ext d d' -> run_exists k d = true -> run_exists k d' = true.
Proof. unfold run_exists. intros [_ _ [rs ->] _ _]. apply existsb_ext. Qed.

(** The ids drawn between [d] and [d']. *)
Definition seqs_after (d d' : db) (np ne nr nc : Z) : Prop :=
  seq_projects d' = seq_projects d + np /\ seq_events d' = seq_events d + ne /\
  seq_runs d' = seq_runs d + nr /\ seq_cases d' = seq_cases d + nc.

Lemma seqs_after_trans d1 d2 d3 a b c e a' b' c' e' :
  seqs_after d1 d2 a b c e -> seqs_after d2 d3 a' b' c' e' ->
  seqs_after d1 d3 (a + a') (b + b') (c + c') (e + e').
Proof. unfold seqs_after. lia. Qed.

(** ** The case rows *)

(** A row whose parameters satisfy the constraints of [test_cases]. *)
Definition row_good (cp : case_params) (b : option Z * option Z) : Prop :=
  b.1 <> None /\ to_str (cp_case_name cp) <> None /\
  (exists st, to_str (cp_status cp) = Some st /\ status_ok st = true) /\
  type_ok (to_str (cp_type cp)) = true.

Lemma insert_case_row_live cp b d :
  row_good cp b -> seq_cases d < int32_max ->
  exists id d', insert_case_row cp b d = (Ok id, d') /\ ext d d' /\ seqs_after d d' 0 0 0 1 /\
    projects d' = projects d /\ events d' = events d /\ runs d' = runs d.
Proof.
  intros (Hr & Hn & (st & Hst & Hok) & Hty) Hs.
  destruct b as [[r|] du]; [|done]. destruct (to_str (cp_case_name cp)) as [n|] eqn:En; [|done].
  unfold insert_case_row, sbind, nextval_cases, lift, not_null, sret, sthrow.
  destruct (Z.ltb_spec (seq_cases d) int32_max); [|lia]. simpl. rewrite En, Hst. simpl.
  rewrite Hty, Hok. simpl. do 2 eexists. split; [reflexivity|].
  split_and!; try done; [|unfold seqs_after; simpl; lia].
  constructor; simpl; try done; try (exists []; by rewrite app_nil_r). eexists. reflexivity.
Qed.

Lemma insert_case_rows_live rows d :
  Forall (fun '(cp, b) => row_good cp b) rows ->
  0 <= seq_cases d -> seq_cases d + Z.of_nat (length rows) <= int32_max ->
  exists ids d', insert_case_rows rows d = (Ok ids, d') /\ ext d d' /\
    seqs_after d d' 0 0 0 (Z.of_nat (length rows)) /\
    projects d' = projects d /\ events d' = events d /\ runs d' = runs d.
Proof.
  revert d. induction rows as [|[cp b] rows IH]; intros d Hg H0 Hroom; simpl.
  - do 2 eexists. split; [reflexivity|]. split_and!; [reflexivity | unfold seqs_after; lia | done..].
  - apply Forall_cons in Hg as [Hg1 Hg]. simpl in Hroom.
    destruct (insert_case_row_live cp b d Hg1 ltac:(lia)) as (id & d1 & H1 & He1 & Hs1 & Hp1 & Hv1 & Hr1).
    destruct (IH d1 Hg ltac:(unfold seqs_after in Hs1; lia) ltac:(unfold seqs_after in Hs1; lia))
      as (ids & d2 & H2 & He2 & Hs2 & Hp2 & Hv2 & Hr2).
    unfold sbind. rewrite H1, H2. do 2 eexists. split; [reflexivity|].
    split_and!; [by transitivity d1 | | congruence..].
    replace (Z.of_nat (S (length rows))) with (1 + Z.of_nat (length rows)) by lia.
    exact (seqs_after_trans _ _ _ 0 0 0 1 0 0 0 _ Hs1 Hs2).
Qed.

(** ** The cases of a suite *)

Definition int_param (v : jsval) : bool := match to_int v with Ok _ => true | Err _ => false end.

(** A case object the batched insert accepts (line 206 and the CHECKs of
    lines 60-61). *)
Definition case_good (c : jsval) : bool :=
  negb (nullish c) && negb (nullish (get c "case_name")) &&
  forallb text_ok [or_else (get c "case_id") JNull; get c "case_name";
                   or_else (get c "description") JNull; or_else (get c "module") JNull;
                   or_else (get c "type") JNull; get c "status"; or_else (get c "error_message") JNull] &&
  match to_str (get c "status") with Some st => status_ok st | None => false end &&
  type_ok (to_str (or_else (get c "type") JNull)) &&
  int_param (or_else (get c "duration_ms") JNull).

Definition cp_good (runId : Z) (cp : case_params) : Prop :=
  cp_run_id cp = JNum runId /\ to_str (cp_case_name cp) <> None /\
  (exists st, to_str (cp_status cp) = Some st /\ status_ok st = true) /\
  type_ok (to_str (cp_type cp)) = true /\ exists du, to_int (cp_duration_ms cp) = Ok du /\
  forallb text_ok (case_texts cp) = true.

Lemma to_str_nullish v : nullish v = false -> to_str v <> None.
Proof. by destruct v. Qed.

Lemma cases_params_live runId cs :
  forallb case_good cs = true ->
  exists cps, cases_params runId cs = Some cps /\ length cps = length cs /\ Forall (cp_good runId) cps.
Proof.
  induction cs as [|c cs IH]; simpl; [eexists; split_and!; [done | done | constructor]|].
  intros (Hc & Hcs)%andb_prop. destruct (IH Hcs) as (cps & -> & Hl & Hg).
  unfold case_good in Hc. apply andb_prop in Hc as [Hc Hdu]. apply andb_prop in Hc as [Hc Hty].
  apply andb_prop in Hc as [Hc Hst]. apply andb_prop in Hc as [Hc Htx]. apply andb_prop in Hc as [Hn Hname].
  apply negb_true_iff in Hn, Hname. unfold case_params_of.
  destruct c; try discriminate; simpl; eexists; (split_and!; [reflexivity | simpl; lia |]);
    constructor; try done; split_and!; try done; simpl in *;
    [by apply to_str_nullish
    | destruct (to_str _); [eexists; split; [reflexivity | done] | discriminate]
    | unfold int_param in Hdu; destruct (to_int _); [eexists; split; [reflexivity | done] | discriminate]].
Qed.

Lemma bind_cases_live runId cps :
  in_int32 runId = true -> Forall (cp_good runId) cps ->
  exists bs, bind_cases cps = Ok bs /\ Forall2 (fun cp b => b.1 = Some runId /\ row_good cp b) cps bs.
Proof.
  intros Hin. induction 1 as [|cp cps (Hr & Hn & Hst & Hty & du & Hdu & Htx) _ (bs & Hbs & Hf)]; simpl.
  - eexists. split; [done | constructor].
  - unfold bind_case. rewrite Hr, to_int_JNum, Hin, Htx, Hdu, Hbs.
    eexists. split; [reflexivity|]. constructor; [|done]. simpl. split_and!; done.
Qed.

Lemma Forall2_zip {A B} (P : A * B -> Prop) xs ys :
  Forall2 (fun a b => P (a, b)) xs ys -> Forall P (zip xs ys).
Proof. induction 1; simpl; constructor; done. Qed.

Lemma insert_cases_live runId cps d :
  in_int32 runId = true -> Forall (cp_good runId) cps -> run_exists runId d = true ->
  9 * Z.of_nat (length cps) <= max_params ->
  0 <= seq_cases d -> seq_cases d + Z.of_nat (length cps) <= int32_max ->
  exists d', insert_cases cps d = (Ok tt, d') /\ ext d d' /\
    seqs_after d d' 0 0 0 (Z.of_nat (length cps)) /\
    projects d' = projects d /\ events d' = events d /\ runs d' = runs d.
Proof.
  intros Hin Hg Hrun Hmax H0 Hroom. destruct (bind_cases_live runId cps Hin Hg) as (bs & Hbs & Hf).
  pose proof (Forall2_length _ _ _ Hf) as Hlen.
  destruct (insert_case_rows_live (zip cps bs) d) as (ids & d1 & H1 & He & Hs & Hp & Hv & Hr).
  { apply Forall2_zip. eapply Forall2_impl; [exact Hf|]. by intros ?? [_ ?]. }
  { done. }
  { rewrite length_zip, <- Hlen, Nat.min_id. lia. }
  rewrite length_zip, <- Hlen, Nat.min_id in Hs.
  unfold insert_cases, atomic, sbind, lift, sret. rewrite (proj2 (Z.ltb_ge _ _) Hmax), Hbs, H1.
  replace (forallb _ bs) with true.
  - eexists. by split_and!.
  - symmetry. apply forallb_forall. intros b Hb.
    apply (Forall2_r _ (fun b => b.1 = Some runId)) in Hf; [|by intros ?? [? _]].
    rewrite List.Forall_forall in Hf. rewrite (Hf b Hb). unfold run_exists. by rewrite Hr.
Qed.

(** ** Runs and suites *)

Lemma fk_ok_ext k d d' : ext d d' -> fk_ok project_exists k d -> fk_ok project_exists k d'.
Proof. destruct k; simpl; [apply project_exists_ext | done]. Qed.

Lemma insert_run_live name n tot t pas ps fai f pid p eid d :
  text_ok name = true -> to_str name = Some n -> to_int tot = Ok (Some t) -> to_int pas = Ok (Some ps) ->
  to_int fai = Ok (Some f) -> to_int pid = Ok p -> fk_ok project_exists p d ->
  in_int32 eid = true -> event_exists eid d = true -> seq_runs d < int32_max ->
  exists d', insert_run name tot pas fai pid (JNum eid) d = (Ok (seq_runs d + 1), d') /\
    ext d d' /\ seqs_after d d' 0 0 1 0 /\ run_exists (seq_runs d + 1) d' = true.
Proof.
  intros Htx Hn Ht Hps Hf Hp Hfk Hin He Hs.
  unfold insert_run, atomic, sbind, lift, nextval_runs, not_null, fk_check, sret, bind_text.
  rewrite Htx, Ht, Hps, Hf, Hp, to_int_JNum, Hin. destruct (Z.ltb_spec (seq_runs d) int32_max); [|lia].
  simpl. rewrite Hn. unfold project_exists, event_exists in *.
  destruct p as [k|]; simpl in Hfk |- *; [rewrite Hfk|]; simpl; rewrite He;
    eexists; (split; [reflexivity|]); (split_and!;
      [constructor; simpl; try done; try (exists []; by rewrite app_nil_r); eexists; reflexivity
      | unfold seqs_after; simpl; lia
      | unfold run_exists; simpl; rewrite existsb_app; simpl; rewrite Z.eqb_refl, orb_true_r; done]).
Qed.

Definition int_some (v : jsval) : bool := match to_int v with Ok (Some _) => true | _ => false end.

(** A suite whose run and cases the handler can insert. *)
Definition suite_good (s : jsval) : bool :=
  negb (nullish (get s "suite_name")) && text_ok (get s "suite_name") &&
  int_some (get s "total") && int_some (get s "passed") &&
  int_some (get s "failed") && forallb case_good (suite_cases s) &&
  (9 * Z.of_nat (length (suite_cases s)) <=? max_params).

Definition ncases (ss : list jsval) : Z := sumZ (fun s => Z.of_nat (length (suite_cases s))) ss.

(** The ids [s + 1], ..., [s + n] a sequence at [s] hands out next. *)
Definition next_ids (s : Z) (n : nat) : list Z := map (fun i => s + Z.of_nat i) (seq 1 n).

Lemma next_ids_S s n : next_ids s (S n) = (s + 1) :: next_ids (s + 1) n.
Proof.
  unfold next_ids. cbn [seq map]. f_equal. rewrite <- seq_shift, map_map.
  apply map_ext. intros. lia.
Qed.

Lemma int_some_spec v : int_some v = true -> exists z, to_int v = Ok (Some z).
Proof. unfold int_some. destruct (to_int v) as [[z|]|]; [eauto | discriminate..]. Qed.

Lemma insert_suite_live resolved p eid s d :
  to_int resolved = Ok p -> fk_ok project_exists p d -> in_int32 eid = true ->
  event_exists eid d = true -> suite_good s = true ->
  0 <= seq_runs d < int32_max -> 0 <= seq_cases d ->
  seq_cases d + Z.of_nat (length (suite_cases s)) <= int32_max ->
  exists d', insert_suite resolved eid s d = (Ok (seq_runs d + 1), d') /\ ext d d' /\
    seqs_after d d' 0 0 1 (Z.of_nat (length (suite_cases s))).
Proof.
  intros Hp Hfk Hin He Hg Hr Hc Hroom. unfold suite_good in Hg.
  apply andb_prop in Hg as [Hg Hmax]. apply Z.leb_le in Hmax.
  apply andb_prop in Hg as [Hg Hcases]. apply andb_prop in Hg as [Hg Hf].
  apply andb_prop in Hg as [Hg Hps]. apply andb_prop in Hg as [Hg Ht]. apply andb_prop in Hg as [Hn Htx].
  apply negb_true_iff, to_str_nullish in Hn. destruct (to_str (get s "suite_name")) as [n|] eqn:En; [|done].
  apply int_some_spec in Ht as [t Ht], Hps as [ps Hps], Hf as [f Hf].
  destruct (insert_run_live _ n _ t _ ps _ f resolved p eid d Htx En Ht Hps Hf Hp Hfk Hin He ltac:(lia))
    as (d1 & H1 & He1 & Hs1 & Hrun).
  unfold insert_suite, sbind, sql. rewrite H1.
  destruct (suite_cases s) as [|c cs] eqn:Hcs.
  - eexists. split; [reflexivity|]. split; [done|]. unfold seqs_after in *. simpl. lia.
  - destruct (cases_params_live (seq_runs d + 1) (c :: cs) Hcases) as (cps & -> & Hl & Hcp).
    unfold seqs_after in Hs1.
    destruct (insert_cases_live (seq_runs d + 1) cps d1) as (d2 & H2 & He2 & Hs2 & _);
      [unfold in_int32, int32_min, int32_max in *; lia | done | done | rewrite Hl; lia | lia | rewrite Hl; lia |].
    rewrite H2. eexists. split; [reflexivity|]. split; [by transitivity d1|].
    rewrite Hl in Hs2. unfold seqs_after in *. lia.
Qed.

Lemma insert_suites_live resolved p eid ss d :
  to_int resolved = Ok p -> fk_ok project_exists p d -> in_int32 eid = true ->
  event_exists eid d = true -> forallb suite_good ss = true ->
  0 <= seq_runs d -> seq_runs d + Z.of_nat (length ss) <= int32_max ->
  0 <= seq_cases d -> seq_cases d + ncases ss <= int32_max ->
  exists d', smapM (insert_suite resolved eid) ss d = (Ok (next_ids (seq_runs d) (length ss)), d') /\ ext d d' /\
    seqs_after d d' 0 0 (Z.of_nat (length ss)) (ncases ss).
Proof.
  revert d. induction ss as [|s ss IH]; intros d Hp Hfk Hin He Hg Hr0 Hr Hc0 Hc; simpl.
  - eexists. split; [reflexivity|]. split; [reflexivity|]. unfold seqs_after, ncases. rewrite sumZ_nil. simpl. lia.
  - apply andb_prop in Hg as [Hg Hgs]. unfold ncases in Hc |- *. rewrite sumZ_cons in Hc |- *.
    assert (0 <= sumZ (fun s => Z.of_nat (length (suite_cases s))) ss).
    { clear. induction ss; rewrite ?sumZ_nil, ?sumZ_cons; lia. }
    cbn [length] in Hr.
    destruct (insert_suite_live resolved p eid s d) as (d1 & H1 & He1 & Hs1); try done; try lia.
    unfold seqs_after in Hs1.
    destruct (IH d1) as (d2 & H2 & He2 & Hs2);
      [done | by eapply fk_ok_ext | done | by eapply event_exists_ext | done | lia | lia | lia |
       unfold ncases; lia |].
    unfold sbind. rewrite H1, H2. eexists. split.
    { unfold seqs_after in Hs1. rewrite next_ids_S, (proj1 (proj2 (proj2 Hs1))). reflexivity. }
    split; [by transitivity d1|]. unfold seqs_after, ncases in *. rewrite Nat2Z.inj_succ. lia.
Qed.

(** ** The event and the project *)

Lemma insert_event_live resolved pr name n trig tr t ps f sk d :
  to_int resolved = Ok pr -> fk_ok project_exists pr d -> text_ok name = true -> text_ok trig = true ->
  to_str name = Some n -> to_str trig = Some tr -> in_int32 t = true -> in_int32 ps = true -> in_int32 f = true ->
  in_int32 sk = true -> seq_events d < int32_max ->
  exists d', insert_event resolved name trig (JNum t) (JNum ps) (JNum f) (JNum sk) d =
      (Ok (seq_events d + 1), d') /\
    ext d d' /\ seqs_after d d' 0 1 0 0 /\ event_exists (seq_events d + 1) d' = true.
Proof.
  intros Hp Hfk Hxn Hxt Hn Htr Ht Hps Hf Hsk Hs.
  unfold insert_event, atomic, sbind, lift, nextval_events, not_null, fk_check, sret, bind_text.
  rewrite Hp, Hxn, Hxt, !to_int_JNum, Ht, Hps, Hf, Hsk. destruct (Z.ltb_spec (seq_events d) int32_max); [|lia].
  simpl. rewrite Hn, Htr. unfold project_exists, event_exists in *.
  destruct pr as [k|]; simpl in Hfk |- *; [rewrite Hfk|]; simpl;
    eexists; (split; [reflexivity|]); (split_and!;
      [constructor; simpl; try done; try (exists []; by rewrite app_nil_r); eexists; reflexivity
      | unfold seqs_after; simpl; lia
      | simpl; rewrite existsb_app; simpl; rewrite Z.eqb_refl, orb_true_r; done]).
Qed.

Lemma to_str_truthy' v : truthy v = true -> exists s, to_str v = Some s.
Proof. destruct v; simpl; try discriminate; eauto. Qed.

(** Project ids are positive and drawn from the sequence. *)
Definition pids_ok (d : db) : Prop :=
  Forall (fun p => 0 < p_id p <= seq_projects d) (projects d).

Lemma in_int32_pid d p : pids_ok d -> seq_projects d < int32_max -> In p (projects d) ->
  in_int32 (p_id p) = true.
Proof.
  unfold pids_ok, in_int32, int32_min, int32_max. rewrite List.Forall_forall.
  intros H ? Hin%H. apply andb_true_intro. split; apply Z.leb_le; lia.
Qed.

(** Lines 166-173 with [project_id] falsy: no project, or the upserted one. *)
Lemma resolve_live pid name d :
  truthy pid = false -> text_ok name = true -> pids_ok d -> 0 <= seq_projects d < int32_max ->
  exists resolved p np d', resolve_project pid name d = (Ok resolved, d') /\ ext d d' /\
    seqs_after d d' np 0 0 0 /\ 0 <= np <= 1 /\ to_int resolved = Ok p /\ fk_ok project_exists p d'.
Proof.
  intros Hpid Hx Hok Hs. unfold resolve_project, or_else. rewrite Hpid. simpl.
  destruct (truthy name) eqn:Hname; simpl.
  2: { exists JNull, None, 0, d. split_and!; try done; try lia; unfold seqs_after; lia. }
  destruct (to_str_truthy' _ Hname) as [n Hn].
  unfold sbind, sql, upsert_project, atomic, sbind, nextval_projects, lift, not_null, bind_text.
  rewrite Hx. destruct (Z.ltb_spec (seq_projects d) int32_max); [|lia]. simpl. rewrite Hn.
  unfold find_project_by_name. simpl. destruct (List.find _ (projects d)) as [p|] eqn:Hf; simpl.
  - apply find_some in Hf as [Hin _].
    exists (JNum (p_id p)), (Some (p_id p)), 1. eexists. split; [reflexivity|].
    split_and!; [constructor; simpl; try done; by (exists []; rewrite app_nil_r)
      | unfold seqs_after; simpl; lia | lia | lia
      | rewrite to_int_JNum, (in_int32_pid d p); auto; lia
      | simpl; unfold project_exists; simpl; apply existsb_exists; exists p; by rewrite Z.eqb_refl].
  - exists (JNum (seq_projects d + 1)), (Some (seq_projects d + 1)), 1. eexists. split; [reflexivity|].
    split_and!; [constructor; simpl; try done; try (exists []; by rewrite app_nil_r); eexists; reflexivity
      | unfold seqs_after; simpl; lia | lia | lia
      | rewrite to_int_JNum; unfold in_int32, int32_min, int32_max in *;
        replace (_ && _) with true; [done|]; symmetry; apply andb_true_intro; split; apply Z.leb_le; lia
      | simpl; unfold project_exists; simpl; rewrite existsb_app; simpl; by rewrite Z.eqb_refl, orb_true_r].
Qed.

(** ** The transaction and the handler *)

Definition skipped_of (ss : list jsval) : num :=
  num_max0 (num_sub (num_sub (aggregate "total" ss) (aggregate "passed" ss)) (aggregate "failed" ss)).

(** The four event counts of lines 176-180 bind as [INTEGER]s. *)
Definition agg_ok (ss : list jsval) : bool :=
  int_some (num_to_js (aggregate "total" ss)) && int_some (num_to_js (aggregate "passed" ss)) &&
  int_some (num_to_js (aggregate "failed" ss)) && int_some (num_to_js (skipped_of ss)).

Lemma int_some_num n : int_some (num_to_js n) = true -> exists z, n = NFin z /\ in_int32 z = true.
Proof.
  unfold int_some. destruct n as [z|]; [|intros H; vm_compute in H; discriminate].
  cbn [num_to_js]. rewrite to_int_JNum.
  destruct (in_int32 z) eqn:H; [eauto | discriminate].
Qed.

Lemma to_str_or_else v s : exists n, to_str (or_else v (JStr s)) = Some n.
Proof. unfold or_else. destruct (truthy v) eqn:H; [by apply to_str_truthy' | eexists; reflexivity]. Qed.

Lemma ingest_txn_live ss body d :
  truthy (get body "project_id") = false -> text_ok (get body "project_name") = true ->
  text_ok (or_else (get body "event_name") (JStr "Test Run")) = true ->
  text_ok (or_else (get body "trigger") (JStr "manual")) = true -> forallb suite_good ss = true -> agg_ok ss = true ->
  pids_ok d -> 0 <= seq_projects d < int32_max -> 0 <= seq_events d < int32_max ->
  0 <= seq_runs d -> seq_runs d + Z.of_nat (length ss) <= int32_max ->
  0 <= seq_cases d -> seq_cases d + ncases ss <= int32_max ->
  exists resolved p np d', ingest_txn ss body d =
      (Ok (seq_events d + 1, next_ids (seq_runs d) (length ss), resolved), d') /\
    to_int resolved = Ok p /\ 0 <= np <= 1 /\
    seqs_after d d' np 1 (Z.of_nat (length ss)) (ncases ss).
Proof.
  intros Hpid Hxp Hxn Hxt Hg Hagg Hok Hp He Hr0 Hr Hc0 Hc.
  destruct (resolve_live _ (get body "project_name") d Hpid Hxp Hok Hp)
    as (res & pr & np & d1 & H1 & E1 & S1 & Hnp & Hres & Hfk).
  unfold agg_ok, skipped_of in Hagg.
  apply andb_prop in Hagg as [Hagg Hsk]. apply andb_prop in Hagg as [Hagg Hf].
  apply andb_prop in Hagg as [Ht Hps].
  apply int_some_num in Ht as (t & Et & Ht), Hps as (ps & Eps & Hps), Hf as (f & Ef & Hf).
  rewrite Et, Eps, Ef in Hsk. apply int_some_num in Hsk as (sk & Esk & Hsk).
  simpl in Esk. injection Esk as <-.
  destruct (to_str_or_else (get body "event_name") "Test Run") as [n Hn].
  destruct (to_str_or_else (get body "trigger") "manual") as [tr Htr].
  unfold seqs_after in S1.
  assert (seq_events d1 < int32_max) as Hs1 by lia.
  destruct (insert_event_live res pr _ n _ tr t ps f (Z.max 0 (t - ps - f)) d1 Hres Hfk Hxn Hxt Hn Htr
              Ht Hps Hf Hsk Hs1) as (d2 & H2 & E2 & S2 & Hev).
  unfold seqs_after in S2.
  destruct (insert_suites_live res pr (seq_events d1 + 1) ss d2) as (d3 & H3 & E3 & S3);
    [done | by eapply fk_ok_ext | unfold in_int32, int32_min, int32_max in *; lia
    | done | done | lia | lia | lia | lia |].
  assert (seq_runs d2 = seq_runs d) as Er by lia. rewrite Er in H3.
  assert (seq_events d1 = seq_events d) as Ee by lia. rewrite Ee in H2, H3.
  unfold ingest_txn, sbind, sql. rewrite H1, Et, Eps, Ef. simpl. rewrite H2, H3.
  exists res, pr, np, d3. split_and!; try done; try lia. unfold seqs_after in *. lia.
Qed.

(** A request the handler can store: [project_id] falsy, suites passing
    validation whose runs and cases bind, and event counts that bind. *)
Definition body_good (body : jsval) : bool :=
  negb (truthy (get body "project_id")) && text_ok (get body "project_name") &&
  text_ok (or_else (get body "event_name") (JStr "Test Run")) &&
  text_ok (or_else (get body "trigger") (JStr "manual")) &&
  match suites_of_body body with
  | Some ss => negb (existsb suite_missing ss) && forallb suite_good ss && agg_ok ss
  | None => false
  end.

(** Sequences with room for the ids the request draws. *)
Definition room (body : jsval) (d : db) : bool :=
  match suites_of_body body with
  | Some ss =>
      (seq_projects d <? int32_max) && (0 <=? seq_events d) && (seq_events d <? int32_max) &&
      (0 <=? seq_runs d) && (seq_runs d + Z.of_nat (length ss) <=? int32_max) &&
      (0 <=? seq_cases d) && (seq_cases d + ncases ss <=? int32_max)
  | None => false
  end.

Lemma server_inv_pids d : server_inv d -> pids_ok d.
Proof.
  intros Hi. pose proof (si_ids d Hi) as H1. destruct (wf_projects d (si_wf d Hi)) as [_ H2].
  unfold pids_ok. rewrite List.Forall_forall in *. intros p Hp. split; [by apply H1 | by apply H2].
Qed.

Lemma room_spec body d ss : suites_of_body body = Some ss -> room body d = true ->
  seq_projects d < int32_max /\ 0 <= seq_events d < int32_max /\
  0 <= seq_runs d /\ seq_runs d + Z.of_nat (length ss) <= int32_max /\
  0 <= seq_cases d /\ seq_cases d + ncases ss <= int32_max.
Proof.
  unfold room. intros -> H. repeat (apply andb_prop in H as [H ?]).
  repeat match goal with H : (_ <=? _) = true |- _ => apply Z.leb_le in H
                       | H : (_ <? _) = true |- _ => apply Z.ltb_lt in H end.
  lia.
Qed.

Lemma room_intro body d ss : suites_of_body body = Some ss ->
  seq_projects d < int32_max -> 0 <= seq_events d < int32_max ->
  0 <= seq_runs d -> seq_runs d + Z.of_nat (length ss) <= int32_max ->
  0 <= seq_cases d -> seq_cases d + ncases ss <= int32_max -> room body d = true.
Proof.
  unfold room. intros ->. intros. rewrite !andb_true_iff, !Z.leb_le, !Z.ltb_lt. lia.
Qed.

Lemma prune_live res p d : to_int res = Ok p ->
  exists d', (if truthy res then sql (pruneEvents res) else sret tt) d = (Ok tt, d') /\
    seqs_after d d' 0 0 0 0.
Proof.
  intros Hres. unfold seqs_after. destruct (truthy res); [|eexists; split; [done | lia]].
  unfold sql, pruneEvents, sbind, lift. rewrite Hres. simpl.
  destruct (keep <? _)%nat; eexists; (split; [done | simpl; lia]).
Qed.

(** The handler's progress from a state of the server invariant, with the
    ids it draws: one project id when the project is named, one event id,
    one run id per suite and one case id per case. *)
Lemma post_results_progress body d ss :
  server_inv d -> suites_of_body body = Some ss -> body_good body = true -> room body d = true ->
  exists np d', post_results body d =
    (RJson 201 (created_body (seq_events d + 1) (next_ids (seq_runs d) (length ss))), d') /\
    0 <= np <= 1 /\ seqs_after d d' np 1 (Z.of_nat (length ss)) (ncases ss).
Proof.
  intros Hd Hss Hg Hroom.
  destruct (room_spec body d ss Hss Hroom) as (Hp & He & Hr0 & Hr & Hc0 & Hc).
  unfold body_good in Hg. rewrite Hss in Hg.
  apply andb_prop in Hg as [Hg1 Hg]. apply andb_prop in Hg1 as [Hg1 Hxt].
  apply andb_prop in Hg1 as [Hg1 Hxn]. apply andb_prop in Hg1 as [Hpid Hxp].
  apply andb_prop in Hg as [Hg Hagg].
  apply andb_prop in Hg as [Hv Hsg]. apply negb_true_iff in Hpid, Hv.
  pose proof (si_seq d Hd).
  destruct (ingest_txn_live ss body (tick d) Hpid Hxp Hxn Hxt Hsg Hagg (server_inv_pids d Hd))
    as (res & p & np & d1 & H1 & Hres & Hnp & S1); simpl; try lia.
  unfold post_results. rewrite Hss, (proj2 (validate_Valid ss) Hv), H1.
  destruct (prune_live res p d1 Hres) as (d2 & -> & S2).
  exists np, d2. split_and!; [done | lia | lia |]. unfold seqs_after in *. simpl in S1. lia.
Qed.

(** C9: progress of POST /api/results.  In every reachable state, a
    request that passes validation, whose project is given by name (or not
    at all), whose suites, cases and event counts bind to the columns'
    types and CHECKs, and whose ids fit in the [SERIAL] sequences, is
    answered 201: the event gets the next event id and the suites the next
    run ids, in order. *)
Theorem post_results_live body d ss :
  reachable d -> suites_of_body body = Some ss -> body_good body = true -> room body d = true ->
  exists d', post_results body d =
    (RJson 201 (created_body (seq_events d + 1) (next_ids (seq_runs d) (length ss))), d').
Proof.
  intros Hd%reachable_server_inv Hss Hg Hroom.
  destruct (post_results_progress body d ss Hd Hss Hg Hroom) as (np & d' & H & _). by exists d'.
Qed.

(** C28: the upsert of lines 168-172 draws a project id before it finds
    the conflict, so every ingestion that names its project uses one value
    of the projects sequence, whether or not the project exists.  Once the
    sequence is exhausted, every such request whose project name binds is
    answered 500, also for a registered project, for which no row would be
    inserted. *)
Theorem post_results_project_seq_exhausted body d ss :
  suites_of_body body = Some ss -> validate ss = Valid ->
  truthy (get body "project_id") = false -> truthy (get body "project_name") = true ->
  text_ok (get body "project_name") = true -> int32_max <= seq_projects d ->
  fst (post_results body d) = RError 500 (ESql SeqLimit).
Proof.
  intros Hss Hv Hpid Hname Hx Hfull. unfold post_results. rewrite Hss, Hv.
  unfold ingest_txn, resolve_project, or_else. rewrite Hpid. simpl. rewrite Hname.
  unfold sbind, sql, upsert_project, atomic, sbind, nextval_projects, lift, bind_text. rewrite Hx. simpl.
  destruct (Z.ltb_spec (seq_projects d) int32_max); [lia|]. reflexivity.
Qed.

(** C36: a project name holding a NUL byte cannot be bound as [text]: the
    upsert of lines 168-172, the transaction's first statement, is refused
    with 22021, so a well-formed request naming its project so is answered
    500 whatever the state. *)
Theorem post_results_project_name_nul body d ss :
  suites_of_body body = Some ss -> validate ss = Valid ->
  truthy (get body "project_id") = false -> truthy (get body "project_name") = true ->
  text_ok (get body "project_name") = false ->
  fst (post_results body d) = RError 500 (ESql CharNotInRepertoire).
Proof.
  intros Hss Hv Hpid Hname Hx. unfold post_results. rewrite Hss, Hv.
  unfold ingest_txn, resolve_project, or_else. rewrite Hpid. simpl. rewrite Hname.
  unfold sbind, sql, upsert_project, atomic, sbind, lift, bind_text. rewrite Hx. reflexivity.
Qed.

(** ** Witnesses *)

(** After six ingestions from the empty store, a seventh is answered 201
    with event id 7 and run id 7. *)
Lemma post_results_live_witness :
  let d := snd (serve six_posts empty_db) in
  (seq_events d + 1, next_ids (seq_runs d) 1) = (7, [7]) /\
  exists d', post_results example_body d =
    (RJson 201 (created_body (seq_events d + 1) (next_ids (seq_runs d) 1)), d').
Proof.
  intros d. split; [vm_compute; reflexivity|].
  apply (post_results_live example_body d [example_suite]);
    [apply serve_reachable, reach_init | reflexivity | vm_compute; reflexivity..].
Defined.

(** The example database with its projects sequence at its last value:
    project [p1] is registered, yet ingesting for it fails. *)
Definition exhausted_db : db :=
  mkDb (projects example_db) (events example_db) (runs example_db) (cases example_db)
       int32_max (seq_events example_db) (seq_runs example_db) (seq_cases example_db)
       (clock example_db).

Lemma post_results_project_seq_exhausted_witness :
  find_project_by_name "p1" exhausted_db <> None /\
  fst (post_results example_body exhausted_db) = RError 500 (ESql SeqLimit).
Proof.
  split; [vm_compute; discriminate|].
  apply (post_results_project_seq_exhausted example_body exhausted_db [example_suite]);
    try reflexivity; vm_compute; lia.
Defined.

(** Project [p1] sent with a NUL byte at the end of its name. *)
Definition nul_name_body : jsval :=
  JObj [("project_name", JStr (String.append "p1" (String nul EmptyString))); ("suites", JArr [example_suite])].

Lemma post_results_project_name_nul_witness :
  fst (post_results nul_name_body example_db) = RError 500 (ESql CharNotInRepertoire).
Proof. apply (post_results_project_name_nul nul_name_body example_db [example_suite]); reflexivity. Defined.

(** A suite of 7282 cases: its one multi-row insert needs 65538 parameters,
    more than the protocol's 65535, and the request is answered 500. *)
Definition big_suite_body : jsval :=
  JObj [("project_name", JStr "p1");
        ("suites", JArr [JObj [("suite_name", JStr "a"); ("total", JNum 7282); ("passed", JNum 7282);
                               ("failed", JNum 0);
                               ("cases", JArr (repeat (JObj [("case_name", JStr "t");
                                                             ("status", JStr "pass")]) 7282))]])].

Example post_results_too_many_cases :
  fst (post_results big_suite_body example_db) = RError 500 (ESql ProtocolViolation).
Proof. vm_compute. reflexivity. Qed.

End Live.
