(* ===== verification/Script.v ===== *)
(** * The client script src/e2e/post-results.js

    The script posts three execution events, one per project, to
    POST /api/results, one after the other; a response whose status is not
    2xx throws, which ends [main] with exit code 1 and leaves the later
    events unposted.  The server it talks to is the model of Server.v: each
    post is [handle (PostResults ev)] on the current state.  The request
    body is the event object itself: [JSON.stringify] followed by the
    server's [express.json()] gives back the same value for these objects,
    which hold only strings, integers, arrays and objects.  The console
    output is kept as structured lines, one constructor per [console.log]
    of the script, with the suite names joined as the script joins them.

    The theorem of this file applies the progress lemma of Live.v three
    times: from every reachable state whose sequences have room for the ids
    of the three events, the script prints one line per event with the next
    three event ids and exits 0. *)

From S2P Require Import Prelude JsValue Store StoreInv Retention Ingest Payload Server Live.
Import Js Pg PgInv Ingest Payload Server Live.

Module Script.

Local Open Scope Z_scope.

(** ** The events (lines 11-85) *)

Definition event1 : jsval :=
  JObj [("project_name", JStr "my-api"); ("event_name", JStr "Sanity Check"); ("trigger", JStr "ci");
        ("suites", JArr [
          JObj [("suite_name", JStr "auth"); ("total", JNum 4); ("passed", JNum 3); ("failed", JNum 1);
                ("cases", JArr [
                  JObj [("case_id", JStr "1.1"); ("case_name", JStr "Login with valid credentials");
                        ("description", JStr "User logs in with correct email/password");
                        ("module", JStr "authentication"); ("type", JStr "positive");
                        ("status", JStr "pass"); ("duration_ms", JNum 120)];
                  JObj [("case_id", JStr "1.2"); ("case_name", JStr "Login with invalid password");
                        ("description", JStr "User gets error with wrong password");
                        ("module", JStr "authentication"); ("type", JStr "negative");
                        ("status", JStr "pass"); ("duration_ms", JNum 85)];
                  JObj [("case_id", JStr "1.3"); ("case_name", JStr "Token refresh");
                        ("description", JStr "Expired token gets refreshed");
                        ("module", JStr "authentication"); ("type", JStr "positive");
                        ("status", JStr "pass"); ("duration_ms", JNum 200)];
                  JObj [("case_id", JStr "1.4"); ("case_name", JStr "Register duplicate email");
                        ("description", JStr "Duplicate registration is rejected");
                        ("module", JStr "registration"); ("type", JStr "negative");
                        ("status", JStr "fail");
                        ("error_message", JStr "Expected 409 but got 500: Internal Server Error");
                        ("duration_ms", JNum 340)]])];
          JObj [("suite_name", JStr "users"); ("total", JNum 3); ("passed", JNum 3); ("failed", JNum 0);
                ("cases", JArr [
                  JObj [("case_id", JStr "2.1"); ("case_name", JStr "Get user profile");
                        ("module", JStr "profile"); ("type", JStr "positive"); ("status", JStr "pass");
                        ("duration_ms", JNum 55)];
                  JObj [("case_id", JStr "2.2"); ("case_name", JStr "Update user avatar");
                        ("module", JStr "profile"); ("type", JStr "positive"); ("status", JStr "pass");
                        ("duration_ms", JNum 310)];
                  JObj [("case_id", JStr "2.3"); ("case_name", JStr "Delete user account");
                        ("module", JStr "account"); ("type", JStr "positive"); ("status", JStr "pass");
                        ("duration_ms", JNum 150)]])]])].

Definition plain_suite (name : string) (t p f : Z) : jsval :=
  JObj [("suite_name", JStr name); ("total", JNum t); ("passed", JNum p); ("failed", JNum f);
        ("cases", JArr [])].

Definition event2 : jsval :=
  JObj [("project_name", JStr "manajemen-distrik"); ("event_name", JStr "E2E Run 2026-03-01 14:30");
        ("description", JStr "E2E testing case untuk improvement management wilayah");
        ("trigger", JStr "manual");
        ("suites", JArr [plain_suite "01-login" 10 10 0; plain_suite "04-audit-trail" 7 7 0;
                         plain_suite "05-dashboard" 3 3 0; plain_suite "06-access-control" 8 7 1;
                         plain_suite "07-role-matrix" 25 25 0])].

Definition event3 : jsval :=
  JObj [("project_name", JStr "web-app"); ("event_name", JStr "Sanity Check"); ("trigger", JStr "ci");
        ("suites", JArr [
          JObj [("suite_name", JStr "dashboard"); ("total", JNum 3); ("passed", JNum 2); ("failed", JNum 1);
                ("cases", JArr [
                  JObj [("case_id", JStr "1.1"); ("case_name", JStr "Load dashboard page");
                        ("module", JStr "ui"); ("type", JStr "positive"); ("status", JStr "pass");
                        ("duration_ms", JNum 400)];
                  JObj [("case_id", JStr "1.2"); ("case_name", JStr "Filter by date range");
                        ("module", JStr "ui"); ("type", JStr "positive"); ("status", JStr "pass");
                        ("duration_ms", JNum 220)];
                  JObj [("case_id", JStr "1.3"); ("case_name", JStr "Export CSV with no data");
                        ("module", JStr "export"); ("type", JStr "negative"); ("status", JStr "fail");
                        ("error_message", JStr "Timeout: export took longer than 5000ms");
                        ("duration_ms", JNum 5001)]])];
          JObj [("suite_name", JStr "payments"); ("total", JNum 4); ("passed", JNum 4); ("failed", JNum 0);
                ("cases", JArr [
                  JObj [("case_id", JStr "3.1"); ("case_name", JStr "Process valid payment");
                        ("module", JStr "billing"); ("type", JStr "positive"); ("status", JStr "pass");
                        ("duration_ms", JNum 800)];
                  JObj [("case_id", JStr "3.2"); ("case_name", JStr "Reject expired card");
                        ("module", JStr "billing"); ("type", JStr "negative"); ("status", JStr "pass");
                        ("duration_ms", JNum 150)];
                  JObj [("case_id", JStr "3.3"); ("case_name", JStr "Apply discount code");
                        ("module", JStr "billing"); ("type", JStr "positive"); ("status", JStr "pass");
                        ("duration_ms", JNum 180)];
                  JObj [("case_id", JStr "3.4"); ("case_name", JStr "Refund processed payment");
                        ("module", JStr "billing"); ("type", JStr "positive"); ("status", JStr "pass");
                        ("duration_ms", JNum 600)]])]])].

Definition events : list jsval := [event1; event2; event3].

(** ** postEvent (lines 87-102) *)

(** What makes [postEvent] throw: a response that is not [res.ok], or no
    response at all when the handler's promise rejects unhandled. *)
Inductive post_error : Type :=
| PostFailed (r : response)
| NoResponse.

(** [res.ok]: a status in the range 200-299. *)
Definition res_ok (status : Z) : bool := (200 <=? status) && (status <=? 299).

(** The 500 of line 227 is never [ok]. *)
Definition postEvent (ev : jsval) (d : db) : result post_error jsval * db :=
  match handle (PostResults ev) d with
  | (RJson st b, d') => if res_ok st then (Ok b, d') else (Err (PostFailed (RJson st b)), d')
  | (RError st e, d') => (Err (PostFailed (RError st e)), d')
  | (Unhandled _, d') => (Err NoResponse, d')
  end.

(** [Array.prototype.join]: [null] and [undefined] print as the empty
    string. *)
Fixpoint join (sep : string) (xs : list jsval) : string :=
  match xs with
  | [] => EmptyString
  | x :: xs' =>
      String.append (match x with JUndef | JNull => EmptyString | _ => js_to_string x end)
        (match xs' with [] => EmptyString | _ => String.append sep (join sep xs') end)
  end.

(** [eventData.suites], an array in each of the script's events. *)
Definition suites_of (ev : jsval) : list jsval :=
  match get ev "suites" with JArr ss => ss | _ => [] end.

(** [eventData.suites.map(s => s.suite_name).join(", ")] (line 100). *)
Definition suite_names (ev : jsval) : string :=
  join ", " (map (fun s => get s "suite_name") (suites_of ev)).

(** ** main (lines 104-119) *)

(** The console output, one constructor per [console.log] and
    [console.error] of the script. *)
Inductive line : Type :=
| LStart
| LProject (name : jsval)
| LEvent (eventId name trigger : jsval) (suites : string)
| LBlank
| LDone
| LError (e : post_error).

(** The loop of lines 107-111: an exception leaves the loop at once. *)
Fixpoint post_all (evs : list jsval) (d : db) : list line * option post_error * db :=
  match evs with
  | [] => ([], None, d)
  | ev :: evs' =>
      match postEvent ev d with
      | (Err e, d1) => ([LProject (get ev "project_name")], Some e, d1)
      | (Ok json, d1) =>
          let '(ls, r, d2) := post_all evs' d1 in
          (LProject (get ev "project_name") ::
           LEvent (get json "event_id") (get ev "event_name") (get ev "trigger") (suite_names ev) ::
           LBlank :: ls, r, d2)
      end
  end.

(** [main()] with its [.catch]: the output, the exit code and the server's
    state afterwards. *)
Definition main (d : db) : list line * Z * db :=
  let '(ls, r, d') := post_all events d in
  match r with
  | None => (LStart :: ls ++ [LDone], 0, d')
  | Some e => (LStart :: ls ++ [LError e], 1, d')
  end.

(** ** The script succeeds *)

(** Room in the sequences for the three events: three project ids (one
    per upsert, drawn even when the project exists), three event ids, nine
    run ids and fourteen case ids. *)
Definition script_room (d : db) : bool :=
  (seq_projects d + 3 <=? int32_max) && (0 <=? seq_events d) && (seq_events d + 3 <=? int32_max) &&
  (0 <=? seq_runs d) && (seq_runs d + 9 <=? int32_max) &&
  (0 <=? seq_cases d) && (seq_cases d + 14 <=? int32_max).

(** The output of a successful run whose first event gets id [e + 1]. *)
Definition expected_log (e : Z) : list line :=
  [LStart;
   LProject (JStr "my-api"); LEvent (JNum (e + 1)) (JStr "Sanity Check") (JStr "ci") "auth, users";
   LBlank;
   LProject (JStr "manajemen-distrik");
   LEvent (JNum (e + 2)) (JStr "E2E Run 2026-03-01 14:30") (JStr "manual")
     "01-login, 04-audit-trail, 05-dashboard, 06-access-control, 07-role-matrix";
   LBlank;
   LProject (JStr "web-app"); LEvent (JNum (e + 3)) (JStr "Sanity Check") (JStr "ci") "dashboard, payments";
   LBlank; LDone].

Lemma postEvent_progress ev ss d :
  server_inv d -> suites_of_body ev = Some ss -> body_good ev = true -> room ev d = true ->
  exists np d', postEvent ev d =
      (Ok (created_body (seq_events d + 1) (next_ids (seq_runs d) (length ss))), d') /\
    0 <= np <= 1 /\ seqs_after d d' np 1 (Z.of_nat (length ss)) (ncases ss) /\ server_inv d'.
Proof.
  intros Hd Hss Hg Hr. destruct (post_results_progress ev d ss Hd Hss Hg Hr) as (np & d' & H & Hnp & S).
  pose proof (server_inv_handle (PostResults ev) d Hd) as Hd'. simpl in Hd'. rewrite H in Hd'.
  exists np, d'. unfold postEvent, handle. rewrite H. split; [reflexivity | auto].
Qed.

Lemma events_good : body_good event1 = true /\ body_good event2 = true /\ body_good event3 = true.
Proof. vm_compute. auto. Qed.

Lemma script_counts :
  length (suites_of event1) = 2%nat /\ ncases (suites_of event1) = 7 /\
  length (suites_of event2) = 5%nat /\ ncases (suites_of event2) = 0 /\
  length (suites_of event3) = 2%nat /\ ncases (suites_of event3) = 7.
Proof. vm_compute. repeat split. Qed.

Lemma get_event_id e rs : get (created_body e rs) "event_id" = JNum e.
Proof. reflexivity. Qed.

(** C10: from every reachable state of the server whose sequences have
    room for the ids the three events draw, the script posts the three
    events in order, each is answered 201 with the next event id, and the
    script prints its project, event id, name, trigger and suite names and
    exits 0. *)
Theorem main_succeeds d :
  reachable d -> script_room d = true ->
  exists d', main d = (expected_log (seq_events d), 0, d').
Proof.
  intros Hd%reachable_server_inv Hr. unfold script_room in Hr.
  destruct events_good as (G1 & G2 & G3).
  destruct script_counts as (L1 & C1 & L2 & C2 & L3 & C3).
  rewrite !andb_true_iff, !Z.leb_le in Hr. pose proof (si_seq d Hd).
  destruct (postEvent_progress event1 (suites_of event1) d Hd eq_refl G1) as (n1 & d1 & E1 & N1 & S1 & I1).
  { apply (room_intro event1 _ (suites_of event1) eq_refl); rewrite ?L1, ?C1; lia. }
  rewrite L1, C1 in S1. unfold seqs_after in S1.
  destruct (postEvent_progress event2 (suites_of event2) d1 I1 eq_refl G2) as (n2 & d2 & E2 & N2 & S2 & I2).
  { apply (room_intro event2 _ (suites_of event2) eq_refl); rewrite ?L2, ?C2; lia. }
  rewrite L2, C2 in S2. unfold seqs_after in S2.
  destruct (postEvent_progress event3 (suites_of event3) d2 I2 eq_refl G3) as (n3 & d3 & E3 & N3 & S3 & I3).
  { apply (room_intro event3 _ (suites_of event3) eq_refl); rewrite ?L3, ?C3; lia. }
  replace (seq_events d1 + 1) with (seq_events d + 2) in E2 by lia.
  replace (seq_events d2 + 1) with (seq_events d + 3) in E3 by lia.
  exists d3. unfold main, events. cbn [post_all]. rewrite E1. cbn [post_all]. rewrite E2.
  cbn [post_all]. rewrite E3. cbn [post_all]. rewrite !get_event_id.
  unfold expected_log. cbn [app]. repeat f_equal.
Qed.

(** The server's state after the script is one it can reach. *)
Lemma postEvent_state ev d : snd (postEvent ev d) = snd (handle (PostResults ev) d).
Proof.
  unfold postEvent. destruct (handle (PostResults ev) d) as [[st b|st e|e] d'];
    [destruct (res_ok st)|..]; reflexivity.
Qed.

Lemma post_all_reachable evs d : reachable d -> reachable (snd (post_all evs d)).
Proof.
  revert d. induction evs as [|ev evs IH]; intros d Hd; [done|]. cbn [post_all].
  pose proof (postEvent_state ev d) as E. destruct (postEvent ev d) as [[json|e] d1].
  - specialize (IH d1). destruct (post_all evs d1) as [[ls r] d2]. simpl in *.
    apply IH. rewrite E. exact (reach_step (PostResults ev) d Hd).
  - simpl in *. rewrite E. exact (reach_step (PostResults ev) d Hd).
Qed.

Lemma main_reachable d : reachable d -> reachable (snd (main d)).
Proof.
  intros Hd. pose proof (post_all_reachable events d Hd) as H. unfold main.
  destruct (post_all events d) as [[ls [e|]] d']; exact H.
Qed.

(** ** Witnesses *)

(** The script run twice from the empty store: both runs exit 0, the
    second with event ids 4, 5 and 6, its upserts finding the projects the
    first created. *)
Lemma main_succeeds_witness :
  (exists d', main empty_db = (expected_log 0, 0, d')) /\
  (exists d', main (snd (main empty_db)) = (expected_log 3, 0, d')).
Proof.
  split.
  - apply (main_succeeds empty_db reach_init). vm_compute. reflexivity.
  - apply (main_succeeds (snd (main empty_db))); [apply main_reachable, reach_init |].
    vm_compute. reflexivity.
Defined.

End Script.
