(* ===== verification/Lifecycle.v ===== *)
(** * Startup, requests and shutdown of the server process

    [initDb] (src/server.js lines 14-71) sends five statements, one after
    the other, each in its own implicit transaction: [CREATE TABLE IF NOT
    EXISTS] for [projects], [events], [test_runs] and [test_cases], then
    the migration [ALTER TABLE test_runs ADD COLUMN IF NOT EXISTS event_id].
    A [CREATE] whose [REFERENCES] names a table that does not exist fails;
    a table or column that exists is left as it is.  A statement that fails,
    or a connection that drops, rejects [initDb]'s promise: the statements
    already run stay done.  Lines 406-412 listen once [initDb] has
    succeeded and exit with code 1 when it fails; SIGTERM and SIGINT (lines
    394-404) end the pool and exit with code 0.  The disk outlives the
    process.

    The disk is the schema (which tables exist, and whether [test_runs] has
    its [event_id] column) with the rows of [Store.v]; the process is
    [Stopped] or [Listening].  The theorems: [initDb] can be restarted
    after any number of interrupted runs and then leaves every table and
    the column in place and every row as it was, on a fresh disk as on one
    of the version before [event_id]; and every database the process ever
    serves, across any sequence of starts, interrupted starts, requests and
    signals from a fresh disk, has the whole schema and is one the requests
    alone reach from the empty database. *)

From S2P Require Import Prelude JsValue Store StoreInv Retention Ingest Projects Server.
Import Js Pg PgInv Ingest Server.

Module Lifecycle.

Local Open Scope Z_scope.

(** ** The disk *)

Record schema : Type := mkSchema {
  sc_projects : bool; sc_events : bool; sc_runs : bool; sc_run_event_id : bool; sc_cases : bool }.

Record disk : Type := mkDisk { dk_schema : schema; dk_rows : db }.

Definition no_tables : schema := mkSchema false false false false false.
Definition full_schema : schema := mkSchema true true true true true.

(** ** The statements of [initDb] *)

(** A table created empty, with its sequence not started. *)
Definition reset_projects (d : db) : db :=
  mkDb [] (events d) (runs d) (cases d) 0 (seq_events d) (seq_runs d) (seq_cases d) (clock d).
Definition reset_events (d : db) : db :=
  mkDb (projects d) [] (runs d) (cases d) (seq_projects d) 0 (seq_runs d) (seq_cases d) (clock d).
Definition reset_runs (d : db) : db :=
  mkDb (projects d) (events d) [] (cases d) (seq_projects d) (seq_events d) 0 (seq_cases d) (clock d).
Definition reset_cases (d : db) : db :=
  mkDb (projects d) (events d) (runs d) [] (seq_projects d) (seq_events d) (seq_runs d) 0 (clock d).

Definition null_event_id (r : run) : run :=
  mkRun (r_id r) (r_project_id r) None (r_suite_name r) (r_total r) (r_passed r) (r_failed r) (r_created_at r).

(** Lines 15-23: [projects] references no table. *)
Definition create_projects (k : disk) : option disk :=
  let s := dk_schema k in
  if sc_projects s then Some k
  else Some (mkDisk (mkSchema true (sc_events s) (sc_runs s) (sc_run_event_id s) (sc_cases s))
                    (reset_projects (dk_rows k))).

(** Lines 25-37: [events.project_id REFERENCES projects(id)]. *)
Definition create_events (k : disk) : option disk :=
  let s := dk_schema k in
  if sc_events s then Some k
  else if negb (sc_projects s) then None
  else Some (mkDisk (mkSchema true true (sc_runs s) (sc_run_event_id s) (sc_cases s))
                    (reset_events (dk_rows k))).

(** Lines 39-50: [test_runs] references [projects] and [events], and is
    created with its [event_id] column. *)
Definition create_runs (k : disk) : option disk :=
  let s := dk_schema k in
  if sc_runs s then Some k
  else if negb (sc_projects s && sc_events s) then None
  else Some (mkDisk (mkSchema true true true true (sc_cases s))
                    (reset_runs (dk_rows k))).

(** Lines 52-65: [test_cases.run_id REFERENCES test_runs(id)]. *)
Definition create_cases (k : disk) : option disk :=
  let s := dk_schema k in
  if sc_cases s then Some k
  else if negb (sc_runs s) then None
  else Some (mkDisk (mkSchema (sc_projects s) (sc_events s) true (sc_run_event_id s) true)
                    (reset_cases (dk_rows k))).

(** Lines 67-70: the column, when missing, is added [NULL] in every
    existing run; its [REFERENCES events(id)] needs [events]. *)
Definition add_event_id (k : disk) : option disk :=
  let s := dk_schema k in
  if negb (sc_runs s) then None
  else if sc_run_event_id s then Some k
  else if negb (sc_events s) then None
  else Some (mkDisk (mkSchema (sc_projects s) (sc_events s) true true (sc_cases s))
                    (set_runs (map null_event_id (runs (dk_rows k))) (dk_rows k))).

Definition initDb_stmts : list (disk -> option disk) :=
  [create_projects; create_events; create_runs; create_cases; add_event_id].

(** The statements awaited in order; the connection drops after [n] of
    them, and the first failure rejects [initDb].  The result says whether
    [initDb] succeeded. *)
Fixpoint run_stmts (n : nat) (fs : list (disk -> option disk)) (k : disk) {struct fs} : bool * disk :=
  match fs with
  | [] => (true, k)
  | f :: fs' =>
      match n with
      | O => (false, k)
      | S n' => match f k with Some k' => run_stmts n' fs' k' | None => (false, k) end
      end
  end.

Definition initDb (n : nat) (k : disk) : bool * disk := run_stmts n initDb_stmts k.

(** ** The process *)

Inductive proc : Type :=
| Stopped (k : disk)
| Listening (k : disk).

(** A start whose connection serves [n] statements of [initDb] before it
    drops (all of them when [n] is at least five), a request, or one of the
    two signals. *)
Inductive lc_event : Type :=
| Start (n : nat)
| Request (q : request)
| Signal.

(** One step.  A start while listening, or a request while stopped, is
    not an event of this process (the port is taken, no one answers). *)
Definition lc_step (st : proc) (ev : lc_event) : proc :=
  match st, ev with
  | Stopped k, Start n =>
      let (ok, k') := initDb n k in if ok then Listening k' else Stopped k'
  | Listening k, Request q => Listening (mkDisk (dk_schema k) (snd (handle q (dk_rows k))))
  | Listening k, Signal => Stopped k
  | st, _ => st
  end.

Fixpoint lc_run (st : proc) (evs : list lc_event) : proc :=
  match evs with
  | [] => st
  | ev :: evs' => lc_run (lc_step st ev) evs'
  end.

Definition fresh : disk := mkDisk no_tables empty_db.

(** A disk as PostgreSQL can hold it: a table that does not exist has no
    rows and its sequence has not started, and runs stored before the
    [event_id] column existed have no event. *)
Definition consistent (k : disk) : Prop :=
  let s := dk_schema k in let d := dk_rows k in
  (sc_projects s = false -> projects d = [] /\ seq_projects d = 0) /\
  (sc_events s = false -> events d = [] /\ seq_events d = 0) /\
  (sc_runs s = false -> runs d = [] /\ seq_runs d = 0 /\ sc_run_event_id s = false) /\
  (sc_cases s = false -> cases d = [] /\ seq_cases d = 0) /\
  (sc_run_event_id s = false -> Forall (fun r => r_event_id r = None) (runs d)).

(** ** Lemmas *)

Lemma map_null_event_id rs : Forall (fun r => r_event_id r = None) rs -> map null_event_id rs = rs.
Proof. induction 1 as [|[] rs Hr _ IH]; simpl in *; [done|]. by rewrite IH, Hr. Qed.

(** Case analysis on a disk's schema, with what consistency says of the
    rows of the tables that do not exist. *)
Ltac disk_cases k Hk :=
  let ps := fresh "ps" in let es := fresh "es" in let rs := fresh "rs" in let cs := fresh "cs" in
  destruct k as [[[] [] [] [] []] [ps es rs cs ? ? ? ? ?]]; destruct Hk as (Hp & He & Hr & Hc & Hx); cbn in *;
  repeat match goal with
         | H : true = false -> _ |- _ => clear H
         | H : false = false -> _ |- _ => specialize (H eq_refl)
         end;
  destruct_and?; subst; try discriminate.

Ltac consistent_tac :=
  cbv [consistent]; cbn; split_and!; intros; try discriminate; try done; repeat split; try done;
  repeat constructor.

(** A statement of [initDb] on a consistent disk keeps the rows and the
    disk consistent. *)
Definition keeps_rows (f : disk -> option disk) : Prop :=
  forall k k', consistent k -> f k = Some k' -> dk_rows k' = dk_rows k /\ consistent k'.

Lemma initDb_stmts_rows : Forall keeps_rows initDb_stmts.
Proof.
  repeat apply List.Forall_cons; try apply List.Forall_nil.
  all: intros k k' Hk; disk_cases k Hk; intros [= <-]; cbn;
    rewrite ?map_null_event_id by done; split; try done; consistent_tac.
Qed.

Lemma run_stmts_rows n fs k :
  Forall keeps_rows fs -> consistent k ->
  dk_rows (snd (run_stmts n fs k)) = dk_rows k /\ consistent (snd (run_stmts n fs k)).
Proof.
  revert n k. induction fs as [|f fs IH]; intros n k Hf Hk; [simpl; by split|].
  apply Forall_cons in Hf as [Hf1 Hf]. destruct n as [|n]; [simpl; by split|]. simpl.
  destruct (f k) as [k1|] eqn:Hk1; [|simpl; by split].
  destruct (Hf1 k k1 Hk Hk1) as [Hr1 Hc1]. destruct (IH n k1 Hf Hc1) as [Hr2 Hc2]. split; congruence.
Qed.

Lemma run_stmts_all n fs k k' : run_stmts n fs k = (true, k') -> (length fs <= n)%nat.
Proof.
  revert n k. induction fs as [|f fs IH]; intros n k; simpl; [lia|].
  destruct n as [|n]; [discriminate|]. destruct (f k); [|discriminate]. intros H%IH. lia.
Qed.

(** Every statement of [initDb] succeeds on a consistent disk: it leaves
    the whole schema and the rows. *)
Lemma initDb_complete n k :
  (5 <= n)%nat -> consistent k -> initDb n k = (true, mkDisk full_schema (dk_rows k)).
Proof.
  intros Hn Hk. do 5 (destruct n as [|n]; [lia|]).
  disk_cases k Hk; unfold initDb; cbn; rewrite ?map_null_event_id by done; reflexivity.
Qed.

Lemma full_consistent d : consistent (mkDisk full_schema d).
Proof. consistent_tac. Qed.

Definition disk_of (st : proc) : disk := match st with Stopped k | Listening k => k end.

Definition lc_ok (st : proc) : Prop :=
  consistent (disk_of st) /\ reachable (dk_rows (disk_of st)) /\
  match st with Listening k => dk_schema k = full_schema | Stopped _ => True end.

Lemma lc_step_ok st ev : lc_ok st -> lc_ok (lc_step st ev).
Proof.
  intros (Hc & Hr & Hl). destruct st as [k|k], ev as [n|q|]; simpl in *; try done.
  - destruct (initDb n k) as [[] k'] eqn:Hi.
    + pose proof (run_stmts_all _ _ _ _ Hi) as Hn. simpl in Hn.
      rewrite (initDb_complete n k Hn Hc) in Hi. injection Hi as <-.
      unfold lc_ok. simpl. split_and!; [apply full_consistent | done | done].
    + pose proof (run_stmts_rows n initDb_stmts k initDb_stmts_rows Hc) as [Hr' Hc'].
      unfold initDb in Hi. rewrite Hi in Hr', Hc'. simpl in *. unfold lc_ok. simpl. by rewrite Hr'.
  - destruct k as [s d]. simpl in *. subst. unfold lc_ok. simpl. split_and!; [apply full_consistent | by apply reach_step | done].
Qed.

(** ** Theorems *)

(** C29: whatever sequence of starts, starts interrupted after any number
    of [initDb]'s statements, requests and signals the process goes through
    from a fresh disk, the database it serves has all four tables and the
    [event_id] column, and is one the requests alone reach from the empty
    database. *)
Theorem lc_run_reachable evs k :
  lc_run (Stopped fresh) evs = Listening k -> dk_schema k = full_schema /\ reachable (dk_rows k).
Proof.
  assert (H0 : lc_ok (Stopped fresh)) by (split_and!; [consistent_tac | apply reach_init | done]).
  revert H0. generalize (Stopped fresh).
  induction evs as [|ev evs IH]; intros st Hst; simpl.
  - intros ->. by destruct Hst as (_ & ? & ?).
  - apply IH. by apply lc_step_ok.
Qed.

(** C34: [initDb] can be run again after any number of runs cut short by a
    dropped connection: on a consistent disk, fresh or of the version
    before [test_runs.event_id], the first run whose statements all execute
    succeeds, creates the missing tables and the missing column, and leaves
    every row and every sequence as it was. *)
Theorem initDb_restart ns k :
  consistent k ->
  initDb 5 (fold_left (fun k n => snd (initDb n k)) ns k) = (true, mkDisk full_schema (dk_rows k)).
Proof.
  revert k. induction ns as [|n ns IH]; intros k Hk; cbn [fold_left]; [by apply initDb_complete|].
  destruct (run_stmts_rows n initDb_stmts k initDb_stmts_rows Hk) as [Hr Hc].
  rewrite IH by exact Hc. unfold initDb. by rewrite Hr.
Qed.

(** ** Witnesses *)

(** Start interrupted after two statements, a start, requests, SIGTERM, a
    start interrupted after none, a start and a request. *)
Definition restart_trace : list lc_event :=
  [Start 2; Start 5; Request (PostResults example_body); Request (PostResults example_body);
   Signal; Start 0; Start 7; Request (PostResults example_body)].

Lemma lc_run_reachable_witness :
  lc_run (Stopped fresh) restart_trace = Listening (disk_of (lc_run (Stopped fresh) restart_trace)) /\
  List.length (events (dk_rows (disk_of (lc_run (Stopped fresh) restart_trace)))) = 3%nat /\
  dk_schema (disk_of (lc_run (Stopped fresh) restart_trace)) = full_schema /\
  reachable (dk_rows (disk_of (lc_run (Stopped fresh) restart_trace))).
Proof.
  assert (H : lc_run (Stopped fresh) restart_trace = Listening (disk_of (lc_run (Stopped fresh) restart_trace)))
    by (vm_compute; reflexivity).
  split; [exact H | split; [vm_compute; reflexivity | apply (lc_run_reachable restart_trace _ H)]].
Defined.

(** A disk of the version before the migration: [test_runs] has no
    [event_id] column and [test_cases] does not exist. *)
Definition old_run : run := mkRun 1 (Some 1) None "login" 3 2 1 0.

Definition old_disk : disk :=
  mkDisk (mkSchema true true true false false)
    (mkDb [mkProject 1 "p1" None None 0] [] [old_run] [] 1 0 1 0 0).

Lemma initDb_restart_witness :
  consistent old_disk /\
  initDb 5 (fold_left (fun k n => snd (initDb n k)) [4; 1]%nat old_disk) =
    (true, mkDisk full_schema (dk_rows old_disk)).
Proof.
  assert (Hc : consistent old_disk) by consistent_tac.
  split; [exact Hc | apply (initDb_restart [4; 1]%nat old_disk Hc)].
Defined.

End Lifecycle.
