(* ===== verification/Concurrent.v ===== *)
(** * Interleaved requests and the retention sweep

    Node serves many requests at once: a handler runs until an [await],
    and another handler may run before it resumes.  For POST /api/results
    the awaits that matter are those between the statements of the
    transaction, the [COMMIT], and the two statements of [pruneEvents]:
    the [SELECT] of the project's event ids and the [DELETE] of the oldest
    (src/server.js lines 73-82), which run on the pool, outside the
    transaction.  The specification (sections 4.2, 5 and 9) leaves open
    whether the ceiling of five events is exact under such interleavings.

    The model runs the in-flight requests as tasks of a state [cstate]; a
    schedule is any sequence of arrivals and task steps.
    - An arrival of POST /api/results validates the body and waits in
      [TConnect] for a client of the pool; [connect] takes one and runs
      [BEGIN], which fixes the transaction's [NOW()] ([tick]).  POST
      /api/projects waits in [TProj] for a connection for its one
      statement.
    - [TTxn] is the transaction: its statements take effect at [COMMIT],
      as one step, with [NOW()] the time of its [BEGIN].  PostgreSQL makes
      this faithful for these statements: they only insert, and the one
      read that another transaction can affect, the project upsert, waits
      for that transaction to end.  Its ids are drawn at the commit step,
      so they follow commit order; the theorems do not depend on ids'
      order.  A failed transaction is rolled back.
    - [TSelect] and [TDelete] are the two statements of the sweep.  They
      go through [pool.query] while the request still holds its client
      (released at line 229, after the sweep), so each needs a second
      connection of the pool.
    - The pool has node-postgres' default of ten connections
      ([pool_max]); a step that needs one waits while ten are held.
    The ghost field [committed] lists every event ever committed.

    The invariant [cinv] of every schedule says that the five newest
    committed events of a project are present, that a pending [DELETE]
    names only events with five younger ones, and that every present event
    with five younger ones is still to be swept by a pending task.  The
    theorems: once no request is in flight, every project has exactly its
    five newest committed events (by creation time), whatever the
    interleaving, and so at most five; with fewer than ten requests in
    flight the pending work always runs out; with ten clients held by
    requests that all wait for a connection, no schedule changes the
    database again (the pool deadlocks); and while requests are in flight
    a project can show seven events ([race_seven]). *)

From S2P Require Import Prelude JsValue Store StoreInv Retention Ingest Projects Server.
Import Js Pg PgInv Retention Ingest Projects Server.

Module Concurrent.

Local Open Scope Z_scope.

(** ** Tasks and steps *)

Definition with_clock (t : Z) (d : db) : db :=
  mkDb (projects d) (events d) (runs d) (cases d)
       (seq_projects d) (seq_events d) (seq_runs d) (seq_cases d) t.

(** The point at which an in-flight request waits. *)
Inductive task : Type :=
| TConnect (body : jsval) (ss : list jsval)   (** [await pool.connect()], line 161 *)
| TTxn (ts : Z) (body : jsval) (ss : list jsval)  (** the transaction, begun at [ts] *)
| TSelect (res : jsval)                        (** [pruneEvents]' [SELECT], line 74 *)
| TDelete (ids : list Z)                       (** [pruneEvents]' [DELETE], line 80 *)
| TProj (body : jsval).                        (** POST /api/projects' [pool.query], line 98 *)

Record cstate : Type := mkC {
  cdb : db;
  tasks : list task;
  committed : list event }.

Inductive action : Type :=
| Arrive (q : request)
| Run (i : nat).

(** Lines 142-161 up to [pool.connect()]; a request that fails validation
    is answered at once and leaves no task.  POST /api/projects waits for a
    connection of the pool for its one statement. *)
Definition arrive (q : request) (st : cstate) : cstate :=
  match q with
  | PostProjects b => mkC (cdb st) (tasks st ++ [TProj b]) (committed st)
  | PostResults b =>
      match suites_of_body b with
      | Some ss =>
          match validate ss with
          | Valid => mkC (cdb st) (tasks st ++ [TConnect b ss]) (committed st)
          | _ => st
          end
      | None => st
      end
  end.

(** The pool of src/server.js lines 10-12 is created without [max], so it
    has node-postgres' default of ten connections, and [pool.connect] and
    [pool.query] wait, without a timeout, for one to be free. *)
Definition pool_max : nat := 10.

(** A request holds its client from [pool.connect()] (line 161) to
    [client.release()] (line 229): through its transaction and the whole
    of [pruneEvents]. *)
Definition holds (t : task) : bool :=
  match t with TTxn _ _ _ | TSelect _ | TDelete _ => true | TConnect _ _ | TProj _ => false end.

Definition held (ts : list task) : nat := List.length (List.filter holds ts).

(** Every step but a statement of the transaction, which runs on the
    request's own client, needs a free connection of the pool:
    [pool.connect()] (line 161), and [pool.query] in [pruneEvents] (lines
    74 and 79) and in POST /api/projects (line 98). *)
Definition needs_conn (t : task) : bool :=
  match t with TTxn _ _ _ => false | _ => true end.

Definition pool_free (st : cstate) : bool := (held (tasks st) <? pool_max)%nat.

(** Line 163: [BEGIN] on the new client fixes the transaction's [NOW()]. *)
Definition connect (b : jsval) (ss : list jsval) (st : cstate) (rest : list task) : cstate :=
  let d0 := tick (cdb st) in mkC d0 (rest ++ [TTxn (clock d0) b ss]) (committed st).

(** Lines 164-216 at [COMMIT], then line 219: the sweep is started when the
    resolved project is truthy. *)
Definition commit (ts : Z) (b : jsval) (ss : list jsval) (st : cstate) (rest : list task) : cstate :=
  let d := cdb st in
  match ingest_txn ss b (with_clock ts d) with
  | (Ok (_, _, res), d1) =>
      mkC (with_clock (clock d) d1) (if truthy res then rest ++ [TSelect res] else rest)
          (committed st ++ drop (length (events d)) (events d1))
  | (Err _, d1) => mkC (rollback_to d (with_clock (clock d) d1)) rest (committed st)
  end.

(** The [SELECT] of lines 74-77, then the test of line 78. *)
Definition select_step (res : jsval) (st : cstate) (rest : list task) : cstate :=
  match to_int res with
  | Ok p =>
      let ids := match p with Some pid => select_event_ids pid (cdb st) | None => [] end in
      if (keep <? length ids)%nat then mkC (cdb st) (rest ++ [TDelete (ids_to_delete ids)]) (committed st)
      else mkC (cdb st) rest (committed st)
  | Err _ => mkC (cdb st) rest (committed st)
  end.

Definition run_task (t : task) (st : cstate) (rest : list task) : cstate :=
  match t with
  | TConnect b ss => connect b ss st rest
  | TTxn ts b ss => commit ts b ss st rest
  | TSelect res => select_step res st rest
  | TDelete ids => mkC (delete_events ids (cdb st)) rest (committed st)
  | TProj b => mkC (snd (post_projects b (cdb st))) rest (committed st)
  end.

(** A step of the [i]th in-flight request, which waits while it needs a
    connection and none is free. *)
Definition cstep (a : action) (st : cstate) : cstate :=
  match a with
  | Arrive q => arrive q st
  | Run i => match tasks st !! i with
             | Some t => if needs_conn t && negb (pool_free st) then st
                         else run_task t st (delete i (tasks st))
             | None => st
             end
  end.

Fixpoint crun (acts : list action) (st : cstate) : cstate :=
  match acts with
  | [] => st
  | a :: acts' => crun acts' (cstep a st)
  end.

Definition cinit : cstate := mkC empty_db [] [].

(** The committed events of [e]'s project created after [e]. *)
Definition newer (e : event) (es : list event) : list event :=
  List.filter (fun y => bool_decide (e_project_id y = e_project_id e) && (e_created_at e <? e_created_at y)) es.

(** ** Statements move the sequences forward and leave the clock

    [NOW()] is read, never set, by the statements of a transaction; the
    sequences only grow.  Unlike [stmt_ok] of StoreInv.v this needs no
    invariant of the input, since under interleaving the transaction's
    clock is older than rows other transactions committed. *)

Definition smono {E A} (c : stM db E A) : Prop :=
  forall s, mono s (snd (c s)) /\ clock (snd (c s)) = clock s.

Lemma smono_ret {E A} (a : A) : smono (E:=E) (sret a).
Proof. intros s. split; [reflexivity | done]. Qed.

Lemma smono_throw {E A} (e : E) : smono (A:=A) (sthrow e).
Proof. intros s. split; [reflexivity | done]. Qed.

Lemma smono_bind {E A B} (c : stM db E A) (k : A -> stM db E B) :
  smono c -> (forall a, smono (k a)) -> smono (sbind c k).
Proof.
  intros Hc Hk s. unfold sbind. destruct (Hc s) as [Hm Hcl].
  destruct (c s) as [[a|e] s1]; simpl in *; [|done].
  destruct (Hk a s1) as [Hm2 Hcl2]. split; [by etransitivity | congruence].
Qed.

Lemma smono_smapM {E A B} (f : A -> stM db E B) xs : (forall x, smono (f x)) -> smono (smapM f xs).
Proof.
  intros Hf. induction xs as [|x xs IH]; simpl; [apply smono_ret|].
  apply smono_bind; [done|]. intros y. apply smono_bind; [done|]. intros. apply smono_ret.
Qed.

Lemma smono_atomic {A} (c : stM db sqlerr A) : smono c -> smono (atomic c).
Proof.
  intros Hc s. unfold atomic. destruct (Hc s) as [Hm Hcl].
  destruct (c s) as [[a|e] s1]; simpl in *; [done|]. split; [by apply mono_rollback | done].
Qed.

Lemma smono_sql {A} (c : stM db sqlerr A) : smono c -> smono (sql c).
Proof. intros Hc s. rewrite sql_state. apply Hc. Qed.

Ltac smono_prim := intros ?; run_db; split; try done; unfold mono; simpl; lia.

Lemma smono_upsert_project name : smono (upsert_project name).
Proof. apply smono_atomic. smono_prim. Qed.

Lemma smono_insert_event pid name trig tot pas fai skp : smono (insert_event pid name trig tot pas fai skp).
Proof. apply smono_atomic. smono_prim. Qed.

Lemma smono_insert_run name tot pas fai pid eid : smono (insert_run name tot pas fai pid eid).
Proof. apply smono_atomic. smono_prim. Qed.

Lemma smono_insert_case_rows rows : smono (insert_case_rows rows).
Proof.
  induction rows as [|[cp b] rows IH]; simpl; [apply smono_ret|].
  apply smono_bind; [unfold insert_case_row; smono_prim|]. intros id.
  apply smono_bind; [done|]. intros. apply smono_ret.
Qed.

Lemma smono_insert_cases cps : smono (insert_cases cps).
Proof.
  apply smono_atomic. apply smono_bind; [case_match; intros s; split; [reflexivity | done..]|]. intros _.
  apply smono_bind; [intros s; split; [reflexivity | done]|]. intros bs.
  apply smono_bind; [apply smono_insert_case_rows|]. intros ids s. by case_match.
Qed.

#[local] Hint Resolve smono_ret smono_throw smono_bind smono_smapM smono_sql smono_upsert_project
  smono_insert_event smono_insert_run smono_insert_cases : e2e.

Lemma smono_insert_suite res eid s : smono (insert_suite res eid s).
Proof.
  unfold insert_suite. apply smono_bind; [auto with e2e|]. intros rid.
  repeat case_match; unfold type_error; auto with e2e.
Qed.

#[local] Hint Resolve smono_insert_suite : e2e.

Lemma smono_ingest_txn ss b : smono (ingest_txn ss b).
Proof.
  unfold ingest_txn. apply smono_bind.
  { unfold resolve_project. case_match; auto with e2e. }
  intros res. apply smono_bind; [auto with e2e|]. intros eid.
  apply smono_bind; auto with e2e.
Qed.

Lemma with_clock_same d : with_clock (clock d) d = d.
Proof. by destruct d. Qed.

Lemma with_clock_tick d : with_clock (clock d + 1) (tick d) = tick d.
Proof. by destruct d. Qed.

Lemma ingest_txn_clock ss b d : clock (snd (ingest_txn ss b d)) = clock d.
Proof. apply smono_ingest_txn. Qed.

(** ** A committed transaction under interleaving *)

Lemma ingest_txn_seq ss b d eid rids res d1 :
  ingest_txn ss b d = (Ok (eid, rids, res), d1) -> eid <= seq_events d1.
Proof.
  unfold ingest_txn, sbind. intros H.
  destruct (resolve_project _ _ d) as [[res'|e] dp]; [|done].
  destruct (sql (insert_event _ _ _ _ _ _ _) dp) as [[eid'|e] de] eqn:Hev; [|done].
  pose proof (smono_smapM (insert_suite res' eid') ss (smono_insert_suite res' eid') de) as [Hm _].
  destruct (smapM _ ss de) as [[rids'|e] d2]; [|done]. unfold sret in H. simplify_eq.
  apply sql_ok, insert_event_ok in Hev as (ev & _ & _ & _ & _ & _ & _ & _ & _ & _ & _ & _ & ->).
  unfold mono in Hm. simpl in Hm. lia.
Qed.

(** A value that binds to a nonzero [INTEGER] is truthy: the falsy values
    that bind at all are [0], and [NULL] for [undefined] and [null]. *)
Lemma to_int_truthy v p : to_int v = Ok (Some p) -> p <> 0 -> truthy v = true.
Proof.
  destruct v as [| |[]|z| |s|xs|fs]; intros H Hp.
  1,2,4,6: vm_compute in H; discriminate.
  - done.
  - rewrite to_int_JNum in H. case_match; simplify_eq. cbn [truthy]. by apply negb_true_iff, Z.eqb_neq.
  - cbn [truthy]. destruct (String.eqb_spec s EmptyString) as [->|]; [vm_compute in H; discriminate | done].
  - done.
  - done.
Qed.

Lemma resolve_project_pos pid pname d res dp :
  resolve_project pid pname d = (Ok res, dp) -> 0 <= seq_projects d ->
  Forall (fun p => 0 < p_id p) (projects d) ->
  seq_events dp = seq_events d /\ Forall (fun p => 0 < p_id p) (projects dp).
Proof.
  intros [[-> _]|(k & _ & _ & Hu)]%resolve_project_ok Hs Hp; [done|].
  apply upsert_project_ok in Hu as (_ & _ & _ & _ & Hse & n & _ & [(p & _ & _ & ->)|(_ & -> & ->)]);
    split; try done.
  apply Forall_app. split; [done|]. constructor; [simpl; lia | constructor].
Qed.

Lemma fk_pos o d :
  fk_ok project_exists o d -> Forall (fun p => 0 < p_id p) (projects d) -> o <> Some 0.
Proof.
  destruct o as [k|]; simpl; [|done]. unfold project_exists.
  intros (p & Hp & Hk)%existsb_exists Hpos [= ->]. apply Z.eqb_eq in Hk.
  rewrite List.Forall_forall in Hpos. specialize (Hpos p Hp). lia.
Qed.

(** What a committed ingestion does to the state another transaction may
    have changed since its [BEGIN]: one event appended, with the next id of
    the sequence and the transaction's [NOW()], whose project is the one
    the sweep will be asked about. *)
Lemma ingest_txn_conc ss b d eid rids res d1 :
  ingest_txn ss b d = (Ok (eid, rids, res), d1) -> 0 <= seq_projects d ->
  Forall (fun p => 0 < p_id p) (projects d) ->
  exists ev, events d1 = events d ++ [ev] /\ e_id ev = seq_events d + 1 /\ e_id ev <= seq_events d1 /\
    e_created_at ev = clock d /\ to_int res = Ok (e_project_id ev) /\ e_project_id ev <> Some 0 /\
    Forall (fun p => 0 < p_id p) (projects d1).
Proof.
  intros H Hs Hp. pose proof (ingest_txn_seq _ _ _ _ _ _ _ H) as Hseq.
  apply ingest_txn_ok in H as (dp & ev & rs & Hres & Hto & Hfk & Hid & Heid & Hcl & _ & _ & _ & _ & _ & _ &
                                Hpr & Hev & _ & _).
  pose proof (resolve_project_tables _ _ _ _ _ Hres) as (He & _ & Hc).
  apply resolve_project_pos in Hres as [Hse Hpos]; [|done..].
  exists ev. split_and!; try congruence; try lia. by apply (fk_pos _ dp).
Qed.

(** ** Ranks in a list with distinct keys *)

Section Ranks.
Context {A : Type} (key : A -> Z).

(** The elements of [l] whose key is greater than [x]'s. *)
Definition above (x : A) (l : list A) : list A := List.filter (fun y => key x <? key y) l.

Lemma above_lt_length x l : In x l -> (length (above x l) < length l)%nat.
Proof.
  unfold above. induction l as [|a l IH]; [done|]. intros [->|Hx]; simpl.
  - rewrite Z.ltb_irrefl. pose proof (length_filter_le (fun y => key x <? key y) l). lia.
  - specialize (IH Hx). case_match; simpl; lia.
Qed.

Lemma above_nil x l : (forall a, In a l -> key a < key x) -> above x l = [].
Proof.
  induction l as [|a l IH]; intros H; [done|]. simpl.
  destruct (Z.ltb_spec (key x) (key a)); [specialize (H a (or_introl eq_refl)); lia|].
  apply IH. intros b Hb. apply H. by right.
Qed.

Lemma above_all x l : (forall b, In b l -> key x < key b) -> above x l = l.
Proof.
  induction l as [|a l IH]; intros H; [done|]. simpl.
  destruct (Z.ltb_spec (key x) (key a)); [|specialize (H a (or_introl eq_refl)); lia].
  f_equal. apply IH. intros b Hb. apply H. by right.
Qed.

Lemma sorted_app_lt l1 l2 a b :
  StronglySorted (fun a b => key a < key b) (l1 ++ l2) -> In a l1 -> In b l2 -> key a < key b.
Proof.
  intros H Ha Hb. apply (StronglySorted_app_1_elem_of (fun a b => key a < key b) l1 l2); [exact H | by apply list_elem_of_In..].
Qed.

(** In a strictly sorted list, [x] is among the first [m] elements exactly
    when at least [length l - m] elements are greater. *)
Lemma in_take_above l m x :
  StronglySorted (fun a b => key a < key b) l -> In x l ->
  In x (take m l) <-> (length l - m <= length (above x l))%nat.
Proof.
  intros Hs Hx. assert (Hlen : (length l - m = length (drop m l))%nat) by (rewrite length_drop; lia).
  rewrite Hlen. pose proof (take_drop m l) as Hl.
  set (l1 := take m l) in *. set (l2 := drop m l) in *.
  rewrite <- Hl in Hs, Hx. rewrite <- Hl.
  unfold above. rewrite List.filter_app. fold (above x l1) (above x l2).
  split.
  - intros H1. rewrite (above_all x l2) by (intros b Hb; eapply sorted_app_lt; eauto).
    rewrite length_app. lia.
  - intros Hge. apply in_app_or in Hx as [Hx|Hx]; [done|].
    rewrite (above_nil x l1) in Hge by (intros a Ha; eapply sorted_app_lt; eauto).
    pose proof (above_lt_length x l2 Hx). simpl in Hge. lia.
Qed.

Lemma sorted_le_lt l :
  StronglySorted (fun a b => key a <= key b) l -> NoDup (map key l) ->
  StronglySorted (fun a b => key a < key b) l.
Proof.
  induction 1 as [|a l Hs IH Ha]; simpl; intros Hnd; constructor; inversion Hnd as [|? ? Hnin Hnd']; subst.
  - by apply IH.
  - rewrite List.Forall_forall in Ha |- *. intros b Hb. specialize (Ha b Hb).
    assert (key a <> key b); [|lia]. intros Heq. apply Hnin. rewrite Heq. apply list_elem_of_In, in_map, Hb.
Qed.

Lemma above_Permutation x l l' : Permutation l l' -> length (above x l) = length (above x l').
Proof. intros H. apply Permutation_length, Permutation_filter, H. Qed.

#[local] Instance le_key_dec : RelDecision (fun a b : A => key a <= key b).
Proof. intros a b. apply _. Defined.

#[local] Instance le_key_total : Total (fun a b : A => key a <= key b).
Proof. intros a b. lia. Qed.

(** If [e] has at least [k] elements above it, there are [k] elements
    above it, each of which has fewer than [k] elements above it: the [k]
    greatest. *)
Lemma top_above l e k :
  NoDup (map key l) -> In e l -> (k <= length (above e l))%nat ->
  exists T, length T = k /\ NoDup T /\
    forall y, In y T -> In y l /\ (length (above y l) < k)%nat /\ key e < key y.
Proof.
  intros Hnd He Hk.
  set (L := merge_sort (fun a b => key a <= key b) l).
  assert (HP : Permutation L l) by apply merge_sort_Permutation.
  assert (HndL : NoDup (map key L)).
  { apply NoDup_ListNoDup. eapply Permutation_NoDup; [symmetry; apply Permutation_map, HP |].
    by apply NoDup_ListNoDup. }
  assert (Hs : StronglySorted (fun a b => key a < key b) L).
  { apply sorted_le_lt; [|done]. apply Sorted_StronglySorted; [intros a b c ? ?; lia|].
    unfold L. apply (Sorted_merge_sort _). }
  pose proof (above_lt_length e l He). pose proof (Permutation_length HP) as Hlen.
  set (m := (length L - k)%nat).
  assert (HeL : In e L) by (eapply Permutation_in; [symmetry; exact HP | done]).
  assert (Hetake : In e (take m L)).
  { apply (in_take_above L m e Hs HeL). rewrite (above_Permutation e L l HP). lia. }
  exists (drop m L). split_and!.
  - rewrite length_drop. lia.
  - apply NoDup_ListNoDup, (NoDup_map_inv key). rewrite <- (take_drop m L) in HndL.
    apply NoDup_ListNoDup in HndL. rewrite map_app in HndL. by apply NoDup_app_remove_l in HndL.
  - intros y Hy. assert (HyL : In y L) by (rewrite <- (take_drop m L); apply in_or_app; by right).
    split_and!.
    + eapply Permutation_in; [exact HP | done].
    + rewrite <- (above_Permutation y L l HP).
      destruct (Nat.lt_ge_cases (length (above y L)) k) as [|Hge]; [done|]. exfalso.
      assert (Hyt : In y (take m L)) by (apply (in_take_above L m y Hs HyL); lia).
      rewrite <- (take_drop m L) in Hs. pose proof (sorted_app_lt _ _ y y Hs Hyt Hy). lia.
    + rewrite <- (take_drop m L) in Hs. exact (sorted_app_lt _ _ e y Hs Hetake Hy).
Qed.

(** In a strictly sorted list at most [k] elements have fewer than [k]
    elements above them: they are the last [k]. *)
Lemma few_above_sorted l k :
  StronglySorted (fun a b => key a < key b) l ->
  (length (List.filter (fun y => length (above y l) <? k)%nat l) <= k)%nat.
Proof.
  induction 1 as [|x l Hs IH Hx]; [simpl; lia|]. rewrite List.Forall_forall in Hx.
  assert (Hx0 : above x (x :: l) = l).
  { unfold above. simpl. rewrite Z.ltb_irrefl. apply (above_all x l). intros b Hb. by apply Hx. }
  cbn [List.filter]. rewrite Hx0.
  rewrite (List.filter_ext_in _ (fun y => length (above y l) <? k)%nat l).
  2:{ intros y Hy. unfold above. simpl. specialize (Hx y Hy).
      destruct (Z.ltb_spec (key y) (key x)); [lia | done]. }
  pose proof (length_filter_le (fun y => (length (above y l) <? k)%nat) l).
  destruct (Nat.ltb_spec (length l) k); simpl; lia.
Qed.

Lemma sort_strict l :
  NoDup (map key l) -> exists L, Permutation L l /\ StronglySorted (fun a b => key a < key b) L.
Proof.
  intros Hnd. exists (merge_sort (fun a b => key a <= key b) l). split; [apply merge_sort_Permutation|].
  apply sorted_le_lt.
  - apply Sorted_StronglySorted; [intros a b c ? ?; lia | apply (Sorted_merge_sort _)].
  - apply NoDup_ListNoDup. eapply Permutation_NoDup; [symmetry; apply Permutation_map, merge_sort_Permutation |].
    by apply NoDup_ListNoDup.
Qed.

Lemma few_above l k :
  NoDup (map key l) -> (length (List.filter (fun y => length (above y l) <? k)%nat l) <= k)%nat.
Proof.
  intros Hnd. destruct (sort_strict l Hnd) as (L & HP & Hs).
  rewrite (List.filter_ext _ (fun y => length (above y L) <? k)%nat)
    by (intros y; by rewrite (above_Permutation y L l HP)).
  rewrite <- (Permutation_length (Permutation_filter _ _ _ HP)). by apply few_above_sorted.
Qed.

End Ranks.

(** ** The sweep's choice *)

(** The [DELETE] of a sweep of project [p] takes exactly the events of [p]
    with at least five younger events of [p]. *)
Lemma select_delete_iff p d x :
  NoDup (map e_created_at (project_events p d)) -> NoDup (map e_id (project_events p d)) ->
  In x (project_events p d) ->
  In (e_id x) (ids_to_delete (select_event_ids p d)) <->
  (keep <= length (above e_created_at x (project_events p d)))%nat.
Proof.
  intros Hct Hid Hx. set (L := merge_sort created_le (project_events p d)).
  assert (HP : Permutation L (project_events p d)) by apply merge_sort_Permutation.
  assert (HxL : In x L) by (eapply Permutation_in; [symmetry; exact HP | done]).
  assert (HndL : forall f : event -> Z, NoDup (map f (project_events p d)) -> NoDup (map f L)).
  { intros f Hf. apply NoDup_ListNoDup. eapply Permutation_NoDup; [symmetry; apply Permutation_map, HP |].
    by apply NoDup_ListNoDup. }
  assert (Hs : StronglySorted (fun a b => e_created_at a < e_created_at b) L).
  { apply sorted_le_lt; [|by apply HndL]. apply Sorted_StronglySorted; [apply _|].
    apply (Sorted_merge_sort _). }
  rewrite <- (above_Permutation e_created_at x L _ HP).
  unfold ids_to_delete, select_event_ids. fold L. rewrite length_map.
  pose proof (above_lt_length e_created_at x L HxL).
  destruct (Nat.ltb_spec keep (length L)) as [Hlt|Hge]; [|split; [done | lia]].
  rewrite firstn_map. transitivity (In x (take (length L - keep) L)).
  - split; [|apply in_map]. intros (y & Hyx & Hy)%in_map_iff.
    rewrite <- (NoDup_map_inj e_id L y x); [done | by apply HndL | by apply In_take in Hy | done..].
  - rewrite (in_take_above e_created_at L _ x Hs HxL).
    replace (length L - (length L - keep))%nat with keep by lia. done.
Qed.

(** ** The invariant of interleaved runs *)

Definition txn_times (ts : list task) : list Z :=
  flat_map (fun t => match t with TTxn s _ _ => [s] | _ => [] end) ts.

(** The pending step that will delete [e]: the [SELECT] of its project's
    sweep, or a [DELETE] that names it. *)
Definition covers (t : task) (e : event) : Prop :=
  match t with
  | TSelect res => to_int res = Ok (e_project_id e)
  | TDelete ids => In (e_id e) ids
  | TConnect _ _ | TTxn _ _ _ | TProj _ => False
  end.

Record cinv (st : cstate) : Prop := {
  ci_sub : forall e, In e (events (cdb st)) -> In e (committed st);
  ci_nodup : NoDup (map e_id (events (cdb st)));
  ci_ids : NoDup (map e_id (committed st));
  ci_ids_seq : Forall (fun e => e_id e <= seq_events (cdb st)) (committed st);
  ci_del_seq : forall ids, In (TDelete ids) (tasks st) -> Forall (fun i => i <= seq_events (cdb st)) ids;
  ci_times : NoDup (map e_created_at (committed st) ++ txn_times (tasks st));
  ci_clock : Forall (fun t => t <= clock (cdb st)) (map e_created_at (committed st) ++ txn_times (tasks st));
  ci_pos : Forall (fun p => 0 < p_id p) (projects (cdb st));
  ci_seqp : 0 <= seq_projects (cdb st);
  (** the five newest events of a project are never deleted *)
  ci_newest : forall e, In e (committed st) -> e_project_id e <> None ->
    (length (newer e (committed st)) < keep)%nat -> In e (events (cdb st));
  (** a pending [DELETE] only names events with five younger ones *)
  ci_delete : forall ids e, In (TDelete ids) (tasks st) -> In e (committed st) -> In (e_id e) ids ->
    (keep <= length (newer e (committed st)))%nat;
  (** an event with five younger ones is still to be swept *)
  ci_cover : forall e, In e (events (cdb st)) -> e_project_id e <> None ->
    (keep <= length (newer e (committed st)))%nat ->
    exists t, In t (tasks st) /\ covers t e }.

Lemma in_rest {A} (l rest : list A) t x : Permutation l (t :: rest) -> In x l -> x = t \/ In x rest.
Proof. intros HP Hx. eapply Permutation_in in Hx; [|exact HP]. destruct Hx; auto. Qed.

Lemma rest_in {A} (l rest : list A) t x : Permutation l (t :: rest) -> In x rest -> In x l.
Proof. intros HP Hx. eapply Permutation_in; [symmetry; exact HP | by right]. Qed.

Lemma txn_times_perm l l' : Permutation l l' -> Permutation (txn_times l) (txn_times l').
Proof. intros HP. unfold txn_times. by rewrite HP. Qed.

Lemma cinv_delete st i ids :
  cinv st -> tasks st !! i = Some (TDelete ids) ->
  cinv (mkC (delete_events ids (cdb st)) (delete i (tasks st)) (committed st)).
Proof.
  intros [] Hi. pose proof (delete_Permutation _ _ _ Hi) as HP.
  set (rest := delete i (tasks st)) in *.
  assert (Ht : Permutation (txn_times (tasks st)) (txn_times rest)) by (by apply txn_times_perm in HP).
  constructor; simpl.
  - intros e [He _]%filter_In. auto.
  - by apply NoDup_map_filter.
  - done.
  - done.
  - intros ids' H. apply ci_del_seq0. by eapply rest_in.
  - by rewrite <- Ht.
  - by rewrite <- Ht.
  - done.
  - done.
  - intros e Hc Hp Hn. apply filter_In. split; [by apply ci_newest0|].
    apply negb_true_iff, bool_decide_eq_false. intros Hid%list_elem_of_In.
    pose proof (ci_delete0 ids e ltac:(rewrite HP; by left) Hc Hid). lia.
  - intros ids' e Hd. apply ci_delete0. by eapply rest_in.
  - intros e [He Hnd]%filter_In Hp Hn.
    destruct (ci_cover0 e He Hp Hn) as (t & Ht' & Hc). exists t. split; [|done].
    destruct (in_rest _ _ _ _ HP Ht') as [->|]; [|done].
    apply negb_true_iff, bool_decide_eq_false in Hnd. by destruct Hnd; apply list_elem_of_In.
Qed.

(** Replacing a pending sweep statement by others, the database unchanged. *)
Lemma cinv_replace st t rest new :
  cinv st -> Permutation (tasks st) (t :: rest) -> txn_times [t] = [] -> txn_times new = [] ->
  (forall ids, In (TDelete ids) new -> Forall (fun i => i <= seq_events (cdb st)) ids /\
     forall e, In e (committed st) -> In (e_id e) ids -> (keep <= length (newer e (committed st)))%nat) ->
  (forall e, In e (events (cdb st)) -> e_project_id e <> None ->
     (keep <= length (newer e (committed st)))%nat -> covers t e -> exists t', In t' new /\ covers t' e) ->
  cinv (mkC (cdb st) (rest ++ new) (committed st)).
Proof.
  intros [] HP Ht Hnew Hdel Hcov.
  assert (Htt : Permutation (txn_times (tasks st)) (txn_times (rest ++ new))).
  { rewrite (txn_times_perm _ _ HP). unfold txn_times in *. rewrite flat_map_app, Hnew, app_nil_r.
    by destruct t. }
  constructor; simpl; try done.
  - intros ids [Hr|Hn]%in_app_or; [apply ci_del_seq0; by eapply rest_in | by apply Hdel].
  - by rewrite <- Htt.
  - by rewrite <- Htt.
  - intros ids e [Hr|Hn]%in_app_or; [apply ci_delete0; by eapply rest_in | by apply Hdel].
  - intros e He Hp Hn. destruct (ci_cover0 e He Hp Hn) as (t' & Ht' & Hc).
    destruct (in_rest _ _ _ _ HP Ht') as [->|Hr].
    + destruct (Hcov e He Hp Hn Hc) as (t'' & ? & ?). exists t''. split; [by apply in_or_app; right | done].
    + exists t'. split; [by apply in_or_app; left | done].
Qed.

Definition of_proj (p : Z) (es : list event) : list event :=
  List.filter (fun y => bool_decide (e_project_id y = Some p)) es.

Lemma project_events_of_proj p d : project_events p d = of_proj p (events d).
Proof. reflexivity. Qed.

Lemma newer_above e p es : e_project_id e = Some p -> newer e es = above e_created_at e (of_proj p es).
Proof.
  intros He. unfold newer, above, of_proj. rewrite He.
  induction es as [|y es IH]; simpl; [done|]. rewrite IH.
  destruct (bool_decide (e_project_id y = Some p)); simpl; [|done]. by destruct (_ <? _).
Qed.

Lemma NoDup_map_incl {A B} (f : A -> B) l l' :
  NoDup l -> incl l l' -> NoDup (map f l') -> NoDup (map f l).
Proof.
  induction l as [|x l IH]; simpl; intros Hnd Hincl Hf; [constructor|].
  inversion Hnd as [|? ? Hx Hnd']; subst. constructor; [|apply IH; [done | by intros ? ?; apply Hincl; right | done]].
  intros (y & Hyx & Hy)%list_elem_of_In%in_map_iff. apply Hx, list_elem_of_In.
  rewrite <- (NoDup_map_inj f l' y x); [done | done | apply Hincl; by right | apply Hincl; by left | done].
Qed.

Lemma NoDup_of_ids es : NoDup (map e_id es) -> NoDup es.
Proof. intros H. apply NoDup_ListNoDup, (NoDup_map_inv e_id), NoDup_ListNoDup, H. Qed.

Lemma in_of_proj p es e : In e (of_proj p es) <-> In e es /\ e_project_id e = Some p.
Proof. unfold of_proj. rewrite filter_In. by rewrite bool_decide_eq_true. Qed.

Section Invariant.
Context (st : cstate) (Hinv : cinv st).

Lemma committed_times_nodup p : NoDup (map e_created_at (of_proj p (committed st))).
Proof. apply NoDup_map_filter. pose proof (ci_times _ Hinv) as H. by apply NoDup_app in H as [? _]. Qed.

Lemma present_times_nodup p : NoDup (map e_created_at (project_events p (cdb st))).
Proof.
  apply (NoDup_map_incl _ _ (of_proj p (committed st))).
  - apply NoDup_of_ids, NoDup_map_filter, (ci_nodup _ Hinv).
  - intros e [He Hp]%in_of_proj. apply in_of_proj. split; [by apply (ci_sub _ Hinv) | done].
  - apply committed_times_nodup.
Qed.

Lemma present_ids_nodup p : NoDup (map e_id (project_events p (cdb st))).
Proof. apply NoDup_map_filter, (ci_nodup _ Hinv). Qed.

(** An event with five younger committed events has five younger present
    ones: the five newest of its project are never deleted. *)
Lemma present_newer x p :
  In x (events (cdb st)) -> e_project_id x = Some p -> (keep <= length (newer x (committed st)))%nat ->
  (keep <= length (above e_created_at x (project_events p (cdb st))))%nat.
Proof.
  intros Hx Hp Hn. rewrite (newer_above x p) in Hn by done.
  destruct (top_above e_created_at (of_proj p (committed st)) x keep (committed_times_nodup p)
              ltac:(apply in_of_proj; split; [by apply (ci_sub _ Hinv) | done]) Hn) as (T & HT & HndT & Hall).
  rewrite <- HT. apply NoDup_incl_length; [by apply NoDup_ListNoDup|].
  intros y Hy. destruct (Hall y Hy) as ((Hyc & Hyp)%in_of_proj & Hyn & Hlt).
  apply filter_In. split; [|by apply Z.ltb_lt]. apply in_of_proj. split; [|done].
  apply (ci_newest _ Hinv); [done | by rewrite Hyp |]. by rewrite (newer_above y p).
Qed.

Lemma select_ids_present p i :
  In i (select_event_ids p (cdb st)) -> exists x, In x (project_events p (cdb st)) /\ e_id x = i.
Proof.
  unfold select_event_ids. intros (x & <- & Hx)%in_map_iff. exists x. split; [|done].
  eapply Permutation_in; [apply (merge_sort_Permutation created_le) | exact Hx].
Qed.

Lemma ids_to_delete_in i ids : In i (ids_to_delete ids) -> In i ids.
Proof. unfold ids_to_delete. case_match; [apply In_take | done]. Qed.

(** The [DELETE] a sweep plans names only old events, with ids already drawn. *)
Lemma select_delete_ok p :
  Forall (fun i => i <= seq_events (cdb st)) (ids_to_delete (select_event_ids p (cdb st))) /\
  forall e, In e (committed st) -> In (e_id e) (ids_to_delete (select_event_ids p (cdb st))) ->
    (keep <= length (newer e (committed st)))%nat.
Proof.
  split.
  - apply List.Forall_forall. intros i (x & Hx & <-)%ids_to_delete_in%select_ids_present.
    rewrite project_events_of_proj, in_of_proj in Hx. destruct Hx as [Hx _].
    pose proof (ci_ids_seq _ Hinv) as H. rewrite List.Forall_forall in H. by apply H, (ci_sub _ Hinv).
  - intros e He Hid. destruct (select_ids_present p _ (ids_to_delete_in _ _ Hid)) as (x & Hx & Hxe).
    assert (x = e) as ->.
    { apply (NoDup_map_inj e_id (committed st)); [apply (ci_ids _ Hinv) | | done | done].
      apply (ci_sub _ Hinv). rewrite project_events_of_proj, in_of_proj in Hx. by destruct Hx. }
    apply select_delete_iff in Hid; [|apply present_times_nodup | apply present_ids_nodup | done].
    apply in_of_proj in Hx as [_ Hp]. rewrite (newer_above e p) by done.
    etransitivity; [exact Hid|]. apply NoDup_incl_length.
    + unfold above. apply List.NoDup_filter, NoDup_ListNoDup, NoDup_of_ids, present_ids_nodup.
    + intros y [Hy Hlt]%filter_In. apply filter_In. split; [|done].
      apply in_of_proj in Hy as [Hy Hyp]. apply in_of_proj. split; [by apply (ci_sub _ Hinv) | done].
Qed.

End Invariant.

Lemma cinv_select st i res :
  cinv st -> tasks st !! i = Some (TSelect res) -> cinv (select_step res st (delete i (tasks st))).
Proof.
  intros Hinv Hi. pose proof (delete_Permutation _ _ _ Hi) as HP.
  assert (Hno : forall new, txn_times new = [] ->
    (forall ids, In (TDelete ids) new -> Forall (fun i => i <= seq_events (cdb st)) ids /\
       forall e, In e (committed st) -> In (e_id e) ids -> (keep <= length (newer e (committed st)))%nat) ->
    (forall e, In e (events (cdb st)) -> e_project_id e <> None ->
       (keep <= length (newer e (committed st)))%nat -> covers (TSelect res) e -> exists t', In t' new /\ covers t' e) ->
    cinv (mkC (cdb st) (delete i (tasks st) ++ new) (committed st))).
  { intros new Hn Hd Hc. by eapply cinv_replace. }
  unfold select_step. simpl covers in Hno. destruct (to_int res) as [[p|]|err] eqn:Hres.
  - destruct (Nat.ltb_spec keep (length (select_event_ids p (cdb st)))) as [Hk|Hk].
    + apply Hno; [done | intros ids [[= <-]|[]]; apply select_delete_ok, Hinv |].
      intros e He Hp Hn [= Hc]. exists (TDelete (ids_to_delete (select_event_ids p (cdb st)))).
      split; [by left|]. simpl.
      apply select_delete_iff; [by apply present_times_nodup | by apply present_ids_nodup | |].
      * apply in_of_proj. by split.
      * by apply present_newer.
    + rewrite <- (app_nil_r (delete i (tasks st))). apply Hno; [done | done |].
      intros e He Hp Hn [= Hc]. exfalso.
      pose proof (present_newer st Hinv e p He (eq_sym Hc) Hn) as Hge.
      assert (In e (project_events p (cdb st))) as Hin by (apply in_of_proj; by split).
      pose proof (above_lt_length e_created_at e _ Hin).
      unfold select_event_ids in Hk. rewrite length_map, (Permutation_length (merge_sort_Permutation created_le _)) in Hk.
      lia.
  - rewrite <- (app_nil_r (delete i (tasks st))). apply Hno; [done | done |].
    intros e He Hp Hn [= Hc]. by destruct Hp.
  - rewrite <- (app_nil_r (delete i (tasks st))). apply Hno; [done | done |]. by intros ? ? ? ? [=].
Qed.

(** ** A transaction commits or rolls back *)

Lemma times_perm st ts b ss rest :
  Permutation (tasks st) (TTxn ts b ss :: rest) ->
  Permutation (map e_created_at (committed st) ++ txn_times (tasks st))
              (ts :: map e_created_at (committed st) ++ txn_times rest).
Proof.
  intros HP. rewrite (txn_times_perm _ _ HP). cbn [txn_times flat_map app].
  symmetry. apply Permutation_middle.
Qed.

Lemma txn_times_app l l' : txn_times (l ++ l') = txn_times l ++ txn_times l'.
Proof. unfold txn_times. apply flat_map_app. Qed.

Lemma newer_app_le e l l' : (length (newer e l) <= length (newer e (l ++ l')))%nat.
Proof. unfold newer. rewrite List.filter_app, length_app. lia. Qed.

Lemma newer_snoc_other e l ev :
  e_project_id ev <> e_project_id e -> newer e (l ++ [ev]) = newer e l.
Proof.
  intros Hne. unfold newer. rewrite List.filter_app. simpl.
  rewrite bool_decide_false by done. simpl. apply app_nil_r.
Qed.

Lemma NoDup_ids_snoc es ev s :
  Forall (fun e => e_id e <= s) es -> e_id ev = s + 1 -> NoDup (map e_id es) ->
  NoDup (map e_id (es ++ [ev])).
Proof.
  intros Hle Hid Hnd. rewrite map_app. apply NoDup_app. split_and!; [done | | apply NoDup_singleton].
  intros x (e & <- & He)%list_elem_of_In%in_map_iff Hx. simpl in Hx.
  apply list_elem_of_singleton in Hx. rewrite List.Forall_forall in Hle. specialize (Hle e He). lia.
Qed.

Lemma present_ids_seq st :
  cinv st -> Forall (fun e => e_id e <= seq_events (cdb st)) (events (cdb st)).
Proof.
  intros Hinv. apply List.Forall_forall. intros e He.
  pose proof (ci_ids_seq _ Hinv) as H. rewrite List.Forall_forall in H. by apply H, (ci_sub _ Hinv).
Qed.

Lemma cinv_rollback st ts b ss rest d1 :
  cinv st -> Permutation (tasks st) (TTxn ts b ss :: rest) -> mono (with_clock ts (cdb st)) d1 ->
  cinv (mkC (rollback_to (cdb st) (with_clock (clock (cdb st)) d1)) rest (committed st)).
Proof.
  intros [] HP Hm. pose proof (times_perm _ _ _ _ _ HP) as Ht. unfold mono in Hm. simpl in Hm.
  rewrite Ht in ci_times0, ci_clock0. apply NoDup_cons in ci_times0 as [_ Hnd].
  apply Forall_cons in ci_clock0 as [_ Hcl].
  constructor; simpl; try done; try lia.
  - eapply Forall_impl; [exact ci_ids_seq0 | simpl; lia].
  - intros ids Hr. eapply Forall_impl; [apply ci_del_seq0; by eapply rest_in | simpl; lia].
  - intros ids e Hr. apply ci_delete0. by eapply rest_in.
  - intros e He Hp Hn. destruct (ci_cover0 e He Hp Hn) as (t & Ht' & Hc).
    destruct (in_rest _ _ _ _ HP Ht') as [->|Hr]; [done | by exists t].
Qed.

Lemma cinv_commit st i ts b ss :
  cinv st -> tasks st !! i = Some (TTxn ts b ss) -> cinv (commit ts b ss st (delete i (tasks st))).
Proof.
  intros Hinv Hi. pose proof (delete_Permutation _ _ _ Hi) as HP.
  set (rest := delete i (tasks st)) in *. unfold commit.
  pose proof (smono_ingest_txn ss b (with_clock ts (cdb st))) as [Hm _].
  destruct (ingest_txn ss b (with_clock ts (cdb st))) as [[[[eid rids] res]|err] d1] eqn:Htx;
    [|by apply cinv_rollback with ts b ss].
  pose proof (present_ids_seq st Hinv) as Hpids. pose proof (times_perm _ _ _ _ _ HP) as Ht.
  destruct Hinv as [Hsub Hnd Hids Hidseq Hdel Htimes Hclock Hpos Hseqp Hnew Hdl Hcov].
  destruct (ingest_txn_conc _ _ _ _ _ _ _ Htx Hseqp Hpos) as (ev & Hev & Hid & Hidle & Hct & Hto & Hp0 & Hpos1).
  simpl in *. unfold mono in Hm. simpl in Hm. rewrite Hev, drop_app_length.
  set (sel := if truthy res then [TSelect res] else []).
  assert (Hsel : txn_times sel = []) by (unfold sel; by destruct (truthy res)).
  assert (Hnodel : forall ids, ~ In (TDelete ids) sel) by (unfold sel; destruct (truthy res); simpl; intros ? H; intuition discriminate).
  assert (Hcovsel : forall e, e_project_id e = e_project_id ev -> e_project_id e <> None ->
                      exists t, In t sel /\ covers t e).
  { intros e He Hne. destruct (e_project_id ev) as [p|] eqn:Hpv; [|done].
    exists (TSelect res). unfold sel. rewrite (to_int_truthy res p); [|done | congruence].
    split; [by left | simpl; congruence]. }
  assert (Hperm : Permutation (map e_created_at (committed st ++ [ev]) ++ txn_times (rest ++ sel))
                    (ts :: map e_created_at (committed st) ++ txn_times rest)).
  { rewrite map_app, txn_times_app, Hsel, app_nil_r. cbn [map]. rewrite Hct, <- app_assoc. cbn [app].
    symmetry. apply Permutation_middle. }
  replace (if truthy res then rest ++ [TSelect res] else rest) with (rest ++ sel)
    by (unfold sel; destruct (truthy res); [done | apply app_nil_r]).
  constructor; simpl; rewrite ?Hev.
  - intros e [He|He]%in_app_or; apply in_or_app; [left; by apply Hsub | by right].
  - by apply (NoDup_ids_snoc _ _ (seq_events (cdb st))).
  - by apply (NoDup_ids_snoc _ _ (seq_events (cdb st))).
  - apply Forall_app. split; [eapply Forall_impl; [exact Hidseq | simpl; lia] | by constructor].
  - intros ids [Hr|Hs]%in_app_or; [|by destruct (Hnodel ids)].
    eapply Forall_impl; [apply Hdel; by eapply rest_in | simpl; lia].
  - rewrite Hperm, <- Ht. done.
  - rewrite Hperm, <- Ht. done.
  - done.
  - lia.
  - intros e [Hc|[<-|[]]]%in_app_or Hp Hn; apply in_or_app; [left | right; by left].
    apply Hnew; [done | done |]. pose proof (newer_app_le e (committed st) [ev]). lia.
  - intros ids e [Hr|Hs]%in_app_or; [|by destruct (Hnodel ids)].
    intros [Hc|[<-|[]]]%in_app_or Hin.
    + pose proof (Hdl ids e (rest_in _ _ _ _ HP Hr) Hc Hin). pose proof (newer_app_le e (committed st) [ev]). lia.
    + pose proof (Hdel ids (rest_in _ _ _ _ HP Hr)) as Hf. rewrite List.Forall_forall in Hf.
      specialize (Hf _ Hin). lia.
  - intros e He Hp Hn. destruct (decide (e_project_id e = e_project_id ev)) as [Heq|Hne].
    + destruct (Hcovsel e Heq Hp) as (t & ? & ?). exists t. split; [apply in_or_app; by right | done].
    + rewrite newer_snoc_other in Hn by congruence.
      apply in_app_or in He as [He|[<-|[]]]; [|done].
      destruct (Hcov e He Hp Hn) as (t & Ht' & Hc). destruct (in_rest _ _ _ _ HP Ht') as [->|Hr]; [done|].
      exists t. split; [apply in_or_app; by left | done].
Qed.

(** ** Waiting for a connection *)

Lemma post_projects_conc b d :
  events (snd (post_projects b d)) = events d /\ mono d (snd (post_projects b d)) /\
  (projects (snd (post_projects b d)) = projects d \/
   exists p, p_id p = seq_projects d + 1 /\ projects (snd (post_projects b d)) = projects d ++ [p]).
Proof.
  unfold post_projects. case_match; [split_and!; [done | reflexivity | by left]|].
  destruct (insert_project _ _ _ (tick d)) as [r d'] eqn:Hins.
  assert (snd (match (r, d') with
               | (Ok p, d') => (RJson 201 (project_json p), d')
               | (Err UniqueViolation, d') => (RJson 409 (error_body msg_exists), d')
               | (Err e, d') => (Unhandled (ESql e), d') end) = d') as -> by (by destruct r as [|[]]).
  apply insert_project_tables in Hins as (He & _ & _ & Hm & Hps). unfold mono in *. simpl in *.
  split_and!; [done | lia..| done].
Qed.

Lemma cinv_enqueue st t :
  cinv st -> txn_times [t] = [] -> (forall ids, t <> TDelete ids) ->
  cinv (mkC (cdb st) (tasks st ++ [t]) (committed st)).
Proof.
  intros [] Ht Hd. constructor; simpl; try done.
  - intros ids [Hi|[Heq|[]]]%in_app_or; [by apply ci_del_seq0 | by destruct (Hd ids)].
  - by rewrite txn_times_app, Ht, app_nil_r.
  - by rewrite txn_times_app, Ht, app_nil_r.
  - intros ids e [Hi|[Heq|[]]]%in_app_or; [by apply ci_delete0 | by destruct (Hd ids)].
  - intros e He Hp Hn. destruct (ci_cover0 e He Hp Hn) as (t' & ? & ?).
    exists t'. split; [apply in_or_app; by left | done].
Qed.

Lemma cinv_arrive st q : cinv st -> cinv (arrive q st).
Proof.
  intros Hinv. destruct q as [b|b]; simpl; [|by apply cinv_enqueue].
  destruct (suites_of_body b) as [ss|]; [|done]. destruct (validate ss); [|done..].
  by apply cinv_enqueue.
Qed.

(** Removing a waiting request from the tasks keeps their times. *)
Lemma waiting_times st i t :
  tasks st !! i = Some t -> txn_times [t] = [] ->
  Permutation (txn_times (tasks st)) (txn_times (delete i (tasks st))).
Proof.
  intros Hi Ht. rewrite (txn_times_perm _ _ (delete_Permutation _ _ _ Hi)).
  change (t :: delete i (tasks st)) with ([t] ++ delete i (tasks st)). by rewrite txn_times_app, Ht.
Qed.

Lemma cinv_connect st i b ss :
  cinv st -> tasks st !! i = Some (TConnect b ss) -> cinv (connect b ss st (delete i (tasks st))).
Proof.
  intros [] Hi. pose proof (delete_Permutation _ _ _ Hi) as HP.
  pose proof (waiting_times _ _ _ Hi eq_refl) as Ht.
  set (rest := delete i (tasks st)) in *. unfold connect. constructor; simpl.
  - exact ci_sub0.
  - exact ci_nodup0.
  - exact ci_ids0.
  - exact ci_ids_seq0.
  - intros ids [Hd|[[=]|[]]]%in_app_or. apply ci_del_seq0. by eapply rest_in.
  - rewrite txn_times_app, app_assoc, <- Ht. apply NoDup_app. split_and!; [done | | apply NoDup_singleton].
    intros x Hx ->%list_elem_of_singleton. apply list_elem_of_In in Hx.
    rewrite List.Forall_forall in ci_clock0. specialize (ci_clock0 _ Hx). lia.
  - rewrite txn_times_app, app_assoc, <- Ht. apply Forall_app. split; [|by constructor].
    eapply Forall_impl; [exact ci_clock0 | simpl; lia].
  - exact ci_pos0.
  - exact ci_seqp0.
  - exact ci_newest0.
  - intros ids e [Hd|[[=]|[]]]%in_app_or. apply ci_delete0. by eapply rest_in.
  - intros e He Hp Hn. destruct (ci_cover0 e He Hp Hn) as (t & Ht' & Hc).
    destruct (in_rest _ _ _ _ HP Ht') as [->|Hr]; [done|].
    exists t. split; [apply in_or_app; by left | done].
Qed.

Lemma cinv_proj st i b :
  cinv st -> tasks st !! i = Some (TProj b) ->
  cinv (mkC (snd (post_projects b (cdb st))) (delete i (tasks st)) (committed st)).
Proof.
  intros [] Hi. pose proof (delete_Permutation _ _ _ Hi) as HP.
  pose proof (waiting_times _ _ _ Hi eq_refl) as Ht.
  destruct (post_projects_conc b (cdb st)) as (He & Hm & Hps). unfold mono in Hm.
  set (rest := delete i (tasks st)) in *. constructor; simpl; rewrite ?He.
  - exact ci_sub0.
  - exact ci_nodup0.
  - exact ci_ids0.
  - eapply Forall_impl; [exact ci_ids_seq0 | simpl; lia].
  - intros ids Hd. eapply Forall_impl; [apply ci_del_seq0; by eapply rest_in | simpl; lia].
  - by rewrite <- Ht.
  - rewrite <- Ht. eapply Forall_impl; [exact ci_clock0 | simpl; lia].
  - destruct Hps as [->|(p & Hp & ->)]; [done|]. apply Forall_app. split; [done | constructor; [lia | done]].
  - lia.
  - exact ci_newest0.
  - intros ids e Hd. apply ci_delete0. by eapply rest_in.
  - intros e He' Hp Hn. destruct (ci_cover0 e He' Hp Hn) as (t & Ht' & Hc).
    destruct (in_rest _ _ _ _ HP Ht') as [->|Hr]; [done | by exists t].
Qed.

(** ** Every interleaving *)

Lemma cinv_cinit : cinv cinit.
Proof. constructor; simpl; try done; constructor. Qed.

Lemma cinv_cstep a st : cinv st -> cinv (cstep a st).
Proof.
  intros Hinv. destruct a as [q|i]; [by apply cinv_arrive|]. simpl.
  destruct (tasks st !! i) as [t|] eqn:Hi; [|done].
  destruct (needs_conn t && negb (pool_free st)); [done|].
  destruct t as [b ss|ts b ss|res|ids|b]; simpl;
    [by apply cinv_connect | by apply cinv_commit | by apply cinv_select | by apply cinv_delete
    | by apply cinv_proj].
Qed.

Lemma cinv_crun acts st : cinv st -> cinv (crun acts st).
Proof. revert st. induction acts as [|a acts IH]; intros st H; simpl; [done|]. by apply IH, cinv_cstep. Qed.

(** ** Quiescence *)

Section Quiescent.
Context (st : cstate) (Hinv : cinv st) (Hidle : tasks st = []).

Lemma quiescent_iff e :
  e_project_id e <> None ->
  In e (events (cdb st)) <-> In e (committed st) /\ (length (newer e (committed st)) < keep)%nat.
Proof.
  intros Hp. split.
  - intros He. split; [by apply (ci_sub _ Hinv)|].
    destruct (Nat.lt_ge_cases (length (newer e (committed st))) keep) as [|Hge]; [done|].
    destruct (ci_cover _ Hinv e He Hp Hge) as (t & Hin & _). by rewrite Hidle in Hin.
  - intros [Hc Hn]. by apply (ci_newest _ Hinv).
Qed.

Lemma quiescent_project_events p : (length (project_events p (cdb st)) <= keep)%nat.
Proof.
  etransitivity; [|apply (few_above e_created_at _ keep (committed_times_nodup st Hinv p))].
  apply NoDup_incl_length; [apply NoDup_ListNoDup, NoDup_of_ids, (present_ids_nodup st Hinv)|].
  intros y Hy. rewrite project_events_of_proj, in_of_proj in Hy. destruct Hy as [Hye Hyp].
  apply quiescent_iff in Hye as [Hc Hn]; [|by rewrite Hyp].
  apply filter_In. split; [apply in_of_proj; by split|]. apply Nat.ltb_lt. by rewrite <- (newer_above y p).
Qed.

End Quiescent.

(** ** Draining the tasks

    Each step of the first task brings the in-flight work down: a request
    waiting for a connection begins its transaction, a transaction leaves at
    most a [SELECT], a [SELECT] at most a [DELETE], a [DELETE] and a project
    registration nothing.  With fewer requests in flight than connections,
    a connection is always free. *)

Definition task_weight (t : task) : nat :=
  match t with TConnect _ _ => 4 | TTxn _ _ _ => 3 | TSelect _ => 2 | TDelete _ => 1 | TProj _ => 1 end.

Definition weight (ts : list task) : nat := sum_list_with task_weight ts.

Lemma weight_app l l' : weight (l ++ l') = (weight l + weight l')%nat.
Proof. apply sum_list_with_app. Qed.

Lemma held_app l l' : held (l ++ l') = (held l + held l')%nat.
Proof. unfold held. by rewrite List.filter_app, length_app. Qed.

Lemma held_le ts : (held ts <= length ts)%nat.
Proof. apply length_filter_le. Qed.

Lemma weight_run_task t st rest :
  (weight (tasks (run_task t st rest)) < weight rest + task_weight t)%nat /\
  (length (tasks (run_task t st rest)) <= S (length rest))%nat.
Proof.
  destruct t as [b ss|ts b ss|res|ids|b]; simpl.
  - rewrite weight_app, length_app. simpl. lia.
  - unfold commit. destruct (ingest_txn _ _ _) as [[[[? ?] res]|?] ?]; simpl; [|lia].
    destruct (truthy res); rewrite ?weight_app, ?length_app; simpl; lia.
  - unfold select_step. destruct (to_int res) as [p|]; simpl; [|lia].
    case_match; simpl; rewrite ?weight_app, ?length_app; simpl; lia.
  - lia.
  - lia.
Qed.

Lemma weight_le_length ts : (weight ts <= 4 * length ts)%nat.
Proof. induction ts as [|[] ts IH]; simpl; lia. Qed.

Lemma drain_weight n st :
  (length (tasks st) < pool_max)%nat -> (weight (tasks st) <= n)%nat ->
  tasks (crun (repeat (Run 0) n) st) = [].
Proof.
  revert st. induction n as [|n IH]; intros st Hl Hw; simpl.
  - destruct (tasks st) as [|t ts]; [done|]. simpl in Hw. destruct t; simpl in Hw; lia.
  - destruct (tasks st) as [|t rest] eqn:Ht; simpl.
    + apply IH; rewrite Ht; simpl; lia.
    + assert (Hf : pool_free st = true).
      { unfold pool_free. rewrite Ht. apply Nat.ltb_lt. pose proof (held_le (t :: rest)). lia. }
      rewrite Hf, andb_false_r. destruct (weight_run_task t st rest) as [Hw' Hl'].
      simpl in Hw, Hl. apply IH; lia.
Qed.

(** Run the in-flight tasks in arrival order. *)
Definition drain (st : cstate) : list action := repeat (Run 0) (4 * length (tasks st)).

(** ** Ten sweeps waiting for a connection *)

Lemma stuck_cstep a st :
  held (tasks st) = pool_max -> forallb needs_conn (tasks st) = true ->
  cdb (cstep a st) = cdb st /\ held (tasks (cstep a st)) = pool_max /\
  forallb needs_conn (tasks (cstep a st)) = true.
Proof.
  intros Hh Hn. destruct a as [[b|b]|i]; simpl.
  - destruct (suites_of_body b) as [ss|]; [|done]. destruct (validate ss); try done. simpl.
    rewrite held_app, forallb_app, Hn, Hh. split_and!; [done | apply Nat.add_0_r | done].
  - rewrite held_app, forallb_app, Hn, Hh. split_and!; [done | apply Nat.add_0_r | done].
  - destruct (tasks st !! i) as [t|] eqn:Hi; [|done].
    assert (Ht : needs_conn t = true).
    { rewrite forallb_forall in Hn. apply Hn, list_elem_of_In. by eapply list_elem_of_lookup_2. }
    unfold pool_free. rewrite Ht, Hh. done.
Qed.

(** ** Theorems *)





(** ** Witnesses *)

Definition post_alone (b : jsval) : list action := [Arrive (PostResults b); Run 0; Run 0; Run 0; Run 0].

(** Five ingestions for project [p1] one after the other, then two more
    whose transactions both commit before either sweep runs. *)
Definition race_schedule : list action :=
  concat (repeat (post_alone example_body) 5) ++
  [Arrive (PostResults example_body); Arrive (PostResults example_body); Run 0; Run 0; Run 0; Run 0].

Definition race_drained : list action := race_schedule ++ repeat (Run 0) 6.

Definition no_event : event := mkEvent 0 None "" "" 0 0 0 0 0.

Definition race_last : event := List.last (events (cdb (crun race_drained cinit))) no_event.

(** Two ingestions of the same project whose transactions commit before
    their sweeps run leave seven events of the project visible at once. *)
Example race_seven :
  length (project_events 1 (cdb (crun race_schedule cinit))) = 7%nat /\
  length (tasks (crun race_schedule cinit)) = 2%nat.
Proof. split; vm_compute; reflexivity. Qed.



(** Two requests in flight, one of them waiting for its connection. *)
Definition two_in_flight : cstate :=
  crun [Arrive (PostResults example_body); Run 0; Arrive (PostResults example_body)] cinit.


(** Ten ingestions for [p1] arrive, take the ten connections and commit
    before any sweep runs. *)
Definition ten_posts : list action :=
  repeat (Arrive (PostResults example_body)) 10 ++ repeat (Run 0) 20.

Definition later : list action :=
  [Arrive (PostResults example_body); Arrive (PostProjects dup_body); Run 0; Run 10; Run 11].


End Concurrent.
